(** * Vector2.h: the WinRT collection adapter (Vector, VectorView, VectorIterator)

    A shallow embedding of [source/uwp/Renderer/Vector2.h]:
    - the error-handling helpers ([ThrowHR], [CheckInPointer],
      [ExceptionBoundary], ...) as a state monad in which a computation either
      returns or throws, the state surviving the throw (a C++ exception does
      not roll back the writes made before it);
    - [ElementTraits] and [DefaultVectorTraits] over [std::vector] as a list;
    - the three runtime classes, first as methods over the objects they touch,
      then over a store of objects addressed by handles, so that a view or an
      iterator and the vector it wraps are one shared object. *)

From Stdlib Require Import ZArith NArith List Lia Bool.
From stdpp Require Import base option list gmap sorting.

Local Open Scope N_scope.

(** ** Machine types *)

(** [unsigned]: a 32-bit unsigned integer, as an [N] below [2^32]; arithmetic
    wraps. [size_t] values (results of [vector.size()]) are plain [N]. *)
Definition unsigned := N.
Definition UINT_RANGE : N := 2 ^ 32.

(** The cast [(unsigned)x] of a [size_t]. *)
Definition to_unsigned (x : N) : unsigned := x mod UINT_RANGE.

(** [a - b] and [a + b] on [unsigned]. *)
Definition unsigned_sub (a b : unsigned) : unsigned :=
  Z.to_N ((Z.of_N a - Z.of_N b) mod Z.of_N UINT_RANGE).
Definition unsigned_add (a b : unsigned) : unsigned :=
  (a + b) mod UINT_RANGE.

(** WinRT's [boolean]. *)
Definition boolean := bool.

(** [HRESULT] is a signed 32-bit integer; negative values are failures. The
    status codes have the values the platform header winerror.h gives them. *)
Definition HRESULT := Z.
Definition S_OK : HRESULT := 0%Z.
Definition E_NOTIMPL : HRESULT := (-2147467263)%Z.     (* 0x80004001 *)
Definition E_UNEXPECTED : HRESULT := (-2147418113)%Z.  (* 0x8000FFFF *)
Definition E_OUTOFMEMORY : HRESULT := (-2147024882)%Z. (* 0x8007000E *)
Definition E_INVALIDARG : HRESULT := (-2147024809)%Z.  (* 0x80070057 *)
Definition E_BOUNDS : HRESULT := (-2147483637)%Z.      (* 0x8000000B *)
Definition FAILED (hr : HRESULT) : bool := (hr <? 0)%Z.

(** Objects of the three runtime classes live in a store and are named by
    handles; a COM interface pointer is [Some h], or [None] for [nullptr]. *)
Definition handle := nat.

(** ** Exceptions and the computation monad *)

(** What a [throw] can carry: an [HResultException], a [std::bad_alloc], or
    anything else. *)
Inductive exn :=
| HResultException (m_Hr : HRESULT)
| bad_alloc
| other_exception.

Inductive outcome (A : Type) :=
| Returned (a : A)
| Thrown (e : exn).
Arguments Returned {A} a.
Arguments Thrown {A} e.

(** A statement sequence over a state [S]. *)
Definition M (S A : Type) := S -> S * outcome A.

Definition ret {S A} (a : A) : M S A := fun s => (s, Returned a).

Definition bind {S A B} (m : M S A) (k : A -> M S B) : M S B :=
  fun s => match m s with
           | (s', Returned a) => k a s'
           | (s', Thrown e) => (s', Thrown e)
           end.

Definition throw {S A} (e : exn) : M S A := fun s => (s, Thrown e).
Definition gets {S A} (f : S -> A) : M S A := fun s => (s, Returned (f s)).
Definition modify {S} (f : S -> S) : M S unit := fun s => (f s, Returned tt).

Notation "x <- m ;; k" := (bind m (fun x => k))
  (at level 100, m at next level, right associativity).
Notation "m ;; k" := (bind m (fun _ => k))
  (at level 100, right associativity).

(** A statement over a part [P] of the state, run inside the whole state. *)
Definition zoom {S P A} (get : S -> P) (set : P -> S -> S) (m : M P A) : M S A :=
  fun s => let '(p', r) := m (get s) in (set p' s, r).

(** [if (c) stmt]. *)
Definition when {S} (c : bool) (m : M S unit) : M S unit :=
  if c then m else ret tt.

(** [for (unsigned i = 0; i < n; i++) body], where [body i] answers whether it
    executed [break]. [i] takes the values [0], [1], ... in order; as
    [i < n < 2^32], [i++] never wraps. *)
Fixpoint for_from {S} (steps : nat) (i : unsigned) (body : unsigned -> M S bool)
  : M S unit :=
  match steps with
  | O => ret tt
  | S steps' =>
      brk <- body i ;;
      if (brk : bool) then ret tt else for_from steps' (unsigned_add i 1) body
  end.

Definition for_ {S} (n : unsigned) (body : unsigned -> M S bool) : M S unit :=
  for_from (N.to_nat n) 0 body.

(** ** Pointers into the caller's memory *)

(** A pointer argument is modelled by the cell it points to: [None] is
    [nullptr], [Some a] a valid pointer whose target currently holds [a]. *)
Definition ptr (A : Type) := option A.

(** [*p = x]; nothing is written through [nullptr] (every use is behind a null
    check). *)
Definition assign {A} (p : ptr A) (x : A) : ptr A :=
  match p with Some _ => Some x | None => None end.

(** A pointer parameter of a method whose frame is [S]. *)
Record Pointer (S A : Type) := {
  load : S -> ptr A;
  store : A -> S -> S
}.
Arguments load {S A} _ _.
Arguments store {S A} _ _ _.

Definition is_null {S A} (p : Pointer S A) : M S bool :=
  gets (fun s => match load p s with None => true | Some _ => false end).

Notation "'*' p '::=' x" := (modify (store p x)) (at level 65, p at level 9).

(** The frame of a method on object(s) [Obj] with out-parameters [O]. *)
Definition Frame (Obj O : Type) : Type := Obj * O.

Definition out {Obj A} : Pointer (Frame Obj (ptr A)) A :=
  {| load := snd; store x s := (fst s, assign (snd s) x) |}.
Definition out1 {Obj A B} : Pointer (Frame Obj (ptr A * ptr B)) A :=
  {| load s := fst (snd s);
     store x s := (fst s, (assign (fst (snd s)) x, snd (snd s))) |}.
Definition out2 {Obj A B} : Pointer (Frame Obj (ptr A * ptr B)) B :=
  {| load s := snd (snd s);
     store x s := (fst s, (fst (snd s), assign (snd (snd s)) x)) |}.

(** ** Error handling helpers *)

Definition ThrowHR {S A} (hr : HRESULT) : M S A := throw (HResultException hr).

Definition ThrowIfFailed {S} (hr : HRESULT) : M S unit :=
  when (FAILED hr) (ThrowHR hr).

Definition ThrowIfNullPointer {S A} (p : Pointer S A) (hrToThrow : HRESULT)
  : M S unit :=
  null <- is_null p ;;
  when null (ThrowHR hrToThrow).

Definition CheckInPointer {S A} (p : Pointer S A) : M S unit :=
  ThrowIfNullPointer p E_INVALIDARG.

Definition CheckAndClearOutPointer {S A} (p : Pointer S (option A)) : M S unit :=
  CheckInPointer p ;;
  * p ::= None.

Definition ThrowBadAlloc {S A} : M S A := throw bad_alloc.

Definition CheckMakeResult {S A} (result : option A) : M S unit :=
  when (negb (bool_decide (is_Some result))) ThrowBadAlloc.

(** [ThrownExceptionToHResult]: rethrows the exception in flight and matches it
    against the three handlers in order. *)
Definition ThrownExceptionToHResult (e : exn) : HRESULT :=
  match e with
  | HResultException hr => hr
  | bad_alloc => E_OUTOFMEMORY
  | other_exception => E_UNEXPECTED
  end.

Definition ExceptionBoundary {S} (fn : M S unit) (s : S) : HRESULT * S :=
  match fn s with
  | (s', Returned _) => (S_OK, s')
  | (s', Thrown e) => (ThrownExceptionToHResult e, s')
  end.

(** ** Element traits *)

(** The ABI type of the elements: [ZeroMemory(item, sizeof( *item))] fills the
    caller's cell with the value whose representation is all zero bytes. *)
Class AbiType (T : Type) := { zero_memory : T }.

(** [ElementTraits<T>]: how a value of the ABI type [T] is stored
    ([ElementType]), handed back and compared. [Unwrap] and [Equals] may throw
    (the specialisations call [ThrowIfFailed]). *)
Class ElementTraits (T ElementType : Type) := {
  Wrap : T -> ElementType;
  Unwrap : ElementType -> outcome T;
  Equals : ElementType -> T -> outcome bool
}.

(** What the three specialisations below have in common, and what the
    properties of the collection rely on. *)
Class ElementTraitsLaws (T ElementType : Type) `{!ElementTraits T ElementType}
  : Prop := {
  Unwrap_Wrap : forall x : T, Unwrap (Wrap x) = Returned x;
  Unwrap_returns : forall e : ElementType, exists x : T, Unwrap e = Returned x;
  Equals_returns : forall (e : ElementType) (x : T),
      exists b : bool, Equals e x = Returned b
}.

(** Lifts a helper that throws (such as [ThrowIfFailed]) to a pure result. *)
Definition run_pure {A} (m : M unit A) : outcome A := snd (m tt).

Module ElementTraits_value.
(** The default implementation, for value types. *)
Section Value.
Context {T : Type} `{EqDecision T}.

Definition Wrap (value : T) : T := value.
Definition Unwrap (value : T) : outcome T := Returned value.
Definition Equals (value1 value2 : T) : outcome bool :=
  Returned (bool_decide (value1 = value2)).
End Value.
End ElementTraits_value.

#[export] Instance ElementTraits_T {T} `{EqDecision T} : ElementTraits T T := {|
  Wrap := ElementTraits_value.Wrap;
  Unwrap := ElementTraits_value.Unwrap;
  Equals := ElementTraits_value.Equals
|}.

Module ElementTraits_pointer.
(** The specialisation for reference counted pointer types: [T*] is an
    interface pointer, [ComPtr<T>] a counted reference to the same object.
    Reference counts are not modelled. *)
Definition T_ptr := option handle.
Definition ComPtr := option handle.

(** [ComPtr::CopyTo] hands out the pointer and answers [S_OK]. *)
Definition CopyTo (value : ComPtr) : HRESULT * T_ptr := (S_OK, value).

Definition Wrap (value : T_ptr) : ComPtr := value.
Definition Unwrap (value : ComPtr) : outcome T_ptr :=
  run_pure (let '(hr, result) := CopyTo value in
            ThrowIfFailed hr ;; ret result).
Definition Equals (value1 : ComPtr) (value2 : T_ptr) : outcome bool :=
  Returned (bool_decide (value1 = value2)).
End ElementTraits_pointer.

#[export] Instance ElementTraits_T_ptr
  : ElementTraits ElementTraits_pointer.T_ptr ElementTraits_pointer.ComPtr := {|
  Wrap := ElementTraits_pointer.Wrap;
  Unwrap := ElementTraits_pointer.Unwrap;
  Equals := ElementTraits_pointer.Equals
|}.

Module ElementTraits_HSTRING.
(** The specialisation for strings: an [HSTRING] is an immutable sequence of
    UTF-16 code units, an [HString] an owned copy of one. *)
Definition HSTRING := list N.
Definition HString := list N.

Section Strings.
(** [WindowsCompareStringOrdinal(s1, s2, &result)] of the platform: a
    status and the sign of the comparison. *)
Variable WindowsCompareStringOrdinal : HSTRING -> HSTRING -> HRESULT * Z.

Definition Wrap (value : HSTRING) : HString := value.
(** The status of [value.CopyTo(result)] is dropped. *)
Definition Unwrap (value : HString) : outcome HSTRING := Returned value.
Definition Equals (value1 value2 : HSTRING) : outcome bool :=
  run_pure (let '(hr, compareResult) :=
              WindowsCompareStringOrdinal value1 value2 in
            ThrowIfFailed hr ;; ret (compareResult =? 0)%Z).

Definition traits : ElementTraits HSTRING HString :=
  Build_ElementTraits HSTRING HString Wrap Unwrap Equals.
End Strings.
End ElementTraits_HSTRING.

(** ** DefaultVectorTraits: the collection as a [std::vector] *)

(** The vector is the list of its elements; growing it is taken to succeed. *)

Module DefaultVectorTraits.
Section Traits.
Context {T ElementType : Type} `{!ElementTraits T ElementType}.

Definition InternalVectorType := list ElementType.

(** [vector.size()], a [size_t]. *)
Definition size (vector : InternalVectorType) : N := N.of_nat (length vector).

Definition GetSize (vector : InternalVectorType) : unsigned :=
  to_unsigned (size vector).

Definition GetAt (index : unsigned) : M InternalVectorType ElementType :=
  vector_size <- gets size ;;
  when (vector_size <=? index) (ThrowHR E_BOUNDS) ;;
  item <- gets (fun vector => vector !! N.to_nat index) ;;
  match item with
  | Some value => ret value
  | None => ThrowHR E_BOUNDS (* not reached: index < vector.size() *)
  end.

Definition SetAt (index : unsigned) (item : T) : M InternalVectorType unit :=
  vector_size <- gets size ;;
  when (vector_size <=? index) (ThrowHR E_BOUNDS) ;;
  modify (fun vector => <[N.to_nat index := Wrap item]> vector).

Definition InsertAt (index : unsigned) (item : T) : M InternalVectorType unit :=
  vector_size <- gets size ;;
  when (vector_size <? index) (ThrowHR E_BOUNDS) ;;
  modify (fun vector =>
            take (N.to_nat index) vector ++ Wrap item :: drop (N.to_nat index) vector).

Definition RemoveAt (index : unsigned) : M InternalVectorType unit :=
  vector_size <- gets size ;;
  when (vector_size <=? index) (ThrowHR E_BOUNDS) ;;
  modify (fun vector => delete (N.to_nat index) vector).

Definition Append (item : T) : M InternalVectorType unit :=
  modify (fun vector => vector ++ [Wrap item]).

Definition Clear : M InternalVectorType unit :=
  modify (fun _ => []).
End Traits.
End DefaultVectorTraits.

(** ** The objects behind a view and an iterator *)

(** Both wrap an existing [Vector] through a [ComPtr], here the handle of the
    vector in the store: the vector is shared, not copied. Their methods are in
    [IVectorView] and [IIterator] below. *)
Module VectorView.
Record t := { mVector : handle }.
Definition new (vector : handle) : t := {| mVector := vector |}.
End VectorView.

Module VectorIterator.
Record t := { mVector : handle; mPosition : unsigned }.
Definition new (vector : handle) : t :=
  {| mVector := vector; mPosition := 0 |}.
End VectorIterator.

(** [Make<C>(args)]: allocates the object built by the constructor in the store
    of [C] objects next to the caller and answers its handle, or answers an
    empty pointer when the allocation fails ([alloc_ok] tells which). *)
Definition Make {Obj O C} (alloc_ok : bool) (object : C)
  : M (Frame (Obj * gmap handle C) O) (option handle) :=
  fun s =>
    if alloc_ok then
      let h := fresh (dom (snd (fst s))) in
      ((fst (fst s), <[h := object]> (snd (fst s)), snd s), Returned (Some h))
    else (s, Returned None).

(** ** Vector: the WinRT IVector implementation *)

Module Vector.
Section Vector.
Context {T ElementType : Type} `{!AbiType T} `{!ElementTraits T ElementType}.

Record t := {
  mVector : list ElementType;
  isFixedSize : bool;
  isChanged : bool
}.

(** Constructs an empty vector. *)
Definition new : t :=
  {| mVector := []; isFixedSize := false; isChanged := false |}.

(** Constructs a vector from the arguments of a [std::vector] constructor,
    given here by the contents they produce. *)
Definition new_sized (isFixedSize : bool) (args : list ElementType) : t :=
  {| mVector := args; isFixedSize := isFixedSize; isChanged := false |}.

Definition IsFixedSize (this : t) : bool := isFixedSize this.
Definition IsChanged (this : t) : bool := isChanged this.
Definition SetChanged (changed : bool) (this : t) : t :=
  {| mVector := mVector this; isFixedSize := isFixedSize this;
     isChanged := changed |}.
Definition InternalVector (this : t) : list ElementType := mVector this.

(** Statements of a method body: on the [mVector] field, on [isChanged],
    and the test of [isFixedSize]. The frame is the object and the
    caller's out cells. *)
Definition on_mVector {O A} (m : M (list ElementType) A) : M (Frame t O) A :=
  zoom (fun s => mVector (fst s))
       (fun vector s =>
          ({| mVector := vector; isFixedSize := isFixedSize (fst s);
              isChanged := isChanged (fst s) |}, snd s))
       m.
Definition set_isChanged {O} (b : bool) : M (Frame t O) unit :=
  modify (fun s => (SetChanged b (fst s), snd s)).
Definition get_isFixedSize {O} : M (Frame t O) bool :=
  gets (fun s => isFixedSize (fst s)).
Definition lift {O A} (r : outcome A) : M (Frame t O) A := fun s => (s, r).

(** An [_In_reads_(count)] array argument: [nullptr], or the memory the
    pointer addresses, read by index. *)
Definition array := ptr (unsigned -> T).

(** An input pointer reads as a pointer into memory the method never
    writes. *)
Definition input {S A} (p : ptr A) : Pointer S A :=
  {| load _ := p; store _ s := s |}.

(** [value[i]]. *)
Definition subscript {S} (value : array) (i : unsigned) : M S T :=
  match value with
  | Some elements => ret (elements i)
  | None => ThrowHR E_INVALIDARG (* not reached: value is checked first *)
  end.

Definition get_Size : Frame t (ptr unsigned) -> HRESULT * Frame t (ptr unsigned) :=
  ExceptionBoundary (
    CheckInPointer out ;;
    size <- on_mVector (gets DefaultVectorTraits.GetSize) ;;
    * out ::= size).

Definition GetAt (index : unsigned) : Frame t (ptr T) -> HRESULT * Frame t (ptr T) :=
  ExceptionBoundary (
    CheckInPointer out ;;
    * out ::= zero_memory ;;
    value <- on_mVector (DefaultVectorTraits.GetAt index) ;;
    result <- lift (Unwrap value) ;;
    * out ::= result).

Definition IndexOf (value : T)
  : Frame t (ptr unsigned * ptr boolean) -> HRESULT * Frame t (ptr unsigned * ptr boolean) :=
  ExceptionBoundary (
    CheckInPointer out1 ;;
    CheckInPointer out2 ;;
    * out1 ::= 0 ;;
    * out2 ::= false ;;
    size <- on_mVector (gets DefaultVectorTraits.GetSize) ;;
    for_ size (fun i =>
      element <- on_mVector (DefaultVectorTraits.GetAt i) ;;
      equal <- lift (Equals element value) ;;
      if (equal : bool) then
        * out1 ::= i ;;
        * out2 ::= true ;;
        ret true
      else ret false)).

Definition SetAt (index : unsigned) (item : T) : Frame t unit -> HRESULT * Frame t unit :=
  ExceptionBoundary (
    on_mVector (DefaultVectorTraits.SetAt index item) ;;
    set_isChanged true).

Definition InsertAt (index : unsigned) (item : T) : Frame t unit -> HRESULT * Frame t unit :=
  ExceptionBoundary (
    fixed <- get_isFixedSize ;;
    when fixed (ThrowHR E_NOTIMPL) ;;
    on_mVector (DefaultVectorTraits.InsertAt index item) ;;
    set_isChanged true).

Definition RemoveAt (index : unsigned) : Frame t unit -> HRESULT * Frame t unit :=
  ExceptionBoundary (
    fixed <- get_isFixedSize ;;
    when fixed (ThrowHR E_NOTIMPL) ;;
    on_mVector (DefaultVectorTraits.RemoveAt index) ;;
    set_isChanged true).

Definition Append (item : T) : Frame t unit -> HRESULT * Frame t unit :=
  ExceptionBoundary (
    fixed <- get_isFixedSize ;;
    when fixed (ThrowHR E_NOTIMPL) ;;
    on_mVector (DefaultVectorTraits.Append item) ;;
    set_isChanged true).

Definition RemoveAtEnd : Frame t unit -> HRESULT * Frame t unit :=
  ExceptionBoundary (
    fixed <- get_isFixedSize ;;
    when fixed (ThrowHR E_NOTIMPL) ;;
    size <- on_mVector (gets DefaultVectorTraits.GetSize) ;;
    on_mVector (DefaultVectorTraits.RemoveAt (unsigned_sub size 1)) ;;
    set_isChanged true).

Definition Clear : Frame t unit -> HRESULT * Frame t unit :=
  ExceptionBoundary (
    fixed <- get_isFixedSize ;;
    when fixed (ThrowHR E_NOTIMPL) ;;
    on_mVector DefaultVectorTraits.Clear ;;
    set_isChanged true).

Definition ReplaceAll (count : unsigned) (value : array)
  : Frame t unit -> HRESULT * Frame t unit :=
  ExceptionBoundary (
    CheckInPointer (input value) ;;
    size <- on_mVector (gets DefaultVectorTraits.GetSize) ;;
    (if count =? size then
       for_ count (fun i =>
         item <- subscript value i ;;
         on_mVector (DefaultVectorTraits.SetAt i item) ;;
         ret false)
     else
       fixed <- get_isFixedSize ;;
       when fixed (ThrowHR E_NOTIMPL) ;;
       on_mVector DefaultVectorTraits.Clear ;;
       for_ count (fun i =>
         item <- subscript value i ;;
         on_mVector (DefaultVectorTraits.Append item) ;;
         ret false)) ;;
    set_isChanged true).

(** [this] is the handle of the vector the method is called on. *)
Definition GetView (this : handle) (alloc_ok : bool)
  : Frame (t * gmap handle VectorView.t) (ptr (option handle)) ->
    HRESULT * Frame (t * gmap handle VectorView.t) (ptr (option handle)) :=
  ExceptionBoundary (
    CheckAndClearOutPointer out ;;
    vectorView <- Make alloc_ok (VectorView.new this) ;;
    CheckMakeResult vectorView ;;
    * out ::= vectorView).

Definition First (this : handle) (alloc_ok : bool)
  : Frame (t * gmap handle VectorIterator.t) (ptr (option handle)) ->
    HRESULT * Frame (t * gmap handle VectorIterator.t) (ptr (option handle)) :=
  ExceptionBoundary (
    CheckAndClearOutPointer out ;;
    iterator <- Make alloc_ok (VectorIterator.new this) ;;
    CheckMakeResult iterator ;;
    * out ::= iterator).
End Vector.
Arguments t ElementType : clear implicits.
End Vector.

(** ** VectorView: the WinRT IVectorView implementation *)

(** Every method forwards to the wrapped vector, [mVector->Method(args)]; the
    frame holds the vector [mVector] points to. *)
Module IVectorView.
Section VectorView.
Context {T ElementType : Type} `{!AbiType T} `{!ElementTraits T ElementType}.

Definition get_Size
  : Frame (Vector.t ElementType) (ptr unsigned) ->
    HRESULT * Frame (Vector.t ElementType) (ptr unsigned) :=
  Vector.get_Size.

Definition GetAt (index : unsigned)
  : Frame (Vector.t ElementType) (ptr T) ->
    HRESULT * Frame (Vector.t ElementType) (ptr T) :=
  Vector.GetAt index.

Definition IndexOf (value : T)
  : Frame (Vector.t ElementType) (ptr unsigned * ptr boolean) ->
    HRESULT * Frame (Vector.t ElementType) (ptr unsigned * ptr boolean) :=
  Vector.IndexOf value.

Definition First (this : VectorView.t) (alloc_ok : bool)
  : Frame (Vector.t ElementType * gmap handle VectorIterator.t)
          (ptr (option handle)) ->
    HRESULT * Frame (Vector.t ElementType * gmap handle VectorIterator.t)
                    (ptr (option handle)) :=
  Vector.First (VectorView.mVector this) alloc_ok.
End VectorView.
End IVectorView.

(** ** VectorIterator: the WinRT IIterator implementation *)

(** The frame holds the vector [mVector] points to and the iterator itself. *)
Module IIterator.
Section VectorIterator.
Context {T ElementType : Type} `{!AbiType T} `{!ElementTraits T ElementType}.

Definition Obj : Type := Vector.t ElementType * VectorIterator.t.

Definition get_mPosition {O} : M (Frame Obj O) unsigned :=
  gets (fun s => VectorIterator.mPosition (snd (fst s))).
Definition set_mPosition {O} (position : unsigned) : M (Frame Obj O) unit :=
  modify (fun s =>
            ((fst (fst s),
              {| VectorIterator.mVector := VectorIterator.mVector (snd (fst s));
                 VectorIterator.mPosition := position |}),
             snd s)).
(** [TVector::Traits::GetSize(mVector->InternalVector())]. *)
Definition get_vector_size {O} : M (Frame Obj O) unsigned :=
  gets (fun s => DefaultVectorTraits.GetSize (Vector.InternalVector (fst (fst s)))).

Definition get_Current
  : Frame Obj (ptr T) -> HRESULT * Frame Obj (ptr T) :=
  fun s =>
    let '(hr, (vector, current)) :=
      Vector.GetAt (VectorIterator.mPosition (snd (fst s))) (fst (fst s), snd s) in
    (hr, ((vector, snd (fst s)), current)).

Definition get_HasCurrent
  : Frame Obj (ptr boolean) -> HRESULT * Frame Obj (ptr boolean) :=
  ExceptionBoundary (
    CheckInPointer out ;;
    position <- get_mPosition ;;
    size <- get_vector_size ;;
    * out ::= (position <? size)).

Definition MoveNext
  : Frame Obj (ptr boolean) -> HRESULT * Frame Obj (ptr boolean) :=
  ExceptionBoundary (
    CheckInPointer out ;;
    size <- get_vector_size ;;
    position <- get_mPosition ;;
    when (size <=? position) (ThrowHR E_BOUNDS) ;;
    set_mPosition (unsigned_add position 1) ;;
    position <- get_mPosition ;;
    * out ::= (position <? size)).
End VectorIterator.
End IIterator.

(** ** The store of objects *)

(** Vectors, views and iterators by handle. A call on a handle resolves the
    object, and the vector a view or iterator points to, in the store as it is
    at the time of the call; it answers [None] when a handle names no object
    (which shared ownership rules out: a view or an iterator keeps its vector
    alive, and nothing is ever taken out of the store). *)
Module World.
Section World.
Context {T ElementType : Type} `{!AbiType T} `{!ElementTraits T ElementType}.

Record t := {
  vectors : gmap handle (Vector.t ElementType);
  views : gmap handle VectorView.t;
  iterators : gmap handle VectorIterator.t
}.

Definition set_vector (h : handle) (vector : Vector.t ElementType) (w : t) : t :=
  {| vectors := <[h := vector]> (vectors w); views := views w;
     iterators := iterators w |}.
Definition set_views (vs : gmap handle VectorView.t) (w : t) : t :=
  {| vectors := vectors w; views := vs; iterators := iterators w |}.
Definition set_iterators (its : gmap handle VectorIterator.t) (w : t) : t :=
  {| vectors := vectors w; views := views w; iterators := its |}.

(** A method of the vector at [this]. *)
Definition on_vector {O} (this : handle)
    (method : Frame (Vector.t ElementType) O ->
              HRESULT * Frame (Vector.t ElementType) O)
    (outs : O) (w : t) : option (HRESULT * O * t) :=
  match vectors w !! this with
  | Some vector =>
      let '(hr, (vector', outs')) := method (vector, outs) in
      Some (hr, outs', set_vector this vector' w)
  | None => None
  end.

(** [GetView] on the vector at [this]. *)
Definition GetView (this : handle) (alloc_ok : bool)
    (view : ptr (option handle)) (w : t)
  : option (HRESULT * ptr (option handle) * t) :=
  match vectors w !! this with
  | Some vector =>
      let '(hr, ((vector', views'), view')) :=
        Vector.GetView this alloc_ok ((vector, views w), view) in
      Some (hr, view', set_views views' (set_vector this vector' w))
  | None => None
  end.

(** [First] on the vector at [this]. *)
Definition First (this : handle) (alloc_ok : bool)
    (first : ptr (option handle)) (w : t)
  : option (HRESULT * ptr (option handle) * t) :=
  match vectors w !! this with
  | Some vector =>
      let '(hr, ((vector', iterators'), first')) :=
        Vector.First this alloc_ok ((vector, iterators w), first) in
      Some (hr, first', set_iterators iterators' (set_vector this vector' w))
  | None => None
  end.

(** A method of the view at [this]: runs on the vector it wraps. *)
Definition on_view {O} (this : handle)
    (method : Frame (Vector.t ElementType) O ->
              HRESULT * Frame (Vector.t ElementType) O)
    (outs : O) (w : t) : option (HRESULT * O * t) :=
  match views w !! this with
  | Some view => on_vector (VectorView.mVector view) method outs w
  | None => None
  end.

Definition View_First (this : handle) (alloc_ok : bool)
    (first : ptr (option handle)) (w : t)
  : option (HRESULT * ptr (option handle) * t) :=
  match views w !! this with
  | Some view =>
      match vectors w !! VectorView.mVector view with
      | Some vector =>
          let '(hr, ((vector', iterators'), first')) :=
            IVectorView.First view alloc_ok ((vector, iterators w), first) in
          Some (hr, first',
                set_iterators iterators'
                  (set_vector (VectorView.mVector view) vector' w))
      | None => None
      end
  | None => None
  end.

(** A method of the iterator at [this]: runs on the iterator and on the
    vector it wraps. *)
Definition on_iterator {O} (this : handle)
    (method : Frame IIterator.Obj O -> HRESULT * Frame IIterator.Obj O)
    (outs : O) (w : t) : option (HRESULT * O * t) :=
  match iterators w !! this with
  | Some iterator =>
      match vectors w !! VectorIterator.mVector iterator with
      | Some vector =>
          let '(hr, ((vector', iterator'), outs')) :=
            method ((vector, iterator), outs) in
          Some (hr, outs',
                set_iterators (<[this := iterator']> (iterators w))
                  (set_vector (VectorIterator.mVector iterator) vector' w))
      | None => None
      end
  | None => None
  end.
End World.
Arguments t ElementType : clear implicits.
End World.

(** ** Calls across the boundary *)

(** One constructor per entry point of the three classes, with the handle of
    the receiver and the arguments (an out-parameter carries what the caller's
    cell holds before the call), plus the owner's constructor of a vector. *)
Inductive Call {T ElementType : Type} :=
| New_Vector (isFixedSize : bool) (args : list ElementType)
| Vector_get_Size (this : handle) (size : ptr unsigned)
| Vector_GetAt (this : handle) (index : unsigned) (item : ptr T)
| Vector_IndexOf (this : handle) (value : T) (index : ptr unsigned) (found : ptr boolean)
| Vector_SetAt (this : handle) (index : unsigned) (item : T)
| Vector_InsertAt (this : handle) (index : unsigned) (item : T)
| Vector_RemoveAt (this : handle) (index : unsigned)
| Vector_Append (this : handle) (item : T)
| Vector_RemoveAtEnd (this : handle)
| Vector_Clear (this : handle)
| Vector_ReplaceAll (this : handle) (count : unsigned) (value : ptr (unsigned -> T))
| Vector_GetView (this : handle) (alloc_ok : bool) (view : ptr (option handle))
| Vector_First (this : handle) (alloc_ok : bool) (first : ptr (option handle))
| View_get_Size (this : handle) (size : ptr unsigned)
| View_GetAt (this : handle) (index : unsigned) (item : ptr T)
| View_IndexOf (this : handle) (value : T) (index : ptr unsigned) (found : ptr boolean)
| View_First (this : handle) (alloc_ok : bool) (first : ptr (option handle))
| Iterator_get_Current (this : handle) (current : ptr T)
| Iterator_get_HasCurrent (this : handle) (hasCurrent : ptr boolean)
| Iterator_MoveNext (this : handle) (hasCurrent : ptr boolean).
Arguments Call T ElementType : clear implicits.

Section Calls.
Context {T ElementType : Type} `{!AbiType T} `{!ElementTraits T ElementType}.

Definition world_of {O} (r : option (HRESULT * O * World.t ElementType))
  : option (World.t ElementType) :=
  match r with Some (_, _, w) => Some w | None => None end.

(** The store after a call. *)
Definition invoke (c : Call T ElementType) (w : World.t ElementType)
  : option (World.t ElementType) :=
  match c with
  | New_Vector isFixedSize args =>
      Some (World.set_vector (fresh (dom (World.vectors w)))
              (Vector.new_sized isFixedSize args) w)
  | Vector_get_Size this size => world_of (World.on_vector this Vector.get_Size size w)
  | Vector_GetAt this index item =>
      world_of (World.on_vector this (Vector.GetAt index) item w)
  | Vector_IndexOf this value index found =>
      world_of (World.on_vector this (Vector.IndexOf value) (index, found) w)
  | Vector_SetAt this index item =>
      world_of (World.on_vector this (Vector.SetAt index item) tt w)
  | Vector_InsertAt this index item =>
      world_of (World.on_vector this (Vector.InsertAt index item) tt w)
  | Vector_RemoveAt this index =>
      world_of (World.on_vector this (Vector.RemoveAt index) tt w)
  | Vector_Append this item =>
      world_of (World.on_vector this (Vector.Append item) tt w)
  | Vector_RemoveAtEnd this => world_of (World.on_vector this Vector.RemoveAtEnd tt w)
  | Vector_Clear this => world_of (World.on_vector this Vector.Clear tt w)
  | Vector_ReplaceAll this count value =>
      world_of (World.on_vector this (Vector.ReplaceAll count value) tt w)
  | Vector_GetView this alloc_ok view => world_of (World.GetView this alloc_ok view w)
  | Vector_First this alloc_ok first => world_of (World.First this alloc_ok first w)
  | View_get_Size this size => world_of (World.on_view this IVectorView.get_Size size w)
  | View_GetAt this index item =>
      world_of (World.on_view this (IVectorView.GetAt index) item w)
  | View_IndexOf this value index found =>
      world_of (World.on_view this (IVectorView.IndexOf value) (index, found) w)
  | View_First this alloc_ok first => world_of (World.View_First this alloc_ok first w)
  | Iterator_get_Current this current =>
      world_of (World.on_iterator this IIterator.get_Current current w)
  | Iterator_get_HasCurrent this hasCurrent =>
      world_of (World.on_iterator this IIterator.get_HasCurrent hasCurrent w)
  | Iterator_MoveNext this hasCurrent =>
      world_of (World.on_iterator this IIterator.MoveNext hasCurrent w)
  end.

(** A sequence of calls, in order; [None] if one of them names no object. *)
Fixpoint run (calls : list (Call T ElementType)) (w : World.t ElementType)
  : option (World.t ElementType) :=
  match calls with
  | [] => Some w
  | c :: calls' =>
      match invoke c w with
      | Some w' => run calls' w'
      | None => None
      end
  end.

(** The empty store, before any object is made. *)
Definition World_empty : World.t ElementType :=
  {| World.vectors := ∅; World.views := ∅; World.iterators := ∅ |}.
End Calls.

(** ** Instances used in examples: a vector of [unsigned] *)

#[export] Instance AbiType_unsigned : AbiType unsigned := {| zero_memory := 0 |}.
#[export] Instance AbiType_pointer : AbiType (option handle) := {| zero_memory := None |}.
#[export] Instance AbiType_HSTRING : AbiType ElementTraits_HSTRING.HSTRING :=
  {| zero_memory := [] |}.

(** ** Closed forms *)

(** The results of the methods are stated with these. *)
Section ClosedForms.
Context {T ElementType : Type} `{!AbiType T} `{!ElementTraits T ElementType}.

Implicit Types (v : Vector.t ElementType) (l : list ElementType)
  (elements : unsigned -> T) (i : unsigned) (value : T) (it : VectorIterator.t).

(** The vector after a successful mutation that leaves [l] in the buffer. *)
Definition with_contents v l : Vector.t ElementType :=
  {| Vector.mVector := l; Vector.isFixedSize := Vector.isFixedSize v;
     Vector.isChanged := true |}.

(** The iterator after [mPosition++]. *)
Definition advanced it : VectorIterator.t :=
  {| VectorIterator.mVector := VectorIterator.mVector it;
     VectorIterator.mPosition := unsigned_add (VectorIterator.mPosition it) 1 |}.

(** What [steps] rounds of [SetAt(mVector, i, value[i])] starting at [i]
    leave in the buffer. *)
Fixpoint overwritten elements (steps : nat) i l : list ElementType :=
  match steps with
  | O => l
  | S steps' =>
      overwritten elements steps' (unsigned_add i 1)
        (<[N.to_nat i := Wrap (elements i)]> l)
  end.

(** What [steps] rounds of [Append(mVector, value[i])] starting at [i] add. *)
Fixpoint appended elements (steps : nat) i : list ElementType :=
  match steps with
  | O => []
  | S steps' => Wrap (elements i) :: appended elements steps' (unsigned_add i 1)
  end.

(** The scan of [IndexOf] over [steps] indices from [i]: the first index
    whose element [Equals] the value, or the exception of the first failing
    call. *)
Fixpoint scan l value (steps : nat) i : outcome (option unsigned) :=
  match steps with
  | O => Returned None
  | S steps' =>
      if DefaultVectorTraits.size l <=? i then Thrown (HResultException E_BOUNDS)
      else match l !! N.to_nat i with
           | None => Thrown (HResultException E_BOUNDS)
           | Some element =>
               match Equals element value with
               | Thrown e => Thrown e
               | Returned true => Returned (Some i)
               | Returned false => scan l value steps' (unsigned_add i 1)
               end
           end
  end.
End ClosedForms.

(** ** Iterators against the live collection *)

Section CursorInvariant.
Context {T ElementType : Type} `{!AbiType T} `{!ElementTraits T ElementType}.

Implicit Types (w : World.t ElementType) (c : Call T ElementType).

(** The cursor invariant [0 <= mPosition <= size]: every iterator of the
    store points to a vector of the store and its position is at most the
    number of elements of that vector, [vector.size()]. (As an [unsigned],
    [mPosition] is never negative, and [GetSize] is at most [size].) *)
Definition cursor_inv w : Prop :=
  forall h it,
    World.iterators w !! h = Some it ->
    exists v,
      World.vectors w !! VectorIterator.mVector it = Some v /\
      VectorIterator.mPosition it <= DefaultVectorTraits.size (Vector.mVector v).

(** The number of elements of the vector at [h]. *)
Definition size_at (h : handle) w : N :=
  match World.vectors w !! h with
  | Some v => DefaultVectorTraits.size (Vector.mVector v)
  | None => 0
  end.

(** The vector a call works on: the receiver itself, or the vector behind
    the view or iterator that receives the call. *)
Definition receiver c w : option handle :=
  match c with
  | New_Vector _ _ => None
  | Vector_get_Size this _ | Vector_GetAt this _ _ | Vector_IndexOf this _ _ _
  | Vector_SetAt this _ _ | Vector_InsertAt this _ _ | Vector_RemoveAt this _
  | Vector_Append this _ | Vector_RemoveAtEnd this | Vector_Clear this
  | Vector_ReplaceAll this _ _ | Vector_GetView this _ _
  | Vector_First this _ _ => Some this
  | View_get_Size this _ | View_GetAt this _ _ | View_IndexOf this _ _ _
  | View_First this _ _ =>
      match World.views w !! this with
      | Some view => Some (VectorView.mVector view)
      | None => None
      end
  | Iterator_get_Current this _ | Iterator_get_HasCurrent this _
  | Iterator_MoveNext this _ =>
      match World.iterators w !! this with
      | Some iterator => Some (VectorIterator.mVector iterator)
      | None => None
      end
  end.

(** Whether the call, made in [w], leaves its vector with fewer elements. *)
Definition shrinks c w : bool :=
  match receiver c w, invoke c w with
  | Some h, Some w' => size_at h w' <? size_at h w
  | _, _ => false
  end.

(** The entry points that can take elements out of a collection. *)
Definition may_shrink c : bool :=
  match c with
  | Vector_RemoveAt _ _ | Vector_RemoveAtEnd _ | Vector_Clear _
  | Vector_ReplaceAll _ _ _ => true
  | _ => false
  end.

(** Whether no call of the sequence, made in turn from [w], shrinks its
    vector. *)
Fixpoint never_shrinking (calls : list (Call T ElementType)) w : bool :=
  match calls with
  | [] => true
  | c :: calls' =>
      negb (shrinks c w) &&
      match invoke c w with
      | Some w' => never_shrinking calls' w'
      | None => true
      end
  end.
End CursorInvariant.

(** ** The effect of one call on the store *)

Section Effects.
Context {T ElementType : Type} `{!AbiType T} `{!ElementTraits T ElementType}.

Implicit Types (w : World.t ElementType) (v : Vector.t ElementType).

(** [v'] is as fixed as [v] and, when fixed, has as many elements. *)
Definition keeps_count v v' : Prop :=
  Vector.isFixedSize v' = Vector.isFixedSize v /\
  (Vector.isFixedSize v = true ->
   length (Vector.mVector v') = length (Vector.mVector v)).

(** Every vector of [w] is still in [w']; only the vector at [recv] may
    differ, and it has lost no element unless the call is a [removing] one. *)
Definition vectors_step (recv : option handle) (removing : bool) w w' : Prop :=
  forall h v,
    World.vectors w !! h = Some v ->
    exists v',
      World.vectors w' !! h = Some v' /\
      keeps_count v v' /\
      (recv <> Some h -> v' = v) /\
      (removing = false ->
       DefaultVectorTraits.size (Vector.mVector v)
       <= DefaultVectorTraits.size (Vector.mVector v')).

(** Every iterator of [w'] is an iterator of [w] as it was, or stands at a
    position within the vector it wraps as that vector was in [w]. *)
Definition iterators_step w w' : Prop :=
  forall h it',
    World.iterators w' !! h = Some it' ->
    World.iterators w !! h = Some it' \/
    exists v,
      World.vectors w !! VectorIterator.mVector it' = Some v /\
      VectorIterator.mPosition it'
      <= DefaultVectorTraits.size (Vector.mVector v).
End Effects.

(** ** Examples: a store with one vector of [unsigned] *)

Module Examples.
(** A resizable and a fixed-size vector holding 10, 20, 30. *)
Definition resizable : Vector.t unsigned := Vector.new_sized false [10; 20; 30].
Definition fixed : Vector.t unsigned := Vector.new_sized true [10; 20; 30].
Definition empty : Vector.t unsigned := Vector.new.

(** The array 100, 101, 102, ... *)
Definition hundreds : unsigned -> unsigned := fun i => 100 + i.

(** The store with [resizable] at handle 0 and a new iterator on it. *)
Definition store : World.t unsigned :=
  {| World.vectors := {[ 0%nat := resizable ]};
     World.views := ∅;
     World.iterators := {[ 0%nat := VectorIterator.new 0%nat ]} |}.

(** The store with [fixed] at handle 0, and calls that try to resize it
    and calls that overwrite it. *)
Definition fixed_store : World.t unsigned :=
  {| World.vectors := {[ 0%nat := fixed ]}; World.views := ∅;
     World.iterators := ∅ |}.
Definition resize_attempts : list (Call unsigned unsigned) :=
  [Vector_Append 0%nat 40;
   Vector_InsertAt 0%nat 0 40;
   Vector_RemoveAtEnd 0%nat;
   Vector_Clear 0%nat;
   Vector_ReplaceAll 0%nat 2 (Some hundreds);
   Vector_SetAt 0%nat 1 99;
   Vector_ReplaceAll 0%nat 3 (Some hundreds)].

(** The owner makes a vector, a caller takes an iterator and advances it,
    then the collection is appended to, or cleared. *)
Definition iterate_then_Append : list (Call unsigned unsigned) :=
  [New_Vector false [10; 20; 30];
   Vector_First 0%nat true (Some None);
   Iterator_MoveNext 0%nat (Some false);
   Vector_Append 0%nat 40].
Definition iterate_then_Clear : list (Call unsigned unsigned) :=
  [New_Vector false [10; 20; 30];
   Vector_First 0%nat true (Some None);
   Iterator_MoveNext 0%nat (Some false);
   Vector_Clear 0%nat].
Definition iterate_then_RemoveAt : list (Call unsigned unsigned) :=
  [New_Vector false [10; 20; 30];
   Vector_First 0%nat true (Some None);
   Iterator_MoveNext 0%nat (Some false);
   Iterator_MoveNext 0%nat (Some false);
   Iterator_MoveNext 0%nat (Some false);
   Vector_RemoveAt 0%nat 0].

(** The store after [resizable] has been iterated to its end. *)
Definition exhausted : World.t unsigned :=
  {| World.vectors := {[ 0%nat := resizable ]};
     World.views := ∅;
     World.iterators :=
       {[ 0%nat := {| VectorIterator.mVector := 0%nat;
                      VectorIterator.mPosition := 3 |} ]} |}.

(** A vector of strings on a platform whose string comparison fails. *)
Definition failing_compare
  : ElementTraits_HSTRING.HSTRING -> ElementTraits_HSTRING.HSTRING -> HRESULT * Z :=
  fun _ _ => (E_INVALIDARG, 0%Z).
Definition strings : Vector.t ElementTraits_HSTRING.HString :=
  Vector.new_sized false [[72; 105]].
End Examples.

(** ** What the caller sees, and calls in a row *)

(** The status of a call and what it leaves in the caller's out cells. *)
Definition seen {Obj O} (r : HRESULT * Frame Obj O) : HRESULT * O :=
  (fst r, snd (snd r)).

(** The object(s) a call leaves. *)
Definition left {Obj O} (r : HRESULT * Frame Obj O) : Obj := fst (snd r).

Section Repeated.
Context {T ElementType : Type} `{!AbiType T} `{!ElementTraits T ElementType}.

(** [k] calls of [MoveNext] in a row on one iterator, with the same
    [hasCurrent] cell: the statuses in order and the final frame. *)
Fixpoint MoveNext_times (k : nat)
    (s : Frame (Vector.t ElementType * VectorIterator.t) (ptr boolean))
  : list HRESULT * Frame (Vector.t ElementType * VectorIterator.t) (ptr boolean) :=
  match k with
  | O => ([], s)
  | S k' =>
      let r := IIterator.MoveNext s in
      let rest := MoveNext_times k' (snd r) in
      (fst r :: fst rest, snd rest)
  end.
End Repeated.

Section Readers.
Context {T ElementType : Type}.

(** The entry points that only read: the getters of the three classes. *)
Definition is_reader (c : Call T ElementType) : bool :=
  match c with
  | Vector_get_Size _ _ | Vector_GetAt _ _ _ | Vector_IndexOf _ _ _ _
  | View_get_Size _ _ | View_GetAt _ _ _ | View_IndexOf _ _ _ _
  | Iterator_get_Current _ _ | Iterator_get_HasCurrent _ _ => true
  | _ => false
  end.

(** Whether the call is [MoveNext] on the iterator at [h]. *)
Definition moves_iterator (h : handle) (c : Call T ElementType) : bool :=
  match c with
  | Iterator_MoveNext this _ => bool_decide (this = h)
  | _ => false
  end.
End Readers.

(** ** LifespanInfo: the counts of live objects per type *)

(** The build with [ENABLE_LIFESPAN_TRACKER]. The mutex is not modelled: the
    calls run one at a time. [size_t] has [size_bits] bits, and the name of a
    type, [type_info::name()], is a string of character codes; both are the
    implementation's. *)
Module LifespanInfo.
Definition type_index := nat.

(** [strcmp]: the sign carries the meaning. *)
Fixpoint strcmp (a b : list N) : Z :=
  match a, b with
  | [], [] => 0
  | [], _ :: _ => -1
  | _ :: _, [] => 1
  | x :: a', y :: b' => if x =? y then strcmp a' b' else (Z.of_N x - Z.of_N y)%Z
  end.

Record State := { objectCounts : gmap type_index N }.

Section Tracker.
Variable size_bits : N.
Variable name : type_index -> list N.

Definition SIZE_RANGE : N := 2 ^ size_bits.

(** [++n], [--n] and [a += b] on [size_t]. *)
Definition increment (n : N) : N := (n + 1) mod SIZE_RANGE.
Definition decrement (n : N) : N := (n + SIZE_RANGE - 1) mod SIZE_RANGE.
Definition add (a b : N) : N := (a + b) mod SIZE_RANGE.

(** [objectCounts[type]] as a value: a type not yet in the map counts 0
    (the subscript makes the entry). *)
Definition count (m_state : State) (type : type_index) : N :=
  default 0 (objectCounts m_state !! type).

(** [TraceAllocation]: whether it stops in the debugger. *)
Definition TraceAllocation (type : type_index)
    (traceAllocations breakOnAllocation : bool) (objectCount : N) (isNew : bool)
  : bool :=
  breakOnAllocation.

(** Records that a new object is being allocated. *)
Definition AddObject (type : type_index) (traceAllocations breakOnAllocation : bool)
    (m_state : State) : State * bool :=
  let objectCount := increment (count m_state type) in
  ({| objectCounts := <[type := objectCount]> (objectCounts m_state) |},
   TraceAllocation type traceAllocations breakOnAllocation objectCount true).

(** Records that an object is being freed. *)
Definition RemoveObject (type : type_index) (traceAllocations breakOnAllocation : bool)
    (m_state : State) : State * bool :=
  let objectCount := decrement (count m_state type) in
  ({| objectCounts := <[type := objectCount]> (objectCounts m_state) |},
   TraceAllocation type traceAllocations breakOnAllocation objectCount false).

(** The order of the report: highest count first, then by name. *)
Definition report_before (a b : type_index * N) : bool :=
  if negb (snd a =? snd b) then snd b <? snd a
  else (strcmp (name (fst a)) (name (fst b)) <? 0)%Z.

(** Whether the header line is written to the debugger, and the total
    count returned. *)
Definition ReportLiveObjectsNoLock (m_state : State) : bool * N :=
  let liveObjects :=
    filter (fun typeAndCount : type_index * N => 0 < snd typeAndCount)
           (map_to_list (objectCounts m_state)) in
  let liveObjects :=
    @merge_sort _ (fun a b => report_before a b = true)
      (fun a b => decide (report_before a b = true)) liveObjects in
  match liveObjects with
  | [] => (false, 0)
  | _ :: _ =>
      (true,
       foldl (fun totalLiveObjects typeAndCount =>
                add totalLiveObjects (snd typeAndCount))
             0 liveObjects)
  end.

Definition ReportLiveObjects (m_state : State) : bool * N :=
  ReportLiveObjectsNoLock m_state.

(** Wipes all lifespan data. *)
Definition Reset (m_state : State) : State := {| objectCounts := ∅ |}.

(** [LifespanTracker<T>]: the constructor and the destructor of a tracked
    object of type [T], with [TraceAllocations<T>()] and
    [BreakOnAllocation<T>()] as they are unless specialised. *)
Definition TraceAllocations (type : type_index) : bool := false.
Definition BreakOnAllocation (type : type_index) : bool := false.
Definition construct (type : type_index) (m_state : State) : State :=
  fst (AddObject type (TraceAllocations type) (BreakOnAllocation type) m_state).
Definition destruct_ (type : type_index) (m_state : State) : State :=
  fst (RemoveObject type (TraceAllocations type) (BreakOnAllocation type) m_state).

(** Objects constructed and destroyed, in order. *)
Inductive event := Constructed (type : type_index) | Destroyed (type : type_index).

Definition track (m_state : State) (e : event) : State :=
  match e with
  | Constructed type => construct type m_state
  | Destroyed type => destruct_ type m_state
  end.

(** How many objects of the type the events construct, and destroy. *)
Definition constructed (type : type_index) (events : list event) : nat :=
  length (List.filter
            (fun e => match e with
                      | Constructed t => bool_decide (t = type)
                      | Destroyed _ => false
                      end) events).
(** The counts of all the types in the map, added up without wrapping. *)
Definition all_counts (m_state : State) : N :=
  foldr (fun typeAndCount total => snd typeAndCount + total) 0
        (map_to_list (objectCounts m_state)).

Definition destroyed (type : type_index) (events : list event) : nat :=
  length (List.filter
            (fun e => match e with
                      | Destroyed t => bool_decide (t = type)
                      | Constructed _ => false
                      end) events).
End Tracker.
End LifespanInfo.

(** ** More examples *)

Module Samples.
(** A vector in which 10 and 20 occur twice. *)
Definition repeats : Vector.t unsigned := Vector.new_sized false [10; 20; 10; 20].

(** Type names, a tracker state with two live objects of type 1, and a
    history of tracked objects. *)
Definition names : LifespanInfo.type_index -> list N := fun type => [N.of_nat type].
Definition tracked : LifespanInfo.State :=
  {| LifespanInfo.objectCounts := {[ 1%nat := 2 ]} |}.
Definition history : list LifespanInfo.event :=
  [LifespanInfo.Constructed 1%nat; LifespanInfo.Constructed 2%nat;
   LifespanInfo.Destroyed 1%nat; LifespanInfo.Constructed 1%nat;
   LifespanInfo.Destroyed 1%nat].

End Samples.

(** * Properties *)

(** ** Unfolding a method body *)

Ltac unfold_monad :=
  unfold ExceptionBoundary, CheckAndClearOutPointer, CheckInPointer,
    ThrowIfNullPointer, CheckMakeResult, ThrowBadAlloc, ThrowIfFailed, ThrowHR,
    is_null, when, zoom, bind, ret, throw, gets, modify, Make in *.

Ltac unfold_vector :=
  unfold Vector.get_Size, Vector.GetAt, Vector.SetAt, Vector.InsertAt,
    Vector.RemoveAt, Vector.Append, Vector.RemoveAtEnd, Vector.Clear,
    Vector.GetView, Vector.First,
    Vector.on_mVector, Vector.set_isChanged, Vector.get_isFixedSize,
    Vector.lift, Vector.SetChanged, Vector.InternalVector,
    DefaultVectorTraits.GetAt, DefaultVectorTraits.SetAt,
    DefaultVectorTraits.InsertAt, DefaultVectorTraits.RemoveAt,
    DefaultVectorTraits.Append, DefaultVectorTraits.Clear in *.

Ltac run_body := unfold_vector; unfold_monad; cbn.

(** ** Machine arithmetic *)

Lemma UINT_RANGE_eq : UINT_RANGE = 4294967296.
Proof. reflexivity. Qed.

Lemma to_unsigned_lt (x : N) : to_unsigned x < UINT_RANGE.
Proof. unfold to_unsigned. apply N.mod_lt. rewrite UINT_RANGE_eq. lia. Qed.

Lemma to_unsigned_le (x : N) : to_unsigned x <= x.
Proof. unfold to_unsigned. apply N.Div0.mod_le. Qed.

Lemma to_unsigned_small (x : N) : x < UINT_RANGE -> to_unsigned x = x.
Proof. intros H. unfold to_unsigned. now apply N.mod_small. Qed.

Lemma unsigned_add_small (a b : unsigned) :
  a + b < UINT_RANGE -> unsigned_add a b = a + b.
Proof. intros H. unfold unsigned_add. now apply N.mod_small. Qed.

Lemma unsigned_sub_underflow : unsigned_sub 0 1 = 4294967295.
Proof. reflexivity. Qed.

Lemma unsigned_sub_small (a b : unsigned) :
  b <= a -> a < UINT_RANGE -> unsigned_sub a b = a - b.
Proof.
  intros Hb Ha. unfold unsigned_sub.
  rewrite Z.mod_small by (rewrite UINT_RANGE_eq in *; lia). lia.
Qed.

(** ** The single-step methods of [Vector], in closed form *)

Section VectorEquations.
Context {T ElementType : Type} `{!AbiType T} `{!ElementTraits T ElementType}.

Implicit Types (v : Vector.t ElementType) (index : unsigned) (item : T).

Lemma SetAt_run v index item :
  Vector.SetAt index item (v, tt) =
  if DefaultVectorTraits.size (Vector.mVector v) <=? index
  then (E_BOUNDS, (v, tt))
  else (S_OK, (with_contents v (<[N.to_nat index := Wrap item]> (Vector.mVector v)), tt)).
Proof.
  destruct v as [l f c]. run_body.
  destruct (DefaultVectorTraits.size l <=? index); reflexivity.
Qed.

Lemma InsertAt_run v index item :
  Vector.InsertAt index item (v, tt) =
  if Vector.isFixedSize v then (E_NOTIMPL, (v, tt))
  else if DefaultVectorTraits.size (Vector.mVector v) <? index
  then (E_BOUNDS, (v, tt))
  else (S_OK, (with_contents v
                 (take (N.to_nat index) (Vector.mVector v) ++
                  Wrap item :: drop (N.to_nat index) (Vector.mVector v)), tt)).
Proof.
  destruct v as [l [] c]; run_body; [reflexivity|].
  destruct (DefaultVectorTraits.size l <? index); reflexivity.
Qed.

Lemma RemoveAt_run v index :
  Vector.RemoveAt index (v, tt) =
  if Vector.isFixedSize v then (E_NOTIMPL, (v, tt))
  else if DefaultVectorTraits.size (Vector.mVector v) <=? index
  then (E_BOUNDS, (v, tt))
  else (S_OK, (with_contents v (delete (N.to_nat index) (Vector.mVector v)), tt)).
Proof.
  destruct v as [l [] c]; run_body; [reflexivity|].
  destruct (DefaultVectorTraits.size l <=? index); reflexivity.
Qed.

Lemma Append_run v item :
  Vector.Append item (v, tt) =
  if Vector.isFixedSize v then (E_NOTIMPL, (v, tt))
  else (S_OK, (with_contents v (Vector.mVector v ++ [Wrap item]), tt)).
Proof. destruct v as [l [] c]; run_body; reflexivity. Qed.

Lemma RemoveAtEnd_run v :
  Vector.RemoveAtEnd (v, tt) =
  if Vector.isFixedSize v then (E_NOTIMPL, (v, tt))
  else Vector.RemoveAt
         (unsigned_sub (DefaultVectorTraits.GetSize (Vector.mVector v)) 1) (v, tt).
Proof.
  destruct v as [l [] c]; run_body; [reflexivity|].
  destruct (DefaultVectorTraits.size l <=? _); reflexivity.
Qed.

Lemma Clear_run v :
  Vector.Clear (v, tt) =
  if Vector.isFixedSize v then (E_NOTIMPL, (v, tt))
  else (S_OK, (with_contents v [], tt)).
Proof. destruct v as [l [] c]; run_body; reflexivity. Qed.

Lemma get_Size_run v (size : ptr unsigned) :
  Vector.get_Size (v, size) =
  match size with
  | None => (E_INVALIDARG, (v, None))
  | Some _ => (S_OK, (v, Some (DefaultVectorTraits.GetSize (Vector.mVector v))))
  end.
Proof. destruct v as [l f c], size; run_body; reflexivity. Qed.

Lemma GetAt_run v index (item : ptr T) :
  Vector.GetAt index (v, item) =
  match item with
  | None => (E_INVALIDARG, (v, None))
  | Some _ =>
      if DefaultVectorTraits.size (Vector.mVector v) <=? index
      then (E_BOUNDS, (v, Some zero_memory))
      else match Vector.mVector v !! N.to_nat index with
           | Some value =>
               match Unwrap value with
               | Returned result => (S_OK, (v, Some result))
               | Thrown e => (ThrownExceptionToHResult e, (v, Some zero_memory))
               end
           | None => (E_BOUNDS, (v, Some zero_memory))
           end
  end.
Proof.
  destruct v as [l f c], item; run_body; [|reflexivity].
  destruct (DefaultVectorTraits.size l <=? index); cbn; [reflexivity|].
  unfold DefaultVectorTraits.InternalVectorType.
  destruct (l !! N.to_nat index); cbn; [|reflexivity].
  destruct (Unwrap e); reflexivity.
Qed.
End VectorEquations.

(** ** The loops of [ReplaceAll] and [IndexOf] *)

Section Loops.
Context {T ElementType : Type} `{!AbiType T} `{!ElementTraits T ElementType}.

Implicit Types (v : Vector.t ElementType) (l : list ElementType)
  (elements : unsigned -> T) (i : unsigned) (value : T).

Lemma SetAt_loop elements steps : forall i l f c,
  (N.to_nat i + steps <= length l)%nat ->
  i + N.of_nat steps <= UINT_RANGE ->
  for_from steps i
    (fun i => item <- Vector.subscript (Some elements) i ;;
              Vector.on_mVector (DefaultVectorTraits.SetAt i item) ;;
              ret false)
    ({| Vector.mVector := l; Vector.isFixedSize := f; Vector.isChanged := c |}, tt)
  = (({| Vector.mVector := overwritten elements steps i l;
         Vector.isFixedSize := f; Vector.isChanged := c |}, tt), Returned tt).
Proof.
  induction steps as [|steps IH]; intros i l f c Hlen Hrange; [reflexivity|].
  cbn [for_from overwritten]. unfold bind at 1.
  assert (Hi : (DefaultVectorTraits.size l <=? i) = false).
  { apply N.leb_gt. unfold DefaultVectorTraits.size. lia. }
  unfold Vector.subscript. run_body. rewrite Hi. cbn.
  destruct steps as [|steps']; [reflexivity|].
  rewrite <- IH; [reflexivity| |].
  - rewrite length_insert, unsigned_add_small by lia. lia.
  - rewrite unsigned_add_small by lia. lia.
Qed.

Lemma Append_loop elements steps : forall i l f c,
  for_from steps i
    (fun i => item <- Vector.subscript (Some elements) i ;;
              Vector.on_mVector (DefaultVectorTraits.Append item) ;;
              ret false)
    ({| Vector.mVector := l; Vector.isFixedSize := f; Vector.isChanged := c |}, tt)
  = (({| Vector.mVector := l ++ appended elements steps i;
         Vector.isFixedSize := f; Vector.isChanged := c |}, tt), Returned tt).
Proof.
  induction steps as [|steps IH]; intros i l f c.
  - cbn. rewrite app_nil_r. reflexivity.
  - cbn [for_from appended]. unfold bind at 1.
    unfold Vector.subscript. run_body.
    specialize (IH (unsigned_add i 1) (l ++ [Wrap (elements i)]) f c).
    unfold Vector.subscript in IH. run_body. rewrite IH.
    rewrite <- app_assoc. reflexivity.
Qed.

Lemma IndexOf_loop value steps : forall i l f c (index : unsigned) (found : boolean),
  for_from steps i
    (fun i =>
       element <- Vector.on_mVector (DefaultVectorTraits.GetAt i) ;;
       equal <- Vector.lift (Equals element value) ;;
       if (equal : bool) then
         * out1 ::= i ;;
         * out2 ::= true ;;
         ret true
       else ret false)
    ({| Vector.mVector := l; Vector.isFixedSize := f; Vector.isChanged := c |},
     (Some index, Some found))
  = match scan l value steps i with
    | Returned (Some j) =>
        (({| Vector.mVector := l; Vector.isFixedSize := f; Vector.isChanged := c |},
          (Some j, Some true)), Returned tt)
    | Returned None =>
        (({| Vector.mVector := l; Vector.isFixedSize := f; Vector.isChanged := c |},
          (Some index, Some found)), Returned tt)
    | Thrown e =>
        (({| Vector.mVector := l; Vector.isFixedSize := f; Vector.isChanged := c |},
          (Some index, Some found)), Thrown e)
    end.
Proof.
  induction steps as [|steps IH]; intros i l f c index found; [reflexivity|].
  cbn [for_from scan]. unfold bind at 1. run_body.
  destruct (DefaultVectorTraits.size l <=? i); cbn; [reflexivity|].
  unfold DefaultVectorTraits.InternalVectorType.
  destruct (l !! N.to_nat i) as [element|]; cbn; [|reflexivity].
  destruct (Equals element value) as [[]|e]; cbn; try reflexivity.
  specialize (IH (unsigned_add i 1) l f c index found).
  run_body. exact IH.
Qed.
End Loops.

Section MoreEquations.
Context {T ElementType : Type} `{!AbiType T} `{!ElementTraits T ElementType}.

Implicit Types (v : Vector.t ElementType) (l : list ElementType)
  (elements : unsigned -> T) (i : unsigned) (value : T).

Lemma ReplaceAll_run v (count : unsigned) (value : Vector.array) :
  Vector.ReplaceAll count value (v, tt) =
  match value with
  | None => (E_INVALIDARG, (v, tt))
  | Some elements =>
      if count =? DefaultVectorTraits.GetSize (Vector.mVector v)
      then (S_OK, (with_contents v
                     (overwritten elements (N.to_nat count) 0 (Vector.mVector v)), tt))
      else if Vector.isFixedSize v then (E_NOTIMPL, (v, tt))
      else (S_OK, (with_contents v (appended elements (N.to_nat count) 0), tt))
  end.
Proof.
  destruct v as [l f c], value as [elements|]; unfold Vector.ReplaceAll;
    [|run_body; reflexivity].
  unfold ExceptionBoundary, CheckInPointer, ThrowIfNullPointer, is_null.
  unfold bind at 1 2 3. cbn [load Vector.input gets when ret].
  unfold Vector.on_mVector at 1. unfold zoom at 1. cbn [gets fst snd Vector.mVector].
  unfold bind at 1.
  destruct (count =? DefaultVectorTraits.GetSize l) eqn:Hcount.
  - apply N.eqb_eq in Hcount. unfold for_.
    cbn [Vector.isFixedSize Vector.isChanged].
    rewrite SetAt_loop; [reflexivity| |].
    + pose proof (to_unsigned_le (DefaultVectorTraits.size l)).
      unfold DefaultVectorTraits.GetSize, DefaultVectorTraits.size in *. lia.
    + pose proof (to_unsigned_lt (DefaultVectorTraits.size l)).
      unfold DefaultVectorTraits.GetSize in *. lia.
  - destruct f; [reflexivity|].
    unfold Vector.get_isFixedSize, bind at 1 2 3. cbn [gets fst snd when ret Vector.isFixedSize].
    unfold Vector.on_mVector at 1, DefaultVectorTraits.Clear, zoom at 1, modify at 1.
    cbn [fst snd Vector.mVector Vector.isFixedSize Vector.isChanged].
    unfold for_. rewrite Append_loop. reflexivity.
Qed.

Lemma IndexOf_run v value (index : ptr unsigned) (found : ptr boolean) :
  Vector.IndexOf value (v, (index, found)) =
  match index, found with
  | None, _ | _, None => (E_INVALIDARG, (v, (index, found)))
  | Some _, Some _ =>
      match scan (Vector.mVector v) value
              (N.to_nat (DefaultVectorTraits.GetSize (Vector.mVector v))) 0 with
      | Returned (Some j) => (S_OK, (v, (Some j, Some true)))
      | Returned None => (S_OK, (v, (Some 0, Some false)))
      | Thrown e => (ThrownExceptionToHResult e, (v, (Some 0, Some false)))
      end
  end.
Proof.
  destruct v as [l f c], index as [index|], found as [found|];
    unfold Vector.IndexOf; try (run_body; reflexivity).
  match goal with |- context [for_ _ ?b] => set (body := b) end.
  unfold ExceptionBoundary, CheckInPointer, ThrowIfNullPointer, is_null.
  unfold bind at 1 2 3 4 5 6 7.
  cbn [load store out1 out2 gets modify when ret fst snd assign].
  unfold Vector.on_mVector at 1. unfold zoom at 1. cbn [gets fst snd Vector.mVector].
  unfold for_. subst body. rewrite IndexOf_loop.
  destruct (scan l value _ 0) as [[j|]|e]; reflexivity.
Qed.

Lemma GetView_run v (this : handle) (alloc_ok : bool)
    (views : gmap handle VectorView.t) (view : ptr (option handle)) :
  Vector.GetView this alloc_ok ((v, views), view) =
  match view with
  | None => (E_INVALIDARG, ((v, views), None))
  | Some _ =>
      if alloc_ok
      then (S_OK, ((v, <[fresh (dom views) := VectorView.new this]> views),
                   Some (Some (fresh (dom views)))))
      else (E_OUTOFMEMORY, ((v, views), Some None))
  end.
Proof. destruct view, alloc_ok; run_body; reflexivity. Qed.

Lemma First_run v (this : handle) (alloc_ok : bool)
    (iterators : gmap handle VectorIterator.t) (first : ptr (option handle)) :
  Vector.First this alloc_ok ((v, iterators), first) =
  match first with
  | None => (E_INVALIDARG, ((v, iterators), None))
  | Some _ =>
      if alloc_ok
      then (S_OK, ((v, <[fresh (dom iterators) := VectorIterator.new this]> iterators),
                   Some (Some (fresh (dom iterators)))))
      else (E_OUTOFMEMORY, ((v, iterators), Some None))
  end.
Proof. destruct first, alloc_ok; run_body; reflexivity. Qed.

Implicit Types (it : VectorIterator.t).

Lemma get_HasCurrent_run v it (hasCurrent : ptr boolean) :
  IIterator.get_HasCurrent ((v, it), hasCurrent) =
  match hasCurrent with
  | None => (E_INVALIDARG, ((v, it), None))
  | Some _ =>
      (S_OK, ((v, it),
              Some (VectorIterator.mPosition it <?
                    DefaultVectorTraits.GetSize (Vector.mVector v))))
  end.
Proof.
  destruct hasCurrent; unfold IIterator.get_HasCurrent, IIterator.get_mPosition,
    IIterator.get_vector_size; run_body; reflexivity.
Qed.

Lemma MoveNext_run v it (hasCurrent : ptr boolean) :
  IIterator.MoveNext ((v, it), hasCurrent) =
  match hasCurrent with
  | None => (E_INVALIDARG, ((v, it), None))
  | Some _ =>
      if DefaultVectorTraits.GetSize (Vector.mVector v) <=? VectorIterator.mPosition it
      then (E_BOUNDS, ((v, it), hasCurrent))
      else (S_OK, ((v, advanced it),
                   Some (unsigned_add (VectorIterator.mPosition it) 1 <?
                         DefaultVectorTraits.GetSize (Vector.mVector v))))
  end.
Proof.
  destruct hasCurrent; unfold IIterator.MoveNext, IIterator.get_mPosition,
    IIterator.set_mPosition, IIterator.get_vector_size; run_body; [|reflexivity].
  destruct (_ <=? _); reflexivity.
Qed.

Lemma get_Current_run v it (current : ptr T) :
  IIterator.get_Current ((v, it), current) =
  let '(hr, (v', current')) :=
    Vector.GetAt (VectorIterator.mPosition it) (v, current) in
  (hr, ((v', it), current')).
Proof. reflexivity. Qed.
End MoreEquations.

(** ** What the loops compute *)

Section LoopResults.
Context {T ElementType : Type} `{!AbiType T} `{!ElementTraits T ElementType}.

Implicit Types (l : list ElementType) (elements : unsigned -> T)
  (i : unsigned) (value : T).

Lemma overwritten_length elements steps : forall i l,
  length (overwritten elements steps i l) = length l.
Proof.
  induction steps as [|steps IH]; intros i l; cbn; [reflexivity|].
  rewrite IH. apply length_insert.
Qed.

Lemma overwritten_lookup_outside elements steps : forall i l (k : nat),
  i + N.of_nat steps <= UINT_RANGE ->
  (k < N.to_nat i \/ N.to_nat i + steps <= k)%nat ->
  overwritten elements steps i l !! k = l !! k.
Proof.
  induction steps as [|steps IH]; intros i l k Hrange Hk; cbn; [reflexivity|].
  destruct steps as [|steps'].
  - cbn. apply list_lookup_insert_ne. lia.
  - rewrite IH.
    + apply list_lookup_insert_ne. lia.
    + rewrite unsigned_add_small by lia. lia.
    + rewrite unsigned_add_small by lia. lia.
Qed.

Lemma overwritten_lookup_inside elements steps : forall i l (k : nat),
  i + N.of_nat steps <= UINT_RANGE ->
  (N.to_nat i + steps <= length l)%nat ->
  (N.to_nat i <= k < N.to_nat i + steps)%nat ->
  overwritten elements steps i l !! k = Some (Wrap (elements (N.of_nat k))).
Proof.
  induction steps as [|steps IH]; intros i l k Hrange Hlen Hk; [lia|].
  cbn [overwritten].
  destruct (decide (k = N.to_nat i)) as [->|Hne].
  - destruct steps as [|steps'].
    + cbn. rewrite N2Nat.id. apply list_lookup_insert_eq. lia.
    + rewrite overwritten_lookup_outside.
      * rewrite N2Nat.id. apply list_lookup_insert_eq. lia.
      * rewrite unsigned_add_small by lia. lia.
      * rewrite unsigned_add_small by lia. lia.
  - assert (0 < steps)%nat by lia.
    apply IH.
    + rewrite unsigned_add_small by lia. lia.
    + rewrite length_insert, unsigned_add_small by lia. lia.
    + rewrite unsigned_add_small by lia. lia.
Qed.

Lemma appended_length elements steps : forall i,
  length (appended elements steps i) = steps.
Proof. induction steps as [|steps IH]; intros i; cbn; [|rewrite IH]; reflexivity. Qed.

Lemma appended_lookup elements steps : forall i (k : nat),
  i + N.of_nat steps <= UINT_RANGE ->
  (k < steps)%nat ->
  appended elements steps i !! k = Some (Wrap (elements (i + N.of_nat k))).
Proof.
  induction steps as [|steps IH]; intros i k Hrange Hk; [lia|].
  cbn [appended]. destruct k as [|k].
  - cbn. rewrite N.add_0_r. reflexivity.
  - cbn [lookup list_lookup]. rewrite IH by (try rewrite unsigned_add_small; lia).
    rewrite unsigned_add_small by lia. do 3 f_equal. lia.
Qed.

Lemma scan_absent l value steps : forall i,
  i + N.of_nat steps <= UINT_RANGE ->
  (N.to_nat i + steps <= length l)%nat ->
  (forall (k : nat) element,
      (N.to_nat i <= k < N.to_nat i + steps)%nat ->
      l !! k = Some element -> Equals element value = Returned false) ->
  scan l value steps i = Returned None.
Proof.
  induction steps as [|steps IH]; intros i Hrange Hlen Hne; [reflexivity|].
  cbn [scan].
  assert (Hi : (DefaultVectorTraits.size l <=? i) = false).
  { apply N.leb_gt. unfold DefaultVectorTraits.size. lia. }
  rewrite Hi.
  destruct (lookup_lt_is_Some_2 l (N.to_nat i)) as [element Hel]; [lia|].
  rewrite Hel, (Hne (N.to_nat i) element) by (done || lia).
  destruct steps as [|steps']; [reflexivity|].
  apply IH.
  - rewrite unsigned_add_small by lia. lia.
  - rewrite unsigned_add_small by lia. lia.
  - intros k e Hk. apply Hne. rewrite unsigned_add_small in Hk by lia. lia.
Qed.

Lemma scan_first l value steps : forall i (j : nat) found,
  i + N.of_nat steps <= UINT_RANGE ->
  (N.to_nat i <= j < N.to_nat i + steps)%nat ->
  l !! j = Some found -> Equals found value = Returned true ->
  (forall (k : nat) element,
      (N.to_nat i <= k < j)%nat ->
      l !! k = Some element -> Equals element value = Returned false) ->
  scan l value steps i = Returned (Some (N.of_nat j)).
Proof.
  induction steps as [|steps IH]; intros i j found Hrange Hj Hfound Heq Hne; [lia|].
  cbn [scan].
  pose proof (lookup_lt_Some _ _ _ Hfound) as Hjlen.
  assert (Hi : (DefaultVectorTraits.size l <=? i) = false).
  { apply N.leb_gt. unfold DefaultVectorTraits.size. lia. }
  rewrite Hi.
  destruct (decide (j = N.to_nat i)) as [->|Hji].
  - rewrite Hfound, Heq, N2Nat.id. reflexivity.
  - destruct (lookup_lt_is_Some_2 l (N.to_nat i)) as [element Hel]; [lia|].
    rewrite Hel, (Hne (N.to_nat i) element) by (done || lia).
    assert (0 < steps)%nat by lia.
    apply (IH _ j found); try done.
    + rewrite unsigned_add_small by lia. lia.
    + rewrite unsigned_add_small by lia. lia.
    + intros k e Hk. apply Hne. rewrite unsigned_add_small in Hk by lia. lia.
Qed.

End LoopResults.

(** ** The element strategies satisfy the laws *)

Lemma ElementTraits_T_laws {T} `{EqDecision T} : ElementTraitsLaws T T.
Proof.
  split.
  - reflexivity.
  - intros e. exists e. reflexivity.
  - intros e x. eexists. reflexivity.
Qed.

Lemma ElementTraits_T_ptr_laws
  : ElementTraitsLaws ElementTraits_pointer.T_ptr ElementTraits_pointer.ComPtr.
Proof.
  split.
  - reflexivity.
  - intros e. exists e. reflexivity.
  - intros e x. eexists. reflexivity.
Qed.

(** For strings, provided the platform's comparison succeeds on valid handles
    and reports equal strings as equal. *)
Lemma ElementTraits_HSTRING_laws
    (WindowsCompareStringOrdinal :
       ElementTraits_HSTRING.HSTRING -> ElementTraits_HSTRING.HSTRING -> HRESULT * Z) :
  (forall s1 s2, fst (WindowsCompareStringOrdinal s1 s2) = S_OK) ->
  @ElementTraitsLaws _ _ (ElementTraits_HSTRING.traits WindowsCompareStringOrdinal).
Proof.
  intros Hok. split.
  - reflexivity.
  - intros e. exists e. reflexivity.
  - intros e x. cbn. unfold ElementTraits_HSTRING.Equals.
    specialize (Hok e x). destruct (WindowsCompareStringOrdinal e x) as [hr c].
    cbn in Hok. subst hr. eexists. reflexivity.
Qed.

(** ** Properties of the collection *)

Section VectorProperties.
Context {T ElementType : Type} `{!AbiType T} `{!ElementTraits T ElementType}.

Implicit Types (v : Vector.t ElementType) (index count : unsigned) (item value : T)
  (elements : unsigned -> T).

(** C2: On a resizable collection of size 0, [RemoveAtEnd] is
    [RemoveAt(size - 1)] with the index wrapped to [2^32 - 1] and fails with
    [E_BOUNDS], leaving the collection as it was; on a fixed-size collection
    it fails with [E_NOTIMPL] whatever the size. *)
Theorem RemoveAtEnd_empty_is_out_of_bounds v :
  (Vector.isFixedSize v = true ->
   Vector.RemoveAtEnd (v, tt) = (E_NOTIMPL, (v, tt))) /\
  (Vector.isFixedSize v = false ->
   DefaultVectorTraits.size (Vector.mVector v) = 0 ->
   unsigned_sub (DefaultVectorTraits.GetSize (Vector.mVector v)) 1 = 4294967295 /\
   Vector.RemoveAtEnd (v, tt) = Vector.RemoveAt 4294967295 (v, tt) /\
   Vector.RemoveAtEnd (v, tt) = (E_BOUNDS, (v, tt))).
Proof.
  rewrite RemoveAtEnd_run. split; intros Hfixed; rewrite Hfixed; [reflexivity|].
  intros Hsize.
  assert (Hidx : unsigned_sub (DefaultVectorTraits.GetSize (Vector.mVector v)) 1
                 = 4294967295).
  { unfold DefaultVectorTraits.GetSize. rewrite Hsize. reflexivity. }
  rewrite Hidx. repeat split.
  rewrite RemoveAt_run, Hfixed, Hsize. reflexivity.
Qed.

(** C10: Each of [SetAt], [InsertAt], [RemoveAt], [Append], [RemoveAtEnd]
    and [Clear] either succeeds, and then [isChanged] is true, or fails with
    [E_NOTIMPL] or [E_BOUNDS], and then the whole object (buffer and
    [isChanged]) is as before the call. *)
Theorem mutators_set_changed_only_on_success v index item :
  Forall (fun r : HRESULT * Frame (Vector.t ElementType) unit =>
            (fst r = S_OK /\ Vector.isChanged (fst (snd r)) = true) \/
            ((fst r = E_NOTIMPL \/ fst r = E_BOUNDS) /\ snd r = (v, tt)))
         [Vector.SetAt index item (v, tt);
          Vector.InsertAt index item (v, tt);
          Vector.RemoveAt index (v, tt);
          Vector.Append item (v, tt);
          Vector.RemoveAtEnd (v, tt);
          Vector.Clear (v, tt)].
Proof.
  rewrite RemoveAtEnd_run, SetAt_run, InsertAt_run, !RemoveAt_run, Append_run,
    Clear_run.
  repeat first [apply List.Forall_nil | apply List.Forall_cons];
    repeat match goal with
           | |- context [if ?c then _ else _] => destruct c
           end; cbn; tauto.
Qed.

(** C6: On a resizable collection, [InsertAt(size, item)] is [Append(item)]:
    same status, same resulting object, one element more. [InsertAt] fails
    with [E_BOUNDS] exactly when [index > size]; [GetAt], [SetAt] and
    [RemoveAt] exactly when [index >= size]. *)
Theorem InsertAt_size_is_Append `{!ElementTraitsLaws T ElementType}
    v index item (cell : T) :
  Vector.isFixedSize v = false ->
  let size := DefaultVectorTraits.size (Vector.mVector v) in
  Vector.InsertAt size item (v, tt) = Vector.Append item (v, tt) /\
  (exists v', Vector.Append item (v, tt) = (S_OK, (v', tt)) /\
              DefaultVectorTraits.size (Vector.mVector v') = size + 1) /\
  (fst (Vector.InsertAt index item (v, tt)) = E_BOUNDS <-> size < index) /\
  (fst (Vector.GetAt index (v, Some cell)) = E_BOUNDS <-> size <= index) /\
  (fst (Vector.SetAt index item (v, tt)) = E_BOUNDS <-> size <= index) /\
  (fst (Vector.RemoveAt index (v, tt)) = E_BOUNDS <-> size <= index).
Proof.
  intros Hfixed size.
  rewrite !InsertAt_run, Append_run, SetAt_run, RemoveAt_run, GetAt_run, Hfixed.
  fold size. rewrite N.ltb_irrefl.
  split; [|split; [|split; [|split; [|split]]]].
  - subst size. unfold DefaultVectorTraits.size. rewrite Nat2N.id.
    rewrite firstn_all, skipn_all. reflexivity.
  - eexists. split; [reflexivity|]. subst size. cbn.
    unfold DefaultVectorTraits.size. rewrite length_app. cbn. lia.
  - destruct (size <? index) eqn:E; cbn.
    + apply N.ltb_lt in E. tauto.
    + apply N.ltb_ge in E. split; [discriminate|lia].
  - destruct (size <=? index) eqn:E; cbn.
    + apply N.leb_le in E. tauto.
    + apply N.leb_gt in E.
      destruct (lookup_lt_is_Some_2 (Vector.mVector v) (N.to_nat index))
        as [e He]; [subst size; unfold DefaultVectorTraits.size in E; lia|].
      rewrite He. destruct (Unwrap_returns e) as [x ->]. cbn.
      split; [discriminate|lia].
  - destruct (size <=? index) eqn:E; cbn.
    + apply N.leb_le in E. tauto.
    + apply N.leb_gt in E. split; [discriminate|lia].
  - destruct (size <=? index) eqn:E; cbn.
    + apply N.leb_le in E. tauto.
    + apply N.leb_gt in E. split; [discriminate|lia].
Qed.
End VectorProperties.

Section VectorProperties2.
Context {T ElementType : Type} `{!AbiType T} `{!ElementTraits T ElementType}.

Implicit Types (v : Vector.t ElementType) (index count : unsigned) (item value : T)
  (elements : unsigned -> T).

Lemma GetAt_stored `{!ElementTraitsLaws T ElementType} v index item (cell : T) :
  Vector.mVector v !! N.to_nat index = Some (Wrap item) ->
  Vector.GetAt index (v, Some cell) = (S_OK, (v, Some item)).
Proof.
  intros Hk. rewrite GetAt_run.
  pose proof (lookup_lt_Some _ _ _ Hk) as Hlt.
  assert (Hi : (DefaultVectorTraits.size (Vector.mVector v) <=? index) = false).
  { apply N.leb_gt. unfold DefaultVectorTraits.size. lia. }
  rewrite Hi, Hk, Unwrap_Wrap. reflexivity.
Qed.

(** C4: [ReplaceAll(count, value)] with [count] equal to the size overwrites
    the first [count] elements in place, on a fixed-size collection too, and
    the size stays; with another [count] it fails with [E_NOTIMPL] on a
    fixed-size collection, and otherwise leaves exactly the [count] values:
    [get_Size] answers [count] and [GetAt(k)] answers [value[k]]. Every
    success sets [isChanged]. *)
Theorem ReplaceAll_replaces `{!ElementTraitsLaws T ElementType}
    v count elements (cell : T) (size_cell : unsigned) :
  count < UINT_RANGE ->
  (count = DefaultVectorTraits.GetSize (Vector.mVector v) ->
   exists v',
     Vector.ReplaceAll count (Some elements) (v, tt) = (S_OK, (v', tt)) /\
     length (Vector.mVector v') = length (Vector.mVector v) /\
     Vector.isFixedSize v' = Vector.isFixedSize v /\
     Vector.isChanged v' = true /\
     Vector.mVector v' =
       overwritten elements (N.to_nat count) 0 (Vector.mVector v) /\
     forall k, k < count ->
       Vector.GetAt k (v', Some cell) = (S_OK, (v', Some (elements k)))) /\
  (count <> DefaultVectorTraits.GetSize (Vector.mVector v) ->
   Vector.isFixedSize v = true ->
   Vector.ReplaceAll count (Some elements) (v, tt) = (E_NOTIMPL, (v, tt))) /\
  (count <> DefaultVectorTraits.GetSize (Vector.mVector v) ->
   Vector.isFixedSize v = false ->
   exists v',
     Vector.ReplaceAll count (Some elements) (v, tt) = (S_OK, (v', tt)) /\
     Vector.get_Size (v', Some size_cell) = (S_OK, (v', Some count)) /\
     Vector.isChanged v' = true /\
     forall k, k < count ->
       Vector.GetAt k (v', Some cell) = (S_OK, (v', Some (elements k)))).
Proof.
  intros Hcount. rewrite ReplaceAll_run. split; [|split].
  - intros Heq. rewrite (proj2 (N.eqb_eq _ _) Heq).
    eexists. split; [reflexivity|]. cbn.
    rewrite overwritten_length. repeat split.
    intros k Hk. apply GetAt_stored. cbn.
    pose proof (to_unsigned_le (DefaultVectorTraits.size (Vector.mVector v))) as Hle.
    unfold DefaultVectorTraits.GetSize, DefaultVectorTraits.size in *.
    rewrite overwritten_lookup_inside; [rewrite N2Nat.id; reflexivity| | |]; lia.
  - intros Hne Hfixed. rewrite (proj2 (N.eqb_neq _ _) Hne), Hfixed. reflexivity.
  - intros Hne Hfixed. rewrite (proj2 (N.eqb_neq _ _) Hne), Hfixed.
    eexists. split; [reflexivity|]. split; [|split; [reflexivity|]].
    + rewrite get_Size_run. cbn.
      unfold DefaultVectorTraits.GetSize, DefaultVectorTraits.size.
      rewrite appended_length, N2Nat.id, to_unsigned_small by done. reflexivity.
    + intros k Hk. apply GetAt_stored. cbn.
      rewrite appended_lookup by lia. rewrite N2Nat.id. reflexivity.
Qed.

(** C8: [IndexOf] scans from index 0 with the strategy's [Equals]: when the
    element at [j] is the first that equals the value it answers
    [index = j, found = true]; when none of the elements equals it, and so on
    every empty collection, it answers [index = 0, found = false]. *)
Theorem IndexOf_finds_first v value (index0 : unsigned) (found0 : boolean) :
  let l := Vector.mVector v in
  let size := DefaultVectorTraits.GetSize l in
  (forall (j : nat) element,
      N.of_nat j < size ->
      l !! j = Some element -> Equals element value = Returned true ->
      (forall (k : nat) e, (k < j)%nat -> l !! k = Some e ->
                           Equals e value = Returned false) ->
      Vector.IndexOf value (v, (Some index0, Some found0))
      = (S_OK, (v, (Some (N.of_nat j), Some true)))) /\
  ((forall (k : nat) e, N.of_nat k < size -> l !! k = Some e ->
                        Equals e value = Returned false) ->
   Vector.IndexOf value (v, (Some index0, Some found0))
   = (S_OK, (v, (Some 0, Some false)))) /\
  (l = [] ->
   Vector.IndexOf value (v, (Some index0, Some found0))
   = (S_OK, (v, (Some 0, Some false)))).
Proof.
  intros l size. rewrite IndexOf_run. fold l. fold size.
  pose proof (to_unsigned_lt (DefaultVectorTraits.size l)) as Hlt.
  pose proof (to_unsigned_le (DefaultVectorTraits.size l)) as Hle.
  fold (DefaultVectorTraits.GetSize l) in Hlt, Hle. fold size in Hlt, Hle.
  unfold DefaultVectorTraits.size in Hle.
  split; [|split].
  - intros j element Hj Hel Heq Hbefore.
    rewrite (scan_first l value _ 0 j element); try done; try lia.
    intros k e Hk. apply Hbefore. lia.
  - intros Hnone. rewrite scan_absent; try done; try lia.
    intros k e Hk. apply Hnone. lia.
  - intros Hnil. subst size. rewrite Hnil. reflexivity.
Qed.

(** The methods of a fixed-size collection: [InsertAt], [RemoveAt],
    [Append], [RemoveAtEnd] and [Clear] fail with [E_NOTIMPL] and leave the
    object as it was; [SetAt] at an index below the size and [ReplaceAll]
    with [count] equal to the size succeed and keep the element count. *)
Lemma fixed_size_methods v :
  Vector.isFixedSize v = true ->
  (forall index item, Vector.InsertAt index item (v, tt) = (E_NOTIMPL, (v, tt))) /\
  (forall index, Vector.RemoveAt index (v, tt) = (E_NOTIMPL, (v, tt))) /\
  (forall item, Vector.Append item (v, tt) = (E_NOTIMPL, (v, tt))) /\
  Vector.RemoveAtEnd (v, tt) = (E_NOTIMPL, (v, tt)) /\
  Vector.Clear (v, tt) = (E_NOTIMPL, (v, tt)) /\
  (forall index item,
      index < DefaultVectorTraits.size (Vector.mVector v) ->
      exists v', Vector.SetAt index item (v, tt) = (S_OK, (v', tt)) /\
                 Vector.isFixedSize v' = true /\
                 length (Vector.mVector v') = length (Vector.mVector v)) /\
  (forall elements,
      exists v',
        Vector.ReplaceAll (DefaultVectorTraits.GetSize (Vector.mVector v))
          (Some elements) (v, tt) = (S_OK, (v', tt)) /\
        Vector.isFixedSize v' = true /\
        length (Vector.mVector v') = length (Vector.mVector v)).
Proof.
  intros Hfixed. repeat split.
  - intros. rewrite InsertAt_run, Hfixed. reflexivity.
  - intros. rewrite RemoveAt_run, Hfixed. reflexivity.
  - intros. rewrite Append_run, Hfixed. reflexivity.
  - rewrite RemoveAtEnd_run, Hfixed. reflexivity.
  - rewrite Clear_run, Hfixed. reflexivity.
  - intros index item Hindex. rewrite SetAt_run.
    rewrite (proj2 (N.leb_gt _ _) Hindex). eexists. split; [reflexivity|].
    cbn. rewrite length_insert. done.
  - intros elements. rewrite ReplaceAll_run, N.eqb_refl.
    eexists. split; [reflexivity|]. cbn. rewrite overwritten_length. done.
Qed.
End VectorProperties2.

(** ** The exception boundary *)

Section Boundary.
Context {T ElementType : Type} `{!AbiType T} `{!ElementTraits T ElementType}.

Implicit Types (v : Vector.t ElementType) (it : VectorIterator.t)
  (index count : unsigned) (item value : T) (elements : unsigned -> T) (e : exn).

End Boundary.

(** ** Calls on the store *)

Section WorldLemmas.
Context {T ElementType : Type} `{!AbiType T} `{!ElementTraits T ElementType}.

Implicit Types (w : World.t ElementType) (v : Vector.t ElementType)
  (c : Call T ElementType) (it : VectorIterator.t).

Lemma on_vector_Some {O} (this : handle) method (outs : O) w r :
  World.on_vector this method outs w = Some r ->
  exists v, World.vectors w !! this = Some v /\
    r = (fst (method (v, outs)), snd (snd (method (v, outs))),
         World.set_vector this (fst (snd (method (v, outs)))) w).
Proof.
  unfold World.on_vector. destruct (World.vectors w !! this) as [v|]; [|done].
  destruct (method (v, outs)) as [hr [v' outs']] eqn:E. intros [= <-].
  exists v. rewrite E. split; reflexivity.
Qed.

Lemma on_view_Some {O} (this : handle) method (outs : O) w r :
  World.on_view this method outs w = Some r ->
  exists view, World.views w !! this = Some view /\
    World.on_vector (VectorView.mVector view) method outs w = Some r.
Proof.
  unfold World.on_view. destruct (World.views w !! this) as [view|]; [|done].
  eauto.
Qed.

Lemma on_iterator_Some {O} (this : handle) method (outs : O) w r :
  World.on_iterator this method outs w = Some r ->
  exists it v,
    World.iterators w !! this = Some it /\
    World.vectors w !! VectorIterator.mVector it = Some v /\
    r = (fst (method ((v, it), outs)), snd (snd (method ((v, it), outs))),
         World.set_iterators
           (<[this := snd (fst (snd (method ((v, it), outs))))]> (World.iterators w))
           (World.set_vector (VectorIterator.mVector it)
              (fst (fst (snd (method ((v, it), outs))))) w)).
Proof.
  unfold World.on_iterator.
  destruct (World.iterators w !! this) as [it|]; [|done].
  destruct (World.vectors w !! VectorIterator.mVector it) as [v|] eqn:Hv; [|done].
  destruct (method ((v, it), outs)) as [hr [[v' it'] outs']] eqn:E. intros [= <-].
  exists it, v. rewrite E. repeat split; done.
Qed.

Lemma GetView_Some (this : handle) alloc_ok view w r :
  World.GetView this alloc_ok view w = Some r ->
  exists v views',
    World.vectors w !! this = Some v /\
    snd r = World.set_views views' (World.set_vector this v w).
Proof.
  unfold World.GetView. destruct (World.vectors w !! this) as [v|]; [|done].
  rewrite GetView_run. destruct view, alloc_ok; intros [= <-]; eauto.
Qed.

Lemma First_Some (this : handle) alloc_ok first w r :
  World.First this alloc_ok first w = Some r ->
  exists v,
    World.vectors w !! this = Some v /\
    (snd r = World.set_iterators (World.iterators w) (World.set_vector this v w) \/
     snd r = World.set_iterators
               (<[fresh (dom (World.iterators w)) := VectorIterator.new this]>
                  (World.iterators w))
               (World.set_vector this v w)).
Proof.
  unfold World.First. destruct (World.vectors w !! this) as [v|]; [|done].
  rewrite First_run. destruct first, alloc_ok; intros [= <-]; eauto.
Qed.

Lemma View_First_Some (this : handle) alloc_ok first w r :
  World.View_First this alloc_ok first w = Some r ->
  exists view, World.views w !! this = Some view /\
    World.First (VectorView.mVector view) alloc_ok first w = Some r.
Proof.
  unfold World.View_First, World.First, IVectorView.First.
  destruct (World.views w !! this) as [view|]; [|done]. eauto.
Qed.

Lemma fresh_handle_unused {A} (m : gmap handle A) : m !! fresh (dom m) = None.
Proof. apply not_elem_of_dom. apply is_fresh. Qed.
End WorldLemmas.

(** ** What each method does to the element count *)

Section MethodEffects.
Context {T ElementType : Type} `{!AbiType T} `{!ElementTraits T ElementType}.

Implicit Types (v : Vector.t ElementType) (index count : unsigned) (item value : T).

Lemma keeps_count_refl v : keeps_count v v.
Proof. split; done. Qed.

Lemma get_Size_same v o : fst (snd (Vector.get_Size (v, o))) = v.
Proof. rewrite get_Size_run. destruct o; reflexivity. Qed.

Lemma GetAt_same v index o : fst (snd (Vector.GetAt index (v, o))) = v.
Proof. rewrite GetAt_run. repeat case_match; reflexivity. Qed.

Lemma IndexOf_same v value o : fst (snd (Vector.IndexOf value (v, o))) = v.
Proof. destruct o. rewrite IndexOf_run. repeat case_match; reflexivity. Qed.

Lemma SetAt_effect v index item o :
  keeps_count v (fst (snd (Vector.SetAt index item (v, o)))) /\
  DefaultVectorTraits.size (Vector.mVector v)
  <= DefaultVectorTraits.size (Vector.mVector (fst (snd (Vector.SetAt index item (v, o))))).
Proof.
  destruct o. rewrite SetAt_run. case_match; cbn; [split; [apply keeps_count_refl|lia]|].
  unfold keeps_count, DefaultVectorTraits.size. cbn. rewrite length_insert.
  repeat split; lia.
Qed.

Lemma InsertAt_effect v index item o :
  keeps_count v (fst (snd (Vector.InsertAt index item (v, o)))) /\
  DefaultVectorTraits.size (Vector.mVector v)
  <= DefaultVectorTraits.size
       (Vector.mVector (fst (snd (Vector.InsertAt index item (v, o))))).
Proof.
  destruct o. rewrite InsertAt_run.
  destruct (Vector.isFixedSize v) eqn:Hfixed; cbn;
    [split; [apply keeps_count_refl|lia]|].
  case_match; cbn; [split; [apply keeps_count_refl|lia]|].
  unfold keeps_count, DefaultVectorTraits.size. cbn. rewrite Hfixed.
  repeat split; [done|].
  rewrite length_app. cbn. rewrite length_take, length_drop. lia.
Qed.

Lemma Append_effect v item o :
  keeps_count v (fst (snd (Vector.Append item (v, o)))) /\
  DefaultVectorTraits.size (Vector.mVector v)
  <= DefaultVectorTraits.size (Vector.mVector (fst (snd (Vector.Append item (v, o))))).
Proof.
  destruct o. rewrite Append_run.
  destruct (Vector.isFixedSize v) eqn:Hfixed; cbn;
    [split; [apply keeps_count_refl|lia]|].
  unfold keeps_count, DefaultVectorTraits.size. cbn. rewrite Hfixed.
  repeat split; [done|]. rewrite length_app. lia.
Qed.

Lemma RemoveAt_effect v index o :
  keeps_count v (fst (snd (Vector.RemoveAt index (v, o)))).
Proof.
  destruct o. rewrite RemoveAt_run.
  destruct (Vector.isFixedSize v) eqn:Hfixed; cbn; [apply keeps_count_refl|].
  case_match; cbn; [apply keeps_count_refl|].
  unfold keeps_count. cbn. rewrite Hfixed. done.
Qed.

Lemma RemoveAtEnd_effect v o :
  keeps_count v (fst (snd (Vector.RemoveAtEnd (v, o)))).
Proof.
  destruct o. rewrite RemoveAtEnd_run.
  destruct (Vector.isFixedSize v) eqn:Hfixed; cbn; [apply keeps_count_refl|].
  apply RemoveAt_effect.
Qed.

Lemma Clear_effect v o : keeps_count v (fst (snd (Vector.Clear (v, o)))).
Proof.
  destruct o. rewrite Clear_run.
  destruct (Vector.isFixedSize v) eqn:Hfixed; cbn; [apply keeps_count_refl|].
  unfold keeps_count. cbn. rewrite Hfixed. done.
Qed.

Lemma ReplaceAll_effect v count (value : Vector.array) o :
  keeps_count v (fst (snd (Vector.ReplaceAll count value (v, o)))).
Proof.
  destruct o. rewrite ReplaceAll_run.
  destruct value as [elements|]; cbn; [|apply keeps_count_refl].
  case_match; cbn.
  - unfold keeps_count. cbn. rewrite overwritten_length. done.
  - destruct (Vector.isFixedSize v) eqn:Hfixed; cbn; [apply keeps_count_refl|].
    unfold keeps_count. cbn. rewrite Hfixed. done.
Qed.

Lemma MoveNext_effect v (it : VectorIterator.t) o :
  let r := snd (IIterator.MoveNext ((v, it), o)) in
  fst (fst r) = v /\
  (snd (fst r) = it \/
   VectorIterator.mVector (snd (fst r)) = VectorIterator.mVector it /\
   VectorIterator.mPosition (snd (fst r))
   <= DefaultVectorTraits.size (Vector.mVector v)).
Proof.
  cbn zeta. rewrite MoveNext_run. destruct o as [b|]; [|cbn; tauto].
  destruct (_ <=? _) eqn:E; cbn; [tauto|].
  apply N.leb_gt in E. split; [done|]. right. split; [done|].
  pose proof (to_unsigned_le (DefaultVectorTraits.size (Vector.mVector v))) as Hle.
  pose proof (to_unsigned_lt (DefaultVectorTraits.size (Vector.mVector v))) as Hlt.
  fold (DefaultVectorTraits.GetSize (Vector.mVector v)) in Hle, Hlt.
  rewrite unsigned_add_small by lia. lia.
Qed.

Lemma get_HasCurrent_same v (it : VectorIterator.t) o :
  fst (snd (IIterator.get_HasCurrent ((v, it), o))) = (v, it).
Proof. rewrite get_HasCurrent_run. destruct o; reflexivity. Qed.

Lemma get_Current_same v (it : VectorIterator.t) o :
  fst (snd (IIterator.get_Current ((v, it), o))) = (v, it).
Proof.
  rewrite get_Current_run.
  pose proof (GetAt_same v (VectorIterator.mPosition it) o) as H.
  destruct (Vector.GetAt _ _) as [hr [v' o']]. cbn in *. congruence.
Qed.
End MethodEffects.

(** ** One call on the store *)

Section Step.
Context {T ElementType : Type} `{!AbiType T} `{!ElementTraits T ElementType}.

Implicit Types (w : World.t ElementType) (v : Vector.t ElementType)
  (c : Call T ElementType) (it : VectorIterator.t).

Lemma set_vector_step (this : handle) v v' w removing :
  World.vectors w !! this = Some v ->
  keeps_count v v' ->
  (removing = false ->
   DefaultVectorTraits.size (Vector.mVector v)
   <= DefaultVectorTraits.size (Vector.mVector v')) ->
  vectors_step (Some this) removing w (World.set_vector this v' w).
Proof.
  intros Hv Hkeeps Hgrows h v0 Hv0. cbn.
  destruct (decide (h = this)) as [->|Hne].
  - rewrite lookup_insert_eq. assert (v0 = v) as -> by congruence.
    exists v'. repeat split; try apply Hkeeps; try done.
  - rewrite lookup_insert_ne by done. exists v0.
    repeat split; try done; lia.
Qed.

Lemma vectors_step_views recv removing w w' views' :
  vectors_step recv removing w w' ->
  vectors_step recv removing w (World.set_views views' w').
Proof. intros H h v Hv. apply (H h v Hv). Qed.

Lemma vectors_step_iterators recv removing w w' iterators' :
  vectors_step recv removing w w' ->
  vectors_step recv removing w (World.set_iterators iterators' w').
Proof. intros H h v Hv. apply (H h v Hv). Qed.

Lemma iterators_step_same w w' :
  World.iterators w' = World.iterators w -> iterators_step w w'.
Proof. intros Heq h it' Hit. left. congruence. Qed.

Lemma on_vector_step {O} (this : handle) method (outs : O) w w' removing :
  world_of (World.on_vector this method outs w) = Some w' ->
  (forall v, keeps_count v (fst (snd (method (v, outs))))) ->
  (removing = false ->
   forall v, DefaultVectorTraits.size (Vector.mVector v)
             <= DefaultVectorTraits.size
                  (Vector.mVector (fst (snd (method (v, outs)))))) ->
  vectors_step (Some this) removing w w' /\ iterators_step w w'.
Proof.
  intros Hcall Hkeeps Hgrows.
  destruct (World.on_vector this method outs w) as [[[hr outs'] w'']|] eqn:E;
    [|done].
  cbn in Hcall. injection Hcall as ->.
  apply on_vector_Some in E as (v & Hv & [= _ _ ->]).
  split.
  - apply (set_vector_step this v); auto.
  - apply iterators_step_same. reflexivity.
Qed.

Lemma on_view_step {O} (this : handle) method (outs : O) w w' removing :
  world_of (World.on_view this method outs w) = Some w' ->
  (forall v, keeps_count v (fst (snd (method (v, outs))))) ->
  (removing = false ->
   forall v, DefaultVectorTraits.size (Vector.mVector v)
             <= DefaultVectorTraits.size
                  (Vector.mVector (fst (snd (method (v, outs)))))) ->
  vectors_step
    (match World.views w !! this with
     | Some view => Some (VectorView.mVector view)
     | None => None
     end) removing w w' /\ iterators_step w w'.
Proof.
  intros Hcall Hkeeps Hgrows.
  destruct (World.on_view this method outs w) as [r|] eqn:E; [|done].
  apply on_view_Some in E as (view & Hview & E). rewrite Hview.
  apply (on_vector_step _ method outs); [rewrite E|..]; done.
Qed.

Lemma First_step (this : handle) alloc_ok first w w' :
  world_of (World.First this alloc_ok first w) = Some w' ->
  vectors_step (Some this) false w w' /\ iterators_step w w'.
Proof.
  intros Hcall.
  destruct (World.First this alloc_ok first w) as [[[hr outs'] w'']|] eqn:E;
    [|done].
  cbn in Hcall. injection Hcall as ->.
  apply First_Some in E as (v & Hv & [E|E]); cbn in E; subst w'.
  - split; [|apply iterators_step_same; reflexivity].
    apply vectors_step_iterators, (set_vector_step this v);
      [done|apply keeps_count_refl|lia].
  - split.
    + apply vectors_step_iterators, (set_vector_step this v);
        [done|apply keeps_count_refl|lia].
    + intros h it' Hit. cbn in Hit.
      destruct (decide (h = fresh (dom (World.iterators w)))) as [->|Hne].
      * rewrite lookup_insert_eq in Hit. injection Hit as <-.
        right. exists v. cbn. split; [done|lia].
      * rewrite lookup_insert_ne in Hit by done. left. done.
Qed.

Lemma on_iterator_step {O} (this : handle) method (outs : O) w w' :
  world_of (World.on_iterator this method outs w) = Some w' ->
  (forall v it,
      let r := snd (method ((v, it), outs)) in
      fst (fst r) = v /\
      (snd (fst r) = it \/
       VectorIterator.mVector (snd (fst r)) = VectorIterator.mVector it /\
       VectorIterator.mPosition (snd (fst r))
       <= DefaultVectorTraits.size (Vector.mVector v))) ->
  vectors_step
    (match World.iterators w !! this with
     | Some iterator => Some (VectorIterator.mVector iterator)
     | None => None
     end) false w w' /\ iterators_step w w'.
Proof.
  intros Hcall Hmethod.
  destruct (World.on_iterator this method outs w) as [[[hr outs'] w'']|] eqn:E;
    [|done].
  cbn in Hcall. injection Hcall as ->.
  apply on_iterator_Some in E as (it & v & Hit & Hv & [= _ _ ->]).
  rewrite Hit. destruct (Hmethod v it) as [Hsame Hpos]. cbn zeta in *.
  split.
  - apply vectors_step_iterators. rewrite Hsame.
    apply (set_vector_step _ v); [done|apply keeps_count_refl|lia].
  - intros h it' Hit'. cbn in Hit'.
    destruct (decide (h = this)) as [->|Hne].
    + rewrite lookup_insert_eq in Hit'. injection Hit' as <-.
      destruct Hpos as [->|[Hvec Hpos]]; [left; done|].
      right. exists v. rewrite Hvec. done.
    + rewrite lookup_insert_ne in Hit' by done. left. done.
Qed.

(** What a call leaves of the vectors and of the iterators. *)
Lemma invoke_step c w w' :
  invoke c w = Some w' ->
  vectors_step (receiver c w) (may_shrink c) w w' /\ iterators_step w w'.
Proof.
  destruct c; cbn [invoke receiver may_shrink]; intros Hcall.
  - (* New_Vector *)
    injection Hcall as <-. split; [|apply iterators_step_same; reflexivity].
    intros h v Hv. cbn.
    rewrite lookup_insert_ne
      by (intros <-; rewrite fresh_handle_unused in Hv; done).
    exists v. repeat split; try done; lia.
  - apply (on_vector_step _ _ _ _ _ _ Hcall); intros; rewrite get_Size_same;
      [apply keeps_count_refl|lia].
  - apply (on_vector_step _ _ _ _ _ _ Hcall); intros; rewrite GetAt_same;
      [apply keeps_count_refl|lia].
  - apply (on_vector_step _ _ _ _ _ _ Hcall); intros; rewrite IndexOf_same;
      [apply keeps_count_refl|lia].
  - apply (on_vector_step _ _ _ _ _ _ Hcall); intros; apply SetAt_effect.
  - apply (on_vector_step _ _ _ _ _ _ Hcall); intros; apply InsertAt_effect.
  - apply (on_vector_step _ _ _ _ _ _ Hcall); [intros; apply RemoveAt_effect|done].
  - apply (on_vector_step _ _ _ _ _ _ Hcall); intros; apply Append_effect.
  - apply (on_vector_step _ _ _ _ _ _ Hcall); [intros; apply RemoveAtEnd_effect|done].
  - apply (on_vector_step _ _ _ _ _ _ Hcall); [intros; apply Clear_effect|done].
  - apply (on_vector_step _ _ _ _ _ _ Hcall); [intros; apply ReplaceAll_effect|done].
  - (* GetView *)
    destruct (World.GetView this alloc_ok view w) as [[[hr outs'] w'']|] eqn:E;
      [|done].
    cbn in Hcall. injection Hcall as ->.
    apply GetView_Some in E as (v & views' & Hv & E). cbn in E. subst w'.
    split; [|apply iterators_step_same; reflexivity].
    apply vectors_step_views, (set_vector_step this v);
      [done|apply keeps_count_refl|lia].
  - apply (First_step _ _ _ _ _ Hcall).
  - apply (on_view_step _ _ _ _ _ _ Hcall); intros;
      unfold IVectorView.get_Size; rewrite get_Size_same;
      [apply keeps_count_refl|lia].
  - apply (on_view_step _ _ _ _ _ _ Hcall); intros;
      unfold IVectorView.GetAt; rewrite GetAt_same;
      [apply keeps_count_refl|lia].
  - apply (on_view_step _ _ _ _ _ _ Hcall); intros;
      unfold IVectorView.IndexOf; rewrite IndexOf_same;
      [apply keeps_count_refl|lia].
  - (* View_First *)
    destruct (World.View_First this alloc_ok first w) as [r|] eqn:E; [|done].
    apply View_First_Some in E as (view & Hview & E). rewrite Hview.
    apply (First_step _ alloc_ok first). rewrite E. done.
  - apply (on_iterator_step _ _ _ _ _ Hcall). intros v it r. subst r.
    rewrite get_Current_same. cbn. tauto.
  - apply (on_iterator_step _ _ _ _ _ Hcall). intros v it r. subst r.
    rewrite get_HasCurrent_same. cbn. tauto.
  - apply (on_iterator_step _ _ _ _ _ Hcall). intros v it.
    apply MoveNext_effect.
Qed.
End Step.

(** ** Properties over the store *)

Section WorldProperties.
Context {T ElementType : Type} `{!AbiType T} `{!ElementTraits T ElementType}.

Implicit Types (w : World.t ElementType) (v : Vector.t ElementType)
  (c : Call T ElementType) (it : VectorIterator.t).

Lemma fixed_size_kept_by_run (calls : list (Call T ElementType)) :
  forall w w' (h : handle) v,
    World.vectors w !! h = Some v ->
    Vector.isFixedSize v = true ->
    run calls w = Some w' ->
    exists v', World.vectors w' !! h = Some v' /\
               Vector.isFixedSize v' = true /\
               length (Vector.mVector v') = length (Vector.mVector v).
Proof.
  induction calls as [|c calls IH]; intros w w' h v Hv Hfixed Hrun; cbn in Hrun.
  - injection Hrun as <-. eauto.
  - destruct (invoke c w) as [w1|] eqn:Hcall; [|done].
    destruct (invoke_step c w w1 Hcall) as [Hvec _].
    destruct (Hvec h v Hv) as (v1 & Hv1 & [Hfixed1 Hlen1] & _).
    destruct (IH w1 w' h v1 Hv1) as (v' & Hv' & Hfixed' & Hlen'); try done.
    { congruence. }
    exists v'. repeat split; try done. rewrite Hlen'. auto.
Qed.

(** C1: On a collection constructed with [isFixedSize = true], [InsertAt],
    [RemoveAt], [Append], [RemoveAtEnd] and [Clear] fail with [E_NOTIMPL]
    and leave the object unchanged, [SetAt] at a valid index and
    [ReplaceAll] with [count] equal to the size succeed, and whatever calls
    are made on the store afterwards the collection stays fixed-size with
    the same number of elements. *)
Theorem fixed_size_never_resizes v :
  Vector.isFixedSize v = true ->
  ((forall index item, Vector.InsertAt index item (v, tt) = (E_NOTIMPL, (v, tt))) /\
   (forall index, Vector.RemoveAt index (v, tt) = (E_NOTIMPL, (v, tt))) /\
   (forall item, Vector.Append item (v, tt) = (E_NOTIMPL, (v, tt))) /\
   Vector.RemoveAtEnd (v, tt) = (E_NOTIMPL, (v, tt)) /\
   Vector.Clear (v, tt) = (E_NOTIMPL, (v, tt)) /\
   (forall index item,
       index < DefaultVectorTraits.size (Vector.mVector v) ->
       exists v', Vector.SetAt index item (v, tt) = (S_OK, (v', tt)) /\
                  Vector.isFixedSize v' = true /\
                  length (Vector.mVector v') = length (Vector.mVector v)) /\
   (forall elements,
       exists v',
         Vector.ReplaceAll (DefaultVectorTraits.GetSize (Vector.mVector v))
           (Some elements) (v, tt) = (S_OK, (v', tt)) /\
         Vector.isFixedSize v' = true /\
         length (Vector.mVector v') = length (Vector.mVector v))) /\
  (forall (calls : list (Call T ElementType)) w w' (h : handle),
      World.vectors w !! h = Some v ->
      run calls w = Some w' ->
      exists v', World.vectors w' !! h = Some v' /\
                 Vector.isFixedSize v' = true /\
                 length (Vector.mVector v') = length (Vector.mVector v)).
Proof.
  intros Hfixed. split.
  - apply fixed_size_methods, Hfixed.
  - intros calls w w' h Hv Hrun. apply (fixed_size_kept_by_run calls w w' h v); done.
Qed.

Lemma set_same w (this : handle) it v :
  World.iterators w !! this = Some it ->
  World.vectors w !! VectorIterator.mVector it = Some v ->
  World.set_iterators (<[this := it]> (World.iterators w))
    (World.set_vector (VectorIterator.mVector it) v w) = w.
Proof.
  intros Hit Hv. destruct w as [vs views its]. cbn in *.
  unfold World.set_iterators, World.set_vector. cbn.
  rewrite !insert_id by done. reflexivity.
Qed.

(** C5: [get_HasCurrent] answers [mPosition < size] and [MoveNext] fails
    with [E_BOUNDS] when [mPosition >= size], and otherwise adds exactly one
    to [mPosition] and answers what [get_HasCurrent] then answers; [size] is
    the size the wrapped vector has in the store when the call is made. *)
Theorem iterator_follows_live_size w (this : handle) it v (cell : boolean) :
  World.iterators w !! this = Some it ->
  World.vectors w !! VectorIterator.mVector it = Some v ->
  let size := DefaultVectorTraits.GetSize (Vector.mVector v) in
  let position := VectorIterator.mPosition it in
  World.on_iterator this IIterator.get_HasCurrent (Some cell) w
  = Some (S_OK, Some (position <? size), w) /\
  (size <= position ->
   World.on_iterator this IIterator.MoveNext (Some cell) w
   = Some (E_BOUNDS, Some cell, w)) /\
  (position < size ->
   exists w',
     World.on_iterator this IIterator.MoveNext (Some cell) w
     = Some (S_OK, Some (position + 1 <? size), w') /\
     World.iterators w' !! this
     = Some {| VectorIterator.mVector := VectorIterator.mVector it;
               VectorIterator.mPosition := position + 1 |} /\
     World.vectors w' = World.vectors w /\
     World.on_iterator this IIterator.get_HasCurrent (Some cell) w'
     = Some (S_OK, Some (position + 1 <? size), w')).
Proof.
  intros Hit Hv size position.
  assert (Hget : forall w0 it0,
             World.iterators w0 !! this = Some it0 ->
             World.vectors w0 !! VectorIterator.mVector it0 = Some v ->
             World.on_iterator this IIterator.get_HasCurrent (Some cell) w0
             = Some (S_OK, Some (VectorIterator.mPosition it0 <? size), w0)).
  { intros w0 it0 Hit0 Hv0. unfold World.on_iterator.
    rewrite Hit0, Hv0, get_HasCurrent_run, set_same by done. reflexivity. }
  split; [apply Hget; done|]. split.
  - intros Hend. unfold World.on_iterator.
    rewrite Hit, Hv, MoveNext_run. fold size position.
    rewrite (proj2 (N.leb_le _ _) Hend), set_same by done. reflexivity.
  - intros Hmore.
    pose proof (to_unsigned_lt (DefaultVectorTraits.size (Vector.mVector v))) as Hlt.
    fold (DefaultVectorTraits.GetSize (Vector.mVector v)) in Hlt. fold size in Hlt.
    set (it' := {| VectorIterator.mVector := VectorIterator.mVector it;
                   VectorIterator.mPosition := position + 1 |}).
    assert (Hadv : advanced it = it').
    { unfold advanced, it'. fold position. rewrite unsigned_add_small by lia. done. }
    exists (World.set_iterators (<[this := it']> (World.iterators w))
              (World.set_vector (VectorIterator.mVector it) v w)).
    split; [|split; [|split]].
    + unfold World.on_iterator.
      rewrite Hit, Hv, MoveNext_run. fold size position.
      rewrite (proj2 (N.leb_gt _ _) Hmore), Hadv.
      rewrite unsigned_add_small by lia. reflexivity.
    + cbn. apply lookup_insert_eq.
    + cbn. apply insert_id, Hv.
    + rewrite (Hget _ it'); cbn.
      * reflexivity.
      * apply lookup_insert_eq.
      * rewrite insert_id; done.
Qed.

Lemma size_kept c w w' (h : handle) v v' :
  invoke c w = Some w' ->
  shrinks c w = false ->
  World.vectors w !! h = Some v ->
  World.vectors w' !! h = Some v' ->
  (receiver c w <> Some h -> v' = v) ->
  DefaultVectorTraits.size (Vector.mVector v)
  <= DefaultVectorTraits.size (Vector.mVector v').
Proof.
  intros Hcall Hshrinks Hv Hv' Hsame.
  destruct (decide (receiver c w = Some h)) as [Hrecv|Hother].
  - unfold shrinks in Hshrinks. rewrite Hrecv, Hcall in Hshrinks.
    apply N.ltb_ge in Hshrinks. unfold size_at in Hshrinks.
    rewrite Hv, Hv' in Hshrinks. done.
  - rewrite (Hsame Hother). lia.
Qed.

Lemma cursor_inv_step c w w' :
  cursor_inv w -> invoke c w = Some w' -> shrinks c w = false -> cursor_inv w'.
Proof.
  intros Hinv Hcall Hshrinks.
  destruct (invoke_step c w w' Hcall) as [Hvec Hits].
  intros h it' Hit'.
  assert (exists v, World.vectors w !! VectorIterator.mVector it' = Some v /\
                    VectorIterator.mPosition it'
                    <= DefaultVectorTraits.size (Vector.mVector v))
    as (v & Hv & Hpos).
  { destruct (Hits h it' Hit') as [Hold|Hnew]; [apply (Hinv h it' Hold)|done]. }
  destruct (Hvec _ v Hv) as (v' & Hv' & _ & Hsame & _).
  exists v'. split; [done|].
  pose proof (size_kept c w w' _ v v' Hcall Hshrinks Hv Hv' Hsame). lia.
Qed.

Lemma cursor_inv_empty : cursor_inv (World_empty (ElementType := ElementType)).
Proof. intros h it Hit. cbn in Hit. rewrite lookup_empty in Hit. done. Qed.

Lemma cursor_inv_run (calls : list (Call T ElementType)) :
  forall w,
    cursor_inv w -> never_shrinking calls w = true ->
    match run calls w with Some w' => cursor_inv w' | None => True end.
Proof.
  induction calls as [|c calls IH]; intros w Hinv Hnever; cbn in *; [done|].
  apply andb_true_iff in Hnever as [Hc Hrest]. apply negb_true_iff in Hc.
  destruct (invoke c w) as [w1|] eqn:Hcall; [|done].
  apply IH; [|done]. apply (cursor_inv_step c w w1); done.
Qed.

Lemma growing_calls_never_shrink c w : may_shrink c = false -> shrinks c w = false.
Proof.
  intros Hc. unfold shrinks.
  destruct (receiver c w) as [h|] eqn:Hrecv; [|done].
  destruct (invoke c w) as [w'|] eqn:Hcall; [|done].
  apply N.ltb_ge. unfold size_at.
  destruct (World.vectors w !! h) as [v|] eqn:Hv; [|apply N.le_0_l].
  destruct (invoke_step c w w' Hcall) as [Hvec _].
  destruct (Hvec h v Hv) as (v' & Hv' & _ & _ & Hgrows).
  rewrite Hv'. auto.
Qed.

(** C9, amended: an iterator is made at position 0, and the cursor
    invariant [0 <= mPosition <= size] is kept by every call that does not
    leave its collection with fewer elements: every iterator and view call
    and every collection call except [RemoveAt], [RemoveAtEnd], [Clear]
    and [ReplaceAll]. So it holds in every store reached from the empty one
    by calls none of which shrinks a collection. *)
Theorem cursor_invariant_kept_unless_shrunk :
  (forall (this : handle), VectorIterator.mPosition (VectorIterator.new this) = 0) /\
  (forall c w w',
      cursor_inv w -> invoke c w = Some w' -> shrinks c w = false ->
      cursor_inv w') /\
  (forall c w, may_shrink c = false -> shrinks c w = false) /\
  (forall calls : list (Call T ElementType),
      never_shrinking calls World_empty = true ->
      match run calls World_empty with
      | Some w => cursor_inv w
      | None => True
      end).
Proof.
  split; [reflexivity|]. split; [apply cursor_inv_step|].
  split; [apply growing_calls_never_shrink|].
  intros calls Hnever. apply cursor_inv_run; [apply cursor_inv_empty|done].
Qed.
End WorldProperties.

(** ** Output parameters on failure *)

Section Outputs.
Context {T ElementType : Type} `{!AbiType T} `{!ElementTraits T ElementType}.

Implicit Types (v : Vector.t ElementType) (it : VectorIterator.t).

(** C3, amended: [GetAt] (and the iterator's [get_Current]), [GetView] and
    [First], given a non-null output pointer, and [IndexOf], given two, clear
    their outputs before any statement that can fail: whenever they fail the
    caller's cells hold the cleared values (zero, null, [index = 0] and
    [found = false]). [get_Size] and [get_HasCurrent] fail only on a null
    output pointer, with [E_INVALIDARG]. [IndexOf] with a null [found] fails
    with [E_INVALIDARG] before it clears anything and leaves [*index] as it
    was. *)
Theorem outputs_cleared_before_failure v it :
  (forall index cell,
      let r := Vector.GetAt index (v, Some cell) in
      fst r <> S_OK -> snd (snd r) = Some zero_memory) /\
  (forall cell,
      let r := IIterator.get_Current ((v, it), Some cell) in
      fst r <> S_OK -> snd (snd r) = Some zero_memory) /\
  (forall value index found,
      let r := Vector.IndexOf value (v, (Some index, Some found)) in
      fst r <> S_OK -> snd (snd r) = (Some 0, Some false)) /\
  (forall this alloc_ok views cell,
      let r := Vector.GetView this alloc_ok ((v, views), Some cell) in
      fst r <> S_OK -> snd (snd r) = Some None) /\
  (forall this alloc_ok iterators cell,
      let r := Vector.First this alloc_ok ((v, iterators), Some cell) in
      fst r <> S_OK -> snd (snd r) = Some None) /\
  (forall size,
      fst (Vector.get_Size (v, size)) <> S_OK ->
      Vector.get_Size (v, size) = (E_INVALIDARG, (v, None))) /\
  (forall hasCurrent,
      fst (IIterator.get_HasCurrent ((v, it), hasCurrent)) <> S_OK ->
      IIterator.get_HasCurrent ((v, it), hasCurrent)
      = (E_INVALIDARG, ((v, it), None))) /\
  (forall value index,
      Vector.IndexOf value (v, (Some index, None))
      = (E_INVALIDARG, (v, (Some index, None)))).
Proof.
  repeat split.
  - intros index cell. cbn zeta. rewrite GetAt_run.
    repeat case_match; cbn; done.
  - intros cell. cbn zeta. rewrite get_Current_run, GetAt_run.
    destruct (_ <=? _); [cbn; done|].
    destruct (_ !! _); [|cbn; done].
    destruct (Unwrap _); cbn; done.
  - intros value index found. cbn zeta. rewrite IndexOf_run.
    repeat case_match; cbn; done.
  - intros this alloc_ok views cell. cbn zeta. rewrite GetView_run.
    destruct alloc_ok; cbn; done.
  - intros this alloc_ok iterators cell. cbn zeta. rewrite First_run.
    destruct alloc_ok; cbn; done.
  - intros size. rewrite get_Size_run. destruct size; cbn; done.
  - intros hasCurrent. rewrite get_HasCurrent_run. destruct hasCurrent; cbn; done.
Qed.

(** [MoveNext] past the end throws before it writes [*hasCurrent]. *)
Lemma MoveNext_failure_keeps_output v it (cell : boolean) :
  DefaultVectorTraits.GetSize (Vector.mVector v) <= VectorIterator.mPosition it ->
  IIterator.MoveNext ((v, it), Some cell) = (E_BOUNDS, ((v, it), Some cell)).
Proof.
  intros Hend. rewrite MoveNext_run, (proj2 (N.leb_le _ _) Hend). reflexivity.
Qed.
End Outputs.

(** C3 as stated fails: [IndexOf] with a valid [index] and a null [found]
    fails with [E_INVALIDARG] and the caller still reads the 5 it had in
    [*index]; [MoveNext] on an exhausted iterator fails with [E_BOUNDS] and the
    caller still reads the [true] it had in [*hasCurrent]. *)
Lemma stale_output_on_failure :
  Vector.IndexOf 7 (Examples.empty, (Some 5, None))
  = (E_INVALIDARG, (Examples.empty, (Some 5, None))) /\
  IIterator.MoveNext ((Examples.empty, VectorIterator.new 0%nat), Some true)
  = (E_BOUNDS, ((Examples.empty, VectorIterator.new 0%nat), Some true)).
Proof. split; vm_compute; reflexivity. Qed.

(** C9 as stated fails: after [First] and one [MoveNext] on a vector of three
    elements, [Clear] leaves the iterator at position 1 over a collection of
    size 0; after three [MoveNext], [RemoveAt(0)] leaves it at position 3 over
    a collection of size 2. *)
Lemma cursor_invariant_broken_by_Clear :
  (exists w,
      run Examples.iterate_then_Clear World_empty = Some w /\
      World.iterators w !! 0%nat = Some {| VectorIterator.mVector := 0%nat;
                                           VectorIterator.mPosition := 1 |} /\
      size_at 0%nat w = 0 /\
      ~ cursor_inv w) /\
  (exists w,
      run Examples.iterate_then_RemoveAt World_empty = Some w /\
      World.iterators w !! 0%nat = Some {| VectorIterator.mVector := 0%nat;
                                           VectorIterator.mPosition := 3 |} /\
      size_at 0%nat w = 2 /\
      ~ cursor_inv w).
Proof.
  split.
  - eexists. split; [vm_compute; reflexivity|].
    split; [vm_compute; reflexivity|]. split; [vm_compute; reflexivity|].
    intros Hinv.
    destruct (Hinv 0%nat {| VectorIterator.mVector := 0%nat;
                            VectorIterator.mPosition := 1 |})
      as (v & Hv & Hpos); [vm_compute; reflexivity|].
    vm_compute in Hv. injection Hv as <-. vm_compute in Hpos.
    apply Hpos. reflexivity.
  - eexists. split; [vm_compute; reflexivity|].
    split; [vm_compute; reflexivity|]. split; [vm_compute; reflexivity|].
    intros Hinv.
    destruct (Hinv 0%nat {| VectorIterator.mVector := 0%nat;
                            VectorIterator.mPosition := 3 |})
      as (v & Hv & Hpos); [vm_compute; reflexivity|].
    vm_compute in Hv. injection Hv as <-. vm_compute in Hpos.
    apply Hpos. reflexivity.
Qed.

(** ** The properties at work on the example store *)

Lemma fixed_size_never_resizes_witness :
  Vector.isFixedSize Examples.fixed = true /\
  Vector.Append 40 (Examples.fixed, tt) = (E_NOTIMPL, (Examples.fixed, tt)) /\
  Vector.Clear (Examples.fixed, tt) = (E_NOTIMPL, (Examples.fixed, tt)) /\
  1 < DefaultVectorTraits.size (Vector.mVector Examples.fixed) /\
  (exists v', Vector.SetAt 1 99 (Examples.fixed, tt) = (S_OK, (v', tt)) /\
              Vector.isFixedSize v' = true /\
              length (Vector.mVector v') = 3%nat) /\
  World.vectors Examples.fixed_store !! 0%nat = Some Examples.fixed /\
  (exists w' v',
      run Examples.resize_attempts Examples.fixed_store = Some w' /\
      World.vectors w' !! 0%nat = Some v' /\
      Vector.isFixedSize v' = true /\
      length (Vector.mVector v') = 3%nat).
Proof.
  destruct (fixed_size_never_resizes Examples.fixed eq_refl)
    as [(_ & _ & HAppend & _ & HClear & HSetAt & _) Hrun].
  split; [reflexivity|]. split; [apply HAppend|]. split; [apply HClear|].
  split; [vm_compute; reflexivity|].
  split; [apply (HSetAt 1 99); vm_compute; reflexivity|].
  split; [reflexivity|].
  destruct (run Examples.resize_attempts Examples.fixed_store) as [w'|] eqn:Hcalls;
    [|vm_compute in Hcalls; discriminate].
  destruct (Hrun Examples.resize_attempts Examples.fixed_store w' 0%nat
              eq_refl Hcalls) as (v' & Hv' & Hfixed & Hlen).
  exists w', v'. repeat split; assumption.
Defined.

Lemma RemoveAtEnd_empty_is_out_of_bounds_witness :
  (Vector.isFixedSize Examples.fixed = true /\
   Vector.RemoveAtEnd (Examples.fixed, tt) = (E_NOTIMPL, (Examples.fixed, tt))) /\
  (Vector.isFixedSize Examples.empty = false /\
   DefaultVectorTraits.size (Vector.mVector Examples.empty) = 0 /\
   Vector.RemoveAtEnd (Examples.empty, tt) = (E_BOUNDS, (Examples.empty, tt))).
Proof.
  split.
  - split; [reflexivity|].
    apply (proj1 (RemoveAtEnd_empty_is_out_of_bounds Examples.fixed) eq_refl).
  - split; [reflexivity|]. split; [reflexivity|].
    apply (proj2 (RemoveAtEnd_empty_is_out_of_bounds Examples.empty) eq_refl eq_refl).
Defined.

Lemma ReplaceAll_replaces_witness :
  3 < UINT_RANGE /\
  3 = DefaultVectorTraits.GetSize (Vector.mVector Examples.fixed) /\
  (exists v',
      Vector.ReplaceAll 3 (Some Examples.hundreds) (Examples.fixed, tt)
      = (S_OK, (v', tt)) /\
      length (Vector.mVector v') = 3%nat /\
      Vector.GetAt 2 (v', Some 0) = (S_OK, (v', Some 102))) /\
  2 < UINT_RANGE /\
  2 <> DefaultVectorTraits.GetSize (Vector.mVector Examples.resizable) /\
  Vector.isFixedSize Examples.resizable = false /\
  (exists v',
      Vector.ReplaceAll 2 (Some Examples.hundreds) (Examples.resizable, tt)
      = (S_OK, (v', tt)) /\
      Vector.get_Size (v', Some 0) = (S_OK, (v', Some 2)) /\
      Vector.GetAt 1 (v', Some 0) = (S_OK, (v', Some 101))).
Proof.
  assert (H3 : 3 < UINT_RANGE) by (vm_compute; reflexivity).
  assert (H2 : 2 < UINT_RANGE) by (vm_compute; reflexivity).
  assert (Hne : 2 <> DefaultVectorTraits.GetSize (Vector.mVector Examples.resizable))
    by (vm_compute; discriminate).
  split; [exact H3|]. split; [reflexivity|]. split.
  { destruct (proj1 (@ReplaceAll_replaces _ _ _ _ ElementTraits_T_laws
                       Examples.fixed 3 Examples.hundreds 0 0 H3) eq_refl)
      as (v' & Hrun & Hlen & _ & _ & _ & Hget).
    exists v'. split; [exact Hrun|]. split; [exact Hlen|].
    apply (Hget 2). vm_compute. reflexivity. }
  split; [exact H2|]. split; [exact Hne|]. split; [reflexivity|].
  destruct (proj2 (proj2 (@ReplaceAll_replaces _ _ _ _ ElementTraits_T_laws
                            Examples.resizable 2 Examples.hundreds 0 0 H2))
              Hne eq_refl)
    as (v' & Hrun & Hsize & _ & Hget).
  exists v'. split; [exact Hrun|]. split; [exact Hsize|].
  apply (Hget 1). vm_compute. reflexivity.
Defined.

Lemma iterator_follows_live_size_witness :
  World.iterators Examples.store !! 0%nat = Some (VectorIterator.new 0%nat) /\
  World.vectors Examples.store !! 0%nat = Some Examples.resizable /\
  World.on_iterator 0%nat IIterator.get_HasCurrent (Some false) Examples.store
  = Some (S_OK, Some true, Examples.store) /\
  (exists w',
      World.on_iterator 0%nat IIterator.MoveNext (Some false) Examples.store
      = Some (S_OK, Some true, w') /\
      World.iterators w' !! 0%nat
      = Some {| VectorIterator.mVector := 0%nat; VectorIterator.mPosition := 1 |}) /\
  World.on_iterator 0%nat IIterator.get_HasCurrent (Some true) Examples.exhausted
  = Some (S_OK, Some false, Examples.exhausted) /\
  World.on_iterator 0%nat IIterator.MoveNext (Some true) Examples.exhausted
  = Some (E_BOUNDS, Some true, Examples.exhausted) /\
  (exists w',
      World.on_vector 0%nat (Vector.Append 40) tt Examples.exhausted
      = Some (S_OK, tt, w') /\
      World.on_iterator 0%nat IIterator.get_HasCurrent (Some false) w'
      = Some (S_OK, Some true, w')).
Proof.
  destruct (iterator_follows_live_size Examples.store 0%nat
              (VectorIterator.new 0%nat) Examples.resizable false eq_refl eq_refl)
    as (Hhas & _ & Hmove).
  split; [reflexivity|]. split; [reflexivity|]. split; [exact Hhas|].
  split.
  { destruct Hmove as (w' & Hnext & Hit & _); [vm_compute; reflexivity|].
    exists w'. split; [exact Hnext|exact Hit]. }
  destruct (iterator_follows_live_size Examples.exhausted 0%nat
              {| VectorIterator.mVector := 0%nat; VectorIterator.mPosition := 3 |}
              Examples.resizable true eq_refl eq_refl)
    as (Hhas' & Hend & _).
  split; [exact Hhas'|].
  split; [apply Hend; vm_compute; discriminate|].
  exists (World.set_vector 0%nat (with_contents Examples.resizable [10; 20; 30; 40])
            Examples.exhausted).
  split; [vm_compute; reflexivity|].
  exact (proj1 (iterator_follows_live_size
                  (World.set_vector 0%nat
                     (with_contents Examples.resizable [10; 20; 30; 40])
                     Examples.exhausted) 0%nat
                  {| VectorIterator.mVector := 0%nat; VectorIterator.mPosition := 3 |}
                  (with_contents Examples.resizable [10; 20; 30; 40]) false
                  eq_refl eq_refl)).
Defined.

Lemma InsertAt_size_is_Append_witness :
  Vector.isFixedSize Examples.resizable = false /\
  Vector.InsertAt 3 40 (Examples.resizable, tt)
  = Vector.Append 40 (Examples.resizable, tt) /\
  (fst (Vector.InsertAt 5 40 (Examples.resizable, tt)) = E_BOUNDS <-> 3 < 5) /\
  (fst (Vector.GetAt 3 (Examples.resizable, Some 0)) = E_BOUNDS <-> 3 <= 3).
Proof.
  split; [reflexivity|].
  split.
  - apply (@InsertAt_size_is_Append _ _ _ _ ElementTraits_T_laws
             Examples.resizable 5 40 0 eq_refl).
  - split.
    + apply (@InsertAt_size_is_Append _ _ _ _ ElementTraits_T_laws
               Examples.resizable 5 40 0 eq_refl).
    + apply (@InsertAt_size_is_Append _ _ _ _ ElementTraits_T_laws
               Examples.resizable 3 40 0 eq_refl).
Defined.

Lemma IndexOf_finds_first_witness :
  Vector.IndexOf 20 (Examples.resizable, (Some 7, Some false))
  = (S_OK, (Examples.resizable, (Some 1, Some true))) /\
  Vector.IndexOf 99 (Examples.resizable, (Some 7, Some true))
  = (S_OK, (Examples.resizable, (Some 0, Some false))) /\
  Vector.IndexOf 99 (Examples.empty, (Some 7, Some true))
  = (S_OK, (Examples.empty, (Some 0, Some false))).
Proof.
  split; [|split].
  - apply (proj1 (IndexOf_finds_first Examples.resizable 20 7 false) 1%nat 20).
    + vm_compute. reflexivity.
    + reflexivity.
    + reflexivity.
    + intros [|k] e Hk Hl; [injection Hl as <-; reflexivity|lia].
  - apply (proj1 (proj2 (IndexOf_finds_first Examples.resizable 99 7 true))).
    intros [|[|[|k]]] e Hk Hl; try (injection Hl as <-; reflexivity).
    vm_compute in Hl. discriminate.
  - apply (proj2 (proj2 (IndexOf_finds_first Examples.empty 99 7 true))).
    reflexivity.
Defined.

Lemma cursor_invariant_kept_unless_shrunk_witness :
  never_shrinking Examples.iterate_then_Append World_empty = true /\
  is_Some (run Examples.iterate_then_Append World_empty) /\
  match run Examples.iterate_then_Append World_empty with
  | Some w => cursor_inv w
  | None => True
  end.
Proof.
  split; [vm_compute; reflexivity|]. split; [vm_compute; eexists; reflexivity|].
  apply (proj2 (proj2 (proj2 cursor_invariant_kept_unless_shrunk))).
  vm_compute. reflexivity.
Defined.

Lemma outputs_cleared_before_failure_witness :
  (fst (Vector.GetAt 3 (Examples.resizable, Some 7)) <> S_OK /\
   snd (snd (Vector.GetAt 3 (Examples.resizable, Some 7))) = Some 0) /\
  (fst (Vector.First 0%nat false ((Examples.resizable, ∅), Some (Some 4%nat))) <> S_OK /\
   snd (snd (Vector.First 0%nat false ((Examples.resizable, ∅), Some (Some 4%nat))))
   = Some None) /\
  (let r := Vector.IndexOf
              (ElementTraits0 := ElementTraits_HSTRING.traits Examples.failing_compare)
              [72; 105] (Examples.strings, (Some 5, Some true)) in
   fst r <> S_OK /\ snd (snd r) = (Some 0, Some false)).
Proof.
  split; [|split].
  - assert (Hfails : fst (Vector.GetAt 3 (Examples.resizable, Some 7)) <> S_OK)
      by (vm_compute; discriminate).
    split; [exact Hfails|].
    exact (proj1 (outputs_cleared_before_failure Examples.resizable
                    (VectorIterator.new 0%nat)) 3 7 Hfails).
  - assert (Hfails : fst (Vector.First 0%nat false
                            ((Examples.resizable, ∅), Some (Some 4%nat))) <> S_OK)
      by (vm_compute; discriminate).
    split; [exact Hfails|].
    destruct (outputs_cleared_before_failure Examples.resizable
                (VectorIterator.new 0%nat)) as (_ & _ & _ & _ & HFirst & _).
    exact (HFirst 0%nat false ∅ (Some 4%nat) Hfails).
  - cbn zeta.
    assert (Hfails : fst (Vector.IndexOf
                            (ElementTraits0 :=
                               ElementTraits_HSTRING.traits Examples.failing_compare)
                            [72; 105] (Examples.strings, (Some 5, Some true)))
                     <> S_OK)
      by (vm_compute; discriminate).
    split; [exact Hfails|].
    destruct (@outputs_cleared_before_failure _ _ _
                (ElementTraits_HSTRING.traits Examples.failing_compare)
                Examples.strings (VectorIterator.new 0%nat))
      as (_ & _ & HIndexOf & _).
    exact (HIndexOf [72; 105] 5 true Hfails).
Defined.


(** * Further properties *)

(** ** Reading back what was written *)

Section ReadBack.
Context {T ElementType : Type} `{!AbiType T} `{!ElementTraits T ElementType}.

Implicit Types (v : Vector.t ElementType) (index k : unsigned) (item value : T)
  (l : list ElementType).

(** What [GetAt] answers depends on the element at the index only. *)
Lemma GetAt_seen v index (cell : T) :
  seen (Vector.GetAt index (v, Some cell)) =
  match Vector.mVector v !! N.to_nat index with
  | Some element =>
      match Unwrap element with
      | Returned result => (S_OK, Some result)
      | Thrown e => (ThrownExceptionToHResult e, Some zero_memory)
      end
  | None => (E_BOUNDS, Some zero_memory)
  end.
Proof.
  rewrite GetAt_run. unfold seen.
  destruct (DefaultVectorTraits.size (Vector.mVector v) <=? index) eqn:E.
  - apply N.leb_le in E. unfold DefaultVectorTraits.size in E.
    rewrite (proj2 (lookup_ge_None _ _)) by lia. reflexivity.
  - destruct (Vector.mVector v !! N.to_nat index); [|reflexivity].
    destruct (Unwrap e); reflexivity.
Qed.

Lemma GetAt_seen_same v v' index index' (cell : T) :
  Vector.mVector v' !! N.to_nat index' = Vector.mVector v !! N.to_nat index ->
  seen (Vector.GetAt index' (v', Some cell)) = seen (Vector.GetAt index (v, Some cell)).
Proof. intros H. rewrite !GetAt_seen, H. reflexivity. Qed.

Lemma GetAt_seen_stored `{!ElementTraitsLaws T ElementType} v index item (cell : T) :
  Vector.mVector v !! N.to_nat index = Some (Wrap item) ->
  seen (Vector.GetAt index (v, Some cell)) = (S_OK, Some item).
Proof. intros H. rewrite GetAt_seen, H, Unwrap_Wrap. reflexivity. Qed.

Lemma size_lt_length l index :
  index < DefaultVectorTraits.size l <-> (N.to_nat index < length l)%nat.
Proof. unfold DefaultVectorTraits.size. lia. Qed.

(** X1: [SetAt] at an index below the size succeeds, keeps the size, and
    then [GetAt] at that index answers the item written while [GetAt] at
    every other index answers what it answered before. *)
Theorem SetAt_then_GetAt `{!ElementTraitsLaws T ElementType} v index item (cell : T) :
  index < DefaultVectorTraits.size (Vector.mVector v) ->
  exists v',
    Vector.SetAt index item (v, tt) = (S_OK, (v', tt)) /\
    DefaultVectorTraits.size (Vector.mVector v')
    = DefaultVectorTraits.size (Vector.mVector v) /\
    seen (Vector.GetAt index (v', Some cell)) = (S_OK, Some item) /\
    forall k, k <> index ->
      seen (Vector.GetAt k (v', Some cell)) = seen (Vector.GetAt k (v, Some cell)).
Proof.
  intros Hindex. rewrite SetAt_run, (proj2 (N.leb_gt _ _) Hindex).
  eexists. split; [reflexivity|]. cbn [with_contents Vector.mVector].
  apply size_lt_length in Hindex.
  split; [|split].
  - unfold DefaultVectorTraits.size. rewrite length_insert. reflexivity.
  - apply GetAt_seen_stored. cbn. apply list_lookup_insert_eq. done.
  - intros k Hk. apply GetAt_seen_same. cbn.
    apply list_lookup_insert_ne. lia.
Qed.

(** X2: [Append] on a resizable collection succeeds; afterwards [GetAt] at
    the old size answers the appended item, [GetAt] below the old size
    answers what it answered before, and the collection has one element
    more ([get_Size] says so as long as the count fits [unsigned]). *)
Theorem Append_then_GetAt `{!ElementTraitsLaws T ElementType}
    v item (cell : T) (size_cell : unsigned) :
  Vector.isFixedSize v = false ->
  let size := DefaultVectorTraits.size (Vector.mVector v) in
  exists v',
    Vector.Append item (v, tt) = (S_OK, (v', tt)) /\
    seen (Vector.GetAt size (v', Some cell)) = (S_OK, Some item) /\
    (forall k, k < size ->
       seen (Vector.GetAt k (v', Some cell)) = seen (Vector.GetAt k (v, Some cell))) /\
    (size + 1 < UINT_RANGE ->
     seen (Vector.get_Size (v', Some size_cell)) = (S_OK, Some (size + 1))).
Proof.
  intros Hfixed size. rewrite Append_run, Hfixed.
  eexists. split; [reflexivity|]. cbn [with_contents Vector.mVector].
  split; [|split].
  - apply GetAt_seen_stored. cbn. subst size. unfold DefaultVectorTraits.size.
    rewrite Nat2N.id. apply list_lookup_middle. reflexivity.
  - intros k Hk. apply GetAt_seen_same. cbn.
    apply lookup_app_l. apply size_lt_length. exact Hk.
  - intros Hfits. rewrite get_Size_run. unfold seen. cbn.
    unfold DefaultVectorTraits.GetSize, DefaultVectorTraits.size.
    rewrite length_app. cbn.
    rewrite to_unsigned_small; subst size; unfold DefaultVectorTraits.size in *;
      [f_equal; f_equal; lia|lia].
Qed.

(** X3: [InsertAt] at an index up to the size, on a resizable collection,
    succeeds; afterwards [GetAt] at that index answers the inserted item,
    below it what it answered before, and at [k + 1] what it answered at
    [k] for every [k] from the index on. *)
Theorem InsertAt_shifts_up `{!ElementTraitsLaws T ElementType} v index item (cell : T) :
  Vector.isFixedSize v = false ->
  index <= DefaultVectorTraits.size (Vector.mVector v) ->
  exists v',
    Vector.InsertAt index item (v, tt) = (S_OK, (v', tt)) /\
    DefaultVectorTraits.size (Vector.mVector v')
    = DefaultVectorTraits.size (Vector.mVector v) + 1 /\
    seen (Vector.GetAt index (v', Some cell)) = (S_OK, Some item) /\
    (forall k, k < index ->
       seen (Vector.GetAt k (v', Some cell)) = seen (Vector.GetAt k (v, Some cell))) /\
    (forall k, index <= k ->
       seen (Vector.GetAt (k + 1) (v', Some cell))
       = seen (Vector.GetAt k (v, Some cell))).
Proof.
  intros Hfixed Hindex. rewrite InsertAt_run, Hfixed.
  rewrite (proj2 (N.ltb_ge _ _) Hindex).
  eexists. split; [reflexivity|]. cbn [with_contents Vector.mVector].
  unfold DefaultVectorTraits.size in *.
  set (l := Vector.mVector v) in *. set (i := N.to_nat index).
  assert (Hi : (i <= length l)%nat) by (subst i; lia).
  assert (Htake : length (take i l) = i) by (apply length_take_le; done).
  split; [|split; [|split]].
  - rewrite length_app. cbn. rewrite Htake, length_drop. lia.
  - apply GetAt_seen_stored. cbn. fold l i.
    apply list_lookup_middle. done.
  - intros k Hk. apply GetAt_seen_same. cbn. fold l i.
    rewrite lookup_app_l by lia. apply lookup_take_lt. lia.
  - intros k Hk. apply GetAt_seen_same. cbn. fold l i.
    rewrite lookup_app_r by lia. rewrite Htake.
    rewrite lookup_cons_ne_0 by lia. rewrite lookup_drop. f_equal. lia.
Qed.

(** X4: [RemoveAt] at an index below the size, on a resizable collection,
    succeeds and takes one element out: [GetAt] below the index answers
    what it answered before, and at every [k] from the index on what it
    answered at [k + 1]. [RemoveAt] at the index of an [InsertAt] gives the
    buffer back. *)
Theorem RemoveAt_shifts_down v index item (cell : T) :
  Vector.isFixedSize v = false ->
  (index < DefaultVectorTraits.size (Vector.mVector v) ->
   exists v',
     Vector.RemoveAt index (v, tt) = (S_OK, (v', tt)) /\
     DefaultVectorTraits.size (Vector.mVector v') + 1
     = DefaultVectorTraits.size (Vector.mVector v) /\
     (forall k, k < index ->
        seen (Vector.GetAt k (v', Some cell)) = seen (Vector.GetAt k (v, Some cell))) /\
     (forall k, index <= k ->
        seen (Vector.GetAt k (v', Some cell))
        = seen (Vector.GetAt (k + 1) (v, Some cell)))) /\
  (index <= DefaultVectorTraits.size (Vector.mVector v) ->
   exists v' v'',
     Vector.InsertAt index item (v, tt) = (S_OK, (v', tt)) /\
     Vector.RemoveAt index (v', tt) = (S_OK, (v'', tt)) /\
     Vector.mVector v'' = Vector.mVector v).
Proof.
  intros Hfixed. split.
  - intros Hindex. rewrite RemoveAt_run, Hfixed, (proj2 (N.leb_gt _ _) Hindex).
    eexists. split; [reflexivity|]. cbn [with_contents Vector.mVector].
    apply size_lt_length in Hindex.
    split; [|split].
    + unfold DefaultVectorTraits.size.
      rewrite length_delete by (apply lookup_lt_is_Some_2; done). lia.
    + intros k Hk. apply GetAt_seen_same. cbn.
      apply list_lookup_delete_lt. lia.
    + intros k Hk. apply GetAt_seen_same. cbn.
      rewrite list_lookup_delete_ge by lia. f_equal. lia.
  - intros Hindex. rewrite InsertAt_run, Hfixed, (proj2 (N.ltb_ge _ _) Hindex).
    eexists. eexists. split; [reflexivity|].
    rewrite RemoveAt_run. cbn [with_contents Vector.mVector Vector.isFixedSize].
    rewrite Hfixed.
    unfold DefaultVectorTraits.size in *.
    set (l := Vector.mVector v) in *. set (i := N.to_nat index).
    assert (Hi : (i <= length l)%nat) by (subst i; lia).
    assert (Htake : length (take i l) = i) by (apply length_take_le; done).
    assert (Hlt : (N.of_nat (length (take i l ++ Wrap item :: drop i l)) <=? index)
                  = false).
    { apply N.leb_gt. rewrite length_app. cbn. rewrite Htake. lia. }
    assert (Hback : delete i (take i l ++ Wrap item :: drop i l) = l).
    { rewrite <- Htake at 1. rewrite delete_middle. apply take_drop. }
    rewrite Hlt. split; [reflexivity|]. exact Hback.
Qed.
End ReadBack.

(** ** Removing, clearing, replacing *)

Section Removing.
Context {T ElementType : Type} `{!AbiType T} `{!ElementTraits T ElementType}.

Implicit Types (v : Vector.t ElementType) (index k count : unsigned) (item value : T)
  (l : list ElementType).

Lemma GetSize_small l :
  DefaultVectorTraits.size l < UINT_RANGE ->
  DefaultVectorTraits.GetSize l = DefaultVectorTraits.size l.
Proof. apply to_unsigned_small. Qed.

(** X5: [RemoveAtEnd] on a resizable, non-empty collection (whose size
    fits [unsigned]) succeeds and takes the last element out: the size
    drops by one and [GetAt] below the new size answers what it answered
    before. [RemoveAtEnd] after [Append] gives the buffer back. *)
Theorem RemoveAtEnd_removes_last v item (cell : T) :
  Vector.isFixedSize v = false ->
  let size := DefaultVectorTraits.size (Vector.mVector v) in
  (0 < size -> size < UINT_RANGE ->
   exists v',
     Vector.RemoveAtEnd (v, tt) = (S_OK, (v', tt)) /\
     DefaultVectorTraits.size (Vector.mVector v') = size - 1 /\
     (forall k, k < size - 1 ->
        seen (Vector.GetAt k (v', Some cell)) = seen (Vector.GetAt k (v, Some cell))) /\
     seen (Vector.GetAt (size - 1) (v', Some cell)) = (E_BOUNDS, Some zero_memory)) /\
  (size + 1 < UINT_RANGE ->
   exists v' v'',
     Vector.Append item (v, tt) = (S_OK, (v', tt)) /\
     Vector.RemoveAtEnd (v', tt) = (S_OK, (v'', tt)) /\
     Vector.mVector v'' = Vector.mVector v).
Proof.
  intros Hfixed size. split.
  - intros Hpos Hfits. rewrite RemoveAtEnd_run, Hfixed.
    rewrite GetSize_small by done. fold size.
    rewrite unsigned_sub_small by lia.
    rewrite RemoveAt_run, Hfixed. fold size.
    rewrite (proj2 (N.leb_gt size (size - 1))) by lia.
    eexists. split; [reflexivity|]. cbn [with_contents Vector.mVector].
    subst size. unfold DefaultVectorTraits.size in *.
    split; [|split].
    + rewrite length_delete by (apply lookup_lt_is_Some_2; lia). lia.
    + intros k Hk. apply GetAt_seen_same. cbn.
      apply list_lookup_delete_lt. lia.
    + rewrite GetAt_seen. cbn.
      rewrite (proj2 (lookup_ge_None _ _)); [reflexivity|].
      rewrite length_delete by (apply lookup_lt_is_Some_2; lia). lia.
  - intros Hfits. rewrite Append_run, Hfixed.
    eexists. eexists. split; [reflexivity|].
    rewrite RemoveAtEnd_run. cbn [with_contents Vector.mVector Vector.isFixedSize].
    rewrite Hfixed.
    assert (Hsize : DefaultVectorTraits.size (Vector.mVector v ++ [Wrap item])
                    = size + 1).
    { subst size. unfold DefaultVectorTraits.size. rewrite length_app. cbn. lia. }
    rewrite GetSize_small by (rewrite Hsize; done). rewrite Hsize.
    rewrite unsigned_sub_small by lia.
    rewrite RemoveAt_run. cbn [with_contents Vector.mVector Vector.isFixedSize].
    rewrite Hfixed, Hsize.
    rewrite (proj2 (N.leb_gt (size + 1) (size + 1 - 1))) by lia.
    split; [reflexivity|]. cbn.
    replace (N.to_nat (size + 1 - 1)) with (length (Vector.mVector v))
      by (subst size; unfold DefaultVectorTraits.size; lia).
    rewrite delete_middle. apply app_nil_r.
Qed.

(** X6: [Clear] on a resizable collection succeeds and leaves it empty:
    [get_Size] answers 0, [GetAt] fails with [E_BOUNDS] at every index,
    [IndexOf] finds nothing and [RemoveAtEnd] fails with [E_BOUNDS]. *)
Theorem Clear_empties v :
  Vector.isFixedSize v = false ->
  exists v',
    Vector.Clear (v, tt) = (S_OK, (v', tt)) /\
    Vector.mVector v' = [] /\
    (forall size_cell, seen (Vector.get_Size (v', Some size_cell)) = (S_OK, Some 0)) /\
    (forall index cell,
        seen (Vector.GetAt index (v', Some cell)) = (E_BOUNDS, Some zero_memory)) /\
    (forall value i0 f0,
        seen (Vector.IndexOf value (v', (Some i0, Some f0)))
        = (S_OK, (Some 0, Some false))) /\
    seen (Vector.RemoveAtEnd (v', tt)) = (E_BOUNDS, tt).
Proof.
  intros Hfixed. rewrite Clear_run, Hfixed.
  eexists. split; [reflexivity|]. split; [reflexivity|].
  split; [|split; [|split]].
  - intros size_cell. rewrite get_Size_run. reflexivity.
  - intros index cell. rewrite GetAt_seen. reflexivity.
  - intros value i0 f0. rewrite IndexOf_run. reflexivity.
  - rewrite RemoveAtEnd_run. cbn [with_contents Vector.isFixedSize Vector.mVector].
    rewrite Hfixed, RemoveAt_run. cbn. rewrite Hfixed. reflexivity.
Qed.

(** X7: The reading entry points never change the object they read,
    whatever their arguments and whether they succeed: [get_Size], [GetAt],
    [IndexOf], [GetView] and [First] leave the vector (buffer, [isFixedSize]
    and [isChanged]) as it was, [get_Current] and [get_HasCurrent] leave
    the iterator and the vector as they were, and [MoveNext] leaves the
    vector as it was. *)
Theorem readers_change_nothing v (it : VectorIterator.t) :
  (forall size, left (Vector.get_Size (v, size)) = v) /\
  (forall index (out : ptr T), left (Vector.GetAt index (v, out)) = v) /\
  (forall value outs, left (Vector.IndexOf value (v, outs)) = v) /\
  (forall this alloc_ok views view,
      fst (left (Vector.GetView this alloc_ok ((v, views), view))) = v) /\
  (forall this alloc_ok iterators first,
      fst (left (Vector.First this alloc_ok ((v, iterators), first))) = v) /\
  (forall current, left (IIterator.get_Current ((v, it), current)) = (v, it)) /\
  (forall hasCurrent,
      left (IIterator.get_HasCurrent ((v, it), hasCurrent)) = (v, it)) /\
  (forall hasCurrent, fst (left (IIterator.MoveNext ((v, it), hasCurrent))) = v).
Proof.
  unfold left. repeat split.
  - intros. apply get_Size_same.
  - intros. apply GetAt_same.
  - intros. apply IndexOf_same.
  - intros this alloc_ok views view. rewrite GetView_run.
    destruct view, alloc_ok; reflexivity.
  - intros this alloc_ok iterators first. rewrite First_run.
    destruct first, alloc_ok; reflexivity.
  - intros. apply get_Current_same.
  - intros. apply get_HasCurrent_same.
  - intros hasCurrent. apply (MoveNext_effect v it hasCurrent).
Qed.

(** X8: [ReplaceAll] checks before it changes anything. It returns
    [E_INVALIDARG] exactly when the array pointer is null (even for
    [count = 0]) and [E_NOTIMPL] exactly when the array is there, the
    collection fixed-size and [count] differs from the size; whenever it
    returns one of the two, the object is exactly as it was. *)
Theorem ReplaceAll_rejects_before_changing v count (value : Vector.array) :
  let r := Vector.ReplaceAll count value (v, tt) in
  (fst r = E_INVALIDARG <-> value = None) /\
  (fst r = E_NOTIMPL <->
   value <> None /\ Vector.isFixedSize v = true /\
   count <> DefaultVectorTraits.GetSize (Vector.mVector v)) /\
  (fst r = E_INVALIDARG \/ fst r = E_NOTIMPL -> snd r = (v, tt)).
Proof.
  cbn zeta. rewrite ReplaceAll_run.
  destruct value as [elements|];
    [|cbn; unfold S_OK, E_INVALIDARG, E_NOTIMPL; intuition (try congruence)].
  destruct (count =? DefaultVectorTraits.GetSize (Vector.mVector v)) eqn:Hcount.
  - apply N.eqb_eq in Hcount. cbn. unfold S_OK, E_INVALIDARG, E_NOTIMPL.
    intuition (try congruence).
  - apply N.eqb_neq in Hcount.
    destruct (Vector.isFixedSize v); cbn; unfold S_OK, E_INVALIDARG, E_NOTIMPL;
      intuition (try congruence).
Qed.
End Removing.

(** ** Searching *)

Section Searching.
Context {T ElementType : Type} `{!AbiType T} `{!ElementTraits T ElementType}.

Implicit Types (v : Vector.t ElementType) (index k count : unsigned) (value : T)
  (l : list ElementType).

Lemma scan_returns `{!ElementTraitsLaws T ElementType} l value steps : forall i,
  i + N.of_nat steps <= UINT_RANGE ->
  (N.to_nat i + steps <= length l)%nat ->
  exists r, scan l value steps i = Returned r.
Proof.
  induction steps as [|steps IH]; intros i Hrange Hlen; [eexists; reflexivity|].
  cbn [scan].
  assert (Hi : (DefaultVectorTraits.size l <=? i) = false).
  { apply N.leb_gt. unfold DefaultVectorTraits.size. lia. }
  rewrite Hi.
  destruct (lookup_lt_is_Some_2 l (N.to_nat i)) as [element ->]; [lia|].
  destruct (Equals_returns element value) as [[] ->]; [eexists; reflexivity|].
  destruct steps as [|steps']; [eexists; reflexivity|].
  apply IH; rewrite unsigned_add_small by lia; lia.
Qed.

Lemma whole_scan_in_range l :
  0 + N.of_nat (N.to_nat (DefaultVectorTraits.GetSize l)) <= UINT_RANGE /\
  (N.to_nat 0 + N.to_nat (DefaultVectorTraits.GetSize l) <= length l)%nat.
Proof.
  pose proof (to_unsigned_lt (DefaultVectorTraits.size l)).
  pose proof (to_unsigned_le (DefaultVectorTraits.size l)).
  unfold DefaultVectorTraits.GetSize, DefaultVectorTraits.size in *. lia.
Qed.

(** X9: For a strategy whose [Equals] is equality with the wrapped value
    (plain values, reference counted pointers), [IndexOf] on a collection
    whose size fits [unsigned] succeeds and answers the first position at
    which the value occurs, with [found = true], or [index = 0],
    [found = false] when it occurs nowhere; so [found] tells whether the
    value is in the collection. *)
Theorem IndexOf_is_first_occurrence `{EqDecision ElementType}
    v value (i0 : unsigned) (f0 : boolean) :
  (forall e y, Equals e y = Returned (bool_decide (e = Wrap y))) ->
  DefaultVectorTraits.size (Vector.mVector v) < UINT_RANGE ->
  Vector.IndexOf value (v, (Some i0, Some f0)) =
  (S_OK, (v, match list_find (fun e => e = Wrap value) (Vector.mVector v) with
             | Some (i, _) => (Some (N.of_nat i), Some true)
             | None => (Some 0, Some false)
             end)) /\
  (snd (snd (snd (Vector.IndexOf value (v, (Some i0, Some f0))))) = Some true <->
   Wrap value ∈ Vector.mVector v).
Proof.
  intros Hequals Hfits.
  set (l := Vector.mVector v).
  assert (Hsteps : N.to_nat (DefaultVectorTraits.GetSize l) = length l).
  { rewrite GetSize_small by done. unfold DefaultVectorTraits.size. lia. }
  assert (Hrun : Vector.IndexOf value (v, (Some i0, Some f0)) =
                 (S_OK, (v, match list_find (fun e => e = Wrap value) l with
                            | Some (i, _) => (Some (N.of_nat i), Some true)
                            | None => (Some 0, Some false)
                            end))).
  { rewrite IndexOf_run. fold l. rewrite Hsteps.
    unfold DefaultVectorTraits.size in Hfits. fold l in Hfits.
    destruct (list_find (fun e => e = Wrap value) l) as [[i x]|] eqn:Hfind.
    - apply list_find_Some in Hfind as (Hl & Hx & Hbefore).
      pose proof (lookup_lt_Some _ _ _ Hl).
      rewrite (scan_first l value _ 0 i x); try done; try lia.
      + rewrite Hequals. rewrite bool_decide_eq_true_2; done.
      + intros j e Hj Hle. rewrite Hequals.
        rewrite bool_decide_eq_false_2; [done|]. apply (Hbefore j e Hle). lia.
    - apply list_find_None in Hfind.
      rewrite scan_absent; try done; try lia.
      intros j e Hj Hle. rewrite Hequals.
      rewrite bool_decide_eq_false_2; [done|].
      rewrite Forall_forall in Hfind. apply Hfind.
      apply list_elem_of_lookup. eauto. }
  split; [exact Hrun|]. rewrite Hrun. cbn [snd].
  destruct (list_find (fun e => e = Wrap value) l) as [[i x]|] eqn:Hfind.
  - apply list_find_Some in Hfind as (Hl & Hx & _). subst x.
    split; [intros _|done]. apply list_elem_of_lookup. eauto.
  - apply list_find_None in Hfind. rewrite Forall_forall in Hfind.
    split; [done|]. intros Hin. exfalso. apply (Hfind _ Hin). reflexivity.
Qed.
End Searching.

Section Strings.
Variable WindowsCompareStringOrdinal :
  ElementTraits_HSTRING.HSTRING -> ElementTraits_HSTRING.HSTRING -> HRESULT * Z.

Implicit Types (v : Vector.t ElementTraits_HSTRING.HString)
  (value : ElementTraits_HSTRING.HSTRING).

(** X10: On a collection of strings, a failure of the platform's string
    comparison on the first element ends [IndexOf] with the platform's own
    status and with [index = 0], [found = false]; on an empty collection
    [IndexOf] never calls the comparison and succeeds. *)
Theorem IndexOf_passes_compare_failure v value (i0 : unsigned) (f0 : boolean) :
  (forall first rest hr c,
      Vector.mVector v = first :: rest ->
      DefaultVectorTraits.size (Vector.mVector v) < UINT_RANGE ->
      WindowsCompareStringOrdinal first value = (hr, c) ->
      FAILED hr = true ->
      Vector.IndexOf
        (ElementTraits0 := ElementTraits_HSTRING.traits WindowsCompareStringOrdinal)
        value (v, (Some i0, Some f0))
      = (hr, (v, (Some 0, Some false)))) /\
  (Vector.mVector v = [] ->
   Vector.IndexOf
     (ElementTraits0 := ElementTraits_HSTRING.traits WindowsCompareStringOrdinal)
     value (v, (Some i0, Some f0))
   = (S_OK, (v, (Some 0, Some false)))).
Proof.
  split.
  - intros first rest hr c Hl Hfits Hcompare Hfailed.
    rewrite IndexOf_run. rewrite GetSize_small by done.
    unfold DefaultVectorTraits.size. rewrite Hl. cbn [length].
    rewrite Nat2N.id. cbn [scan].
    unfold DefaultVectorTraits.size. cbn [length lookup list_lookup].
    replace (N.of_nat (S (length rest)) <=? 0) with false
      by (symmetry; apply N.leb_gt; lia).
    change (N.to_nat 0) with 0%nat.
    cbn. unfold ElementTraits_HSTRING.Equals, run_pure.
    rewrite Hcompare. unfold ThrowIfFailed, when. rewrite Hfailed. reflexivity.
  - intros Hl. rewrite IndexOf_run, Hl. reflexivity.
Qed.
End Strings.

(** ** The statuses an entry point can return *)

Ltac status_cases :=
  cbn;
  repeat match goal with
         | |- context [if ?c then _ else _] => destruct c; cbn
         | |- context [match ?x with _ => _ end] => destruct x; cbn
         end;
  unfold S_OK, E_INVALIDARG, E_NOTIMPL, E_BOUNDS, E_OUTOFMEMORY;
  intuition (try congruence).

Section Statuses.
Context {T ElementType : Type} `{!AbiType T} `{!ElementTraits T ElementType}
  `{!ElementTraitsLaws T ElementType}.

Implicit Types (v : Vector.t ElementType) (it : VectorIterator.t)
  (index count : unsigned) (item value : T).

Lemma GetAt_status v index (out : ptr T) :
  In (fst (Vector.GetAt index (v, out))) [S_OK; E_INVALIDARG; E_BOUNDS] /\
  (fst (Vector.GetAt index (v, out)) = E_INVALIDARG <-> out = None).
Proof.
  rewrite GetAt_run. destruct out as [cell|]; [|status_cases].
  destruct (_ <=? _); [status_cases|].
  destruct (_ !! _) as [e|]; [|status_cases].
  destruct (Unwrap_returns e) as [x ->]. status_cases.
Qed.

Lemma IndexOf_status v value (index : ptr unsigned) (found : ptr boolean) :
  In (fst (Vector.IndexOf value (v, (index, found)))) [S_OK; E_INVALIDARG] /\
  (fst (Vector.IndexOf value (v, (index, found))) = E_INVALIDARG <->
   index = None \/ found = None).
Proof.
  rewrite IndexOf_run.
  destruct index as [i0|], found as [f0|]; [|status_cases..].
  destruct (whole_scan_in_range (Vector.mVector v)) as [Hrange Hlen].
  destruct (scan_returns (Vector.mVector v) value _ 0 Hrange Hlen) as [[j|] ->];
    status_cases.
Qed.

(** X11: With a strategy whose [Unwrap] and [Equals] do not throw, each
    entry point that does not grow the buffer returns one of a few statuses
    only: [get_Size], [IndexOf] and [get_HasCurrent] return [S_OK] or
    [E_INVALIDARG]; [GetAt], [get_Current] and [MoveNext] also [E_BOUNDS];
    [SetAt] returns [S_OK] or [E_BOUNDS]; [RemoveAt] and [RemoveAtEnd]
    return [S_OK], [E_NOTIMPL] or [E_BOUNDS]; [Clear] returns [S_OK] or
    [E_NOTIMPL]; [GetView] and [First] return [S_OK], [E_INVALIDARG] or
    [E_OUTOFMEMORY]. [E_INVALIDARG] is returned exactly when a pointer
    argument is null. In particular [IndexOf] never fails with [E_BOUNDS].
    Of [InsertAt] and [Append], which grow the buffer, only the statuses of
    their checks are placed: [E_NOTIMPL] exactly on a fixed-size
    collection, and [E_BOUNDS] from [InsertAt] exactly when the collection
    is resizable and the index is above the size. *)
Theorem entry_point_statuses v it :
  (forall size,
      In (fst (Vector.get_Size (v, size))) [S_OK; E_INVALIDARG] /\
      (fst (Vector.get_Size (v, size)) = E_INVALIDARG <-> size = None)) /\
  (forall index (out : ptr T),
      In (fst (Vector.GetAt index (v, out))) [S_OK; E_INVALIDARG; E_BOUNDS] /\
      (fst (Vector.GetAt index (v, out)) = E_INVALIDARG <-> out = None)) /\
  (forall value (index : ptr unsigned) (found : ptr boolean),
      In (fst (Vector.IndexOf value (v, (index, found)))) [S_OK; E_INVALIDARG] /\
      (fst (Vector.IndexOf value (v, (index, found))) = E_INVALIDARG <->
       index = None \/ found = None)) /\
  (forall index item, In (fst (Vector.SetAt index item (v, tt))) [S_OK; E_BOUNDS]) /\
  (forall index item,
      (fst (Vector.InsertAt index item (v, tt)) = E_NOTIMPL <->
       Vector.isFixedSize v = true) /\
      (fst (Vector.InsertAt index item (v, tt)) = E_BOUNDS <->
       Vector.isFixedSize v = false /\
       DefaultVectorTraits.size (Vector.mVector v) < index)) /\
  (forall index,
      In (fst (Vector.RemoveAt index (v, tt))) [S_OK; E_NOTIMPL; E_BOUNDS]) /\
  In (fst (Vector.RemoveAtEnd (v, tt))) [S_OK; E_NOTIMPL; E_BOUNDS] /\
  (forall item,
      fst (Vector.Append item (v, tt)) = E_NOTIMPL <-> Vector.isFixedSize v = true) /\
  In (fst (Vector.Clear (v, tt))) [S_OK; E_NOTIMPL] /\
  (forall this alloc_ok views view,
      let hr := fst (Vector.GetView this alloc_ok ((v, views), view)) in
      In hr [S_OK; E_INVALIDARG; E_OUTOFMEMORY] /\
      (hr = E_INVALIDARG <-> view = None) /\
      (hr = E_OUTOFMEMORY <-> view <> None /\ alloc_ok = false)) /\
  (forall this alloc_ok iterators first,
      let hr := fst (Vector.First this alloc_ok ((v, iterators), first)) in
      In hr [S_OK; E_INVALIDARG; E_OUTOFMEMORY] /\
      (hr = E_INVALIDARG <-> first = None) /\
      (hr = E_OUTOFMEMORY <-> first <> None /\ alloc_ok = false)) /\
  (forall current,
      In (fst (IIterator.get_Current ((v, it), current)))
         [S_OK; E_INVALIDARG; E_BOUNDS] /\
      (fst (IIterator.get_Current ((v, it), current)) = E_INVALIDARG <->
       current = None)) /\
  (forall hasCurrent,
      In (fst (IIterator.get_HasCurrent ((v, it), hasCurrent))) [S_OK; E_INVALIDARG] /\
      (fst (IIterator.get_HasCurrent ((v, it), hasCurrent)) = E_INVALIDARG <->
       hasCurrent = None)) /\
  (forall hasCurrent,
      In (fst (IIterator.MoveNext ((v, it), hasCurrent)))
         [S_OK; E_INVALIDARG; E_BOUNDS] /\
      (fst (IIterator.MoveNext ((v, it), hasCurrent)) = E_INVALIDARG <->
       hasCurrent = None)).
Proof.
  split; [intros size; rewrite get_Size_run; status_cases|].
  split; [intros; apply GetAt_status|].
  split; [intros; apply IndexOf_status|].
  split; [intros; rewrite SetAt_run; status_cases|].
  split.
  { intros index item. rewrite InsertAt_run.
    destruct (Vector.isFixedSize v); [status_cases|].
    destruct (_ <? _) eqn:Hindex;
      [apply N.ltb_lt in Hindex|apply N.ltb_ge in Hindex];
      cbn; unfold S_OK, E_NOTIMPL, E_BOUNDS;
      intuition (try congruence; try lia). }
  split; [intros; rewrite RemoveAt_run; status_cases|].
  split; [rewrite RemoveAtEnd_run, RemoveAt_run; status_cases|].
  split; [intros; rewrite Append_run; destruct (Vector.isFixedSize v); status_cases|].
  split; [rewrite Clear_run; status_cases|].
  split; [intros this alloc_ok views view; cbn zeta; rewrite GetView_run;
          destruct view, alloc_ok; status_cases|].
  split; [intros this alloc_ok iterators first; cbn zeta; rewrite First_run;
          destruct first, alloc_ok; status_cases|].
  split.
  { intros current. rewrite get_Current_run.
    pose proof (GetAt_status v (VectorIterator.mPosition it) current) as H.
    destruct (Vector.GetAt _ _) as [hr [v' out']]. exact H. }
  split; [intros hasCurrent; rewrite get_HasCurrent_run; status_cases|].
  intros hasCurrent. rewrite MoveNext_run. status_cases.
Qed.
End Statuses.

(** ** Walking a collection *)

Section Walking.
Context {T ElementType : Type} `{!AbiType T} `{!ElementTraits T ElementType}.

Implicit Types (v : Vector.t ElementType) (it : VectorIterator.t).

Lemma get_Current_seen v it (current : ptr T) :
  seen (IIterator.get_Current ((v, it), current))
  = seen (Vector.GetAt (VectorIterator.mPosition it) (v, current)).
Proof.
  rewrite get_Current_run. destruct (Vector.GetAt _ _) as [hr [v' out']].
  reflexivity.
Qed.

(** X12: [get_Current] answers the element at the iterator's position: it
    succeeds when there is one, fails with [E_BOUNDS] and a zeroed output
    when the position is at or past the end, and whenever [get_HasCurrent]
    answers [true] it succeeds. *)
Theorem get_Current_reads_position `{!ElementTraitsLaws T ElementType}
    v it (cell : T) (flag : boolean) :
  let position := VectorIterator.mPosition it in
  (forall item,
      Vector.mVector v !! N.to_nat position = Some (Wrap item) ->
      seen (IIterator.get_Current ((v, it), Some cell)) = (S_OK, Some item)) /\
  (DefaultVectorTraits.size (Vector.mVector v) <= position ->
   seen (IIterator.get_Current ((v, it), Some cell)) = (E_BOUNDS, Some zero_memory)) /\
  (seen (IIterator.get_HasCurrent ((v, it), Some flag)) = (S_OK, Some true) ->
   fst (IIterator.get_Current ((v, it), Some cell)) = S_OK).
Proof.
  intros position. split; [|split].
  - intros item Hitem. rewrite get_Current_seen. apply GetAt_seen_stored. exact Hitem.
  - intros Hend. rewrite get_Current_seen, GetAt_seen. fold position.
    rewrite (proj2 (lookup_ge_None _ _)); [reflexivity|].
    unfold DefaultVectorTraits.size in Hend. lia.
  - rewrite get_HasCurrent_run. unfold seen. cbn. intros [= Hlt].
    apply N.ltb_lt in Hlt. fold position in Hlt.
    pose proof (to_unsigned_le (DefaultVectorTraits.size (Vector.mVector v))) as Hle.
    fold (DefaultVectorTraits.GetSize (Vector.mVector v)) in Hle.
    change (fst (IIterator.get_Current ((v, it), Some cell)))
      with (fst (seen (IIterator.get_Current ((v, it), Some cell)))).
    rewrite get_Current_seen, GetAt_seen. fold position.
    destruct (lookup_lt_is_Some_2 (Vector.mVector v) (N.to_nat position))
      as [e ->]; [unfold DefaultVectorTraits.size in Hle; lia|].
    destruct (Unwrap_returns e) as [x ->]. reflexivity.
Qed.

Lemma MoveNext_times_from v (k : nat) : forall it (flag : boolean),
  let size := DefaultVectorTraits.GetSize (Vector.mVector v) in
  let position := VectorIterator.mPosition it in
  position <= size ->
  let moves := Nat.min k (N.to_nat (size - position)) in
  MoveNext_times k ((v, it), Some flag) =
  (replicate moves S_OK ++ replicate (k - moves) E_BOUNDS,
   ((v, {| VectorIterator.mVector := VectorIterator.mVector it;
           VectorIterator.mPosition := position + N.of_nat moves |}),
    Some (match moves with
          | O => flag
          | S _ => position + N.of_nat moves <? size
          end))).
Proof.
  pose proof (to_unsigned_lt (DefaultVectorTraits.size (Vector.mVector v))) as Hlt.
  fold (DefaultVectorTraits.GetSize (Vector.mVector v)) in Hlt.
  induction k as [|k IH]; intros it flag size position Hpos moves.
  - subst moves. cbn. destruct it as [h p]. cbn in *. subst position. cbn.
    rewrite N.add_0_r. reflexivity.
  - cbn [MoveNext_times]. rewrite MoveNext_run. fold size position.
    destruct (size <=? position) eqn:E.
    + apply N.leb_le in E. assert (position = size) as Heq by lia.
      cbn [fst snd]. pose proof (IH it flag Hpos) as IH'. cbn zeta in IH'.
      unfold IIterator.Obj, Frame, ptr, boolean in *.
      rewrite IH'. fold size position.
      subst moves. rewrite Heq, N.sub_diag. cbn.
      rewrite !Nat.min_0_r, Nat.sub_0_r. reflexivity.
    + apply N.leb_gt in E. cbn [fst snd].
      assert (Hadd : unsigned_add position 1 = position + 1)
        by (apply unsigned_add_small; subst size; lia).
      assert (Hpos' : VectorIterator.mPosition (advanced it) <= size)
        by (unfold advanced; cbn; fold position; lia).
      pose proof (IH (advanced it) (unsigned_add position 1 <? size) Hpos') as IH'.
      cbn zeta in IH'. unfold IIterator.Obj, Frame, ptr, boolean in *.
      rewrite IH'. fold size.
      unfold advanced. cbn [VectorIterator.mPosition VectorIterator.mVector].
      fold position. rewrite Hadd.
      subst moves.
      replace (N.to_nat (size - position))
        with (S (N.to_nat (size - (position + 1)))) by lia.
      cbn [Nat.min Nat.sub replicate app fst snd].
      set (m := Nat.min k (N.to_nat (size - (position + 1)))).
      replace (position + 1 + N.of_nat m) with (position + N.of_nat (S m)) by lia.
      destruct m; [|reflexivity].
      replace (position + N.of_nat 1) with (position + 1) by lia. reflexivity.
Qed.

(** X13: [k] calls of [MoveNext] on a new iterator over a collection of
    [size] elements: the first [min k size] succeed and move the iterator to
    position [min k size], every later one fails with [E_BOUNDS] and moves
    nothing, and the vector is untouched. After [k < size] calls
    [get_HasCurrent] answers [true] and [get_Current] the element at [k];
    after [size] or more calls [get_HasCurrent] answers [false] and
    [get_Current] fails with [E_BOUNDS]. *)
Theorem MoveNext_walks_to_the_end `{!ElementTraitsLaws T ElementType}
    v (this : handle) (k : nat) (flag : boolean) (cell : T) :
  DefaultVectorTraits.size (Vector.mVector v) < UINT_RANGE ->
  let size := N.to_nat (DefaultVectorTraits.size (Vector.mVector v)) in
  let r := MoveNext_times k ((v, VectorIterator.new this), Some flag) in
  fst r = replicate (Nat.min k size) S_OK ++ replicate (k - size) E_BOUNDS /\
  fst (snd r) = (v, {| VectorIterator.mVector := this;
                       VectorIterator.mPosition := N.of_nat (Nat.min k size) |}) /\
  ((k < size)%nat ->
   seen (IIterator.get_HasCurrent (fst (snd r), Some flag)) = (S_OK, Some true) /\
   forall item,
     Vector.mVector v !! k = Some (Wrap item) ->
     seen (IIterator.get_Current (fst (snd r), Some cell)) = (S_OK, Some item)) /\
  ((size <= k)%nat ->
   seen (IIterator.get_HasCurrent (fst (snd r), Some flag)) = (S_OK, Some false) /\
   seen (IIterator.get_Current (fst (snd r), Some cell))
   = (E_BOUNDS, Some zero_memory)).
Proof.
  intros Hfits size r. subst r.
  pose proof (GetSize_small _ Hfits) as Hsize.
  pose proof (MoveNext_times_from v k (VectorIterator.new this) flag
                (N.le_0_l _)) as Hwalk.
  cbn zeta in Hwalk. unfold IIterator.Obj, Frame, ptr, boolean in *.
  rewrite Hwalk.
  cbn [VectorIterator.new VectorIterator.mPosition VectorIterator.mVector fst snd].
  rewrite Hsize, N.sub_0_r, N.add_0_l. fold size.
  set (moves := Nat.min k size).
  assert (k - moves = k - size)%nat as -> by lia.
  split; [reflexivity|]. split; [reflexivity|]. split.
  - intros Hk. assert (moves = k) as -> by lia. split.
    + rewrite get_HasCurrent_run. unfold seen. cbn. rewrite Hsize.
      rewrite (proj2 (N.ltb_lt _ _)) by lia. reflexivity.
    + intros item Hitem. rewrite get_Current_seen. apply GetAt_seen_stored.
      cbn. rewrite Nat2N.id. exact Hitem.
  - intros Hk. assert (moves = size) as -> by lia. split.
    + rewrite get_HasCurrent_run. unfold seen. cbn. rewrite Hsize.
      rewrite (proj2 (N.ltb_ge _ _)) by lia. reflexivity.
    + rewrite get_Current_seen, GetAt_seen. cbn.
      rewrite (proj2 (lookup_ge_None _ _)); [reflexivity|].
      unfold size, DefaultVectorTraits.size. lia.
Qed.
End Walking.

(** ** Objects in the store *)

Section StoreFrame.
Context {T ElementType : Type} `{!AbiType T} `{!ElementTraits T ElementType}.

Implicit Types (w : World.t ElementType) (v : Vector.t ElementType)
  (c : Call T ElementType) (it : VectorIterator.t).

Lemma set_vector_same w (h : handle) v :
  World.vectors w !! h = Some v -> World.set_vector h v w = w.
Proof.
  intros Hv. destruct w as [vs views its]. unfold World.set_vector. cbn in *.
  rewrite insert_id by done. reflexivity.
Qed.

Lemma on_vector_reader {O} (this : handle) method (outs : O) w w' :
  world_of (World.on_vector this method outs w) = Some w' ->
  (forall v, fst (snd (method (v, outs))) = v) ->
  w' = w.
Proof.
  intros Hcall Hsame.
  destruct (World.on_vector this method outs w) as [[[hr outs'] w'']|] eqn:E;
    [|done].
  cbn in Hcall. injection Hcall as ->.
  apply on_vector_Some in E as (v & Hv & [= _ _ ->]).
  rewrite Hsame. apply set_vector_same, Hv.
Qed.

Lemma on_view_reader {O} (this : handle) method (outs : O) w w' :
  world_of (World.on_view this method outs w) = Some w' ->
  (forall v, fst (snd (method (v, outs))) = v) ->
  w' = w.
Proof.
  intros Hcall Hsame.
  destruct (World.on_view this method outs w) as [r|] eqn:E; [|done].
  apply on_view_Some in E as (view & Hview & E).
  apply (on_vector_reader (VectorView.mVector view) method outs); [|done].
  rewrite E. exact Hcall.
Qed.

Lemma on_iterator_reader {O} (this : handle) method (outs : O) w w' :
  world_of (World.on_iterator this method outs w) = Some w' ->
  (forall v it, fst (snd (method ((v, it), outs))) = (v, it)) ->
  w' = w.
Proof.
  intros Hcall Hsame.
  destruct (World.on_iterator this method outs w) as [[[hr outs'] w'']|] eqn:E;
    [|done].
  cbn in Hcall. injection Hcall as ->.
  apply on_iterator_Some in E as (it & v & Hit & Hv & [= _ _ ->]).
  rewrite Hsame. cbn [fst snd]. apply set_same; done.
Qed.

Lemma readers_keep_store c w w' :
  is_reader c = true -> invoke c w = Some w' -> w' = w.
Proof.
  destruct c; cbn [is_reader invoke]; try discriminate; intros _ Hcall.
  - apply (on_vector_reader _ _ _ _ _ Hcall). intros. apply get_Size_same.
  - apply (on_vector_reader _ _ _ _ _ Hcall). intros. apply GetAt_same.
  - apply (on_vector_reader _ _ _ _ _ Hcall). intros. apply IndexOf_same.
  - apply (on_view_reader _ _ _ _ _ Hcall). intros. apply get_Size_same.
  - apply (on_view_reader _ _ _ _ _ Hcall). intros. apply GetAt_same.
  - apply (on_view_reader _ _ _ _ _ Hcall). intros. apply IndexOf_same.
  - apply (on_iterator_reader _ _ _ _ _ Hcall). intros. apply get_Current_same.
  - apply (on_iterator_reader _ _ _ _ _ Hcall). intros. apply get_HasCurrent_same.
Qed.

Lemma on_vector_others {O} (this : handle) method (outs : O) w w' :
  world_of (World.on_vector this method outs w) = Some w' ->
  World.views w' = World.views w /\ World.iterators w' = World.iterators w.
Proof.
  intros Hcall.
  destruct (World.on_vector this method outs w) as [[[hr outs'] w'']|] eqn:E;
    [|done].
  cbn in Hcall. injection Hcall as ->.
  apply on_vector_Some in E as (v & Hv & [= _ _ ->]). split; reflexivity.
Qed.

Lemma on_view_others {O} (this : handle) method (outs : O) w w' :
  world_of (World.on_view this method outs w) = Some w' ->
  World.views w' = World.views w /\ World.iterators w' = World.iterators w.
Proof.
  intros Hcall.
  destruct (World.on_view this method outs w) as [r|] eqn:E; [|done].
  apply on_view_Some in E as (view & Hview & E).
  apply (on_vector_others (VectorView.mVector view) method outs). rewrite E. done.
Qed.

Lemma First_others (this : handle) alloc_ok first w w' :
  world_of (World.First this alloc_ok first w) = Some w' ->
  World.views w' = World.views w /\
  forall h it, World.iterators w !! h = Some it -> World.iterators w' !! h = Some it.
Proof.
  intros Hcall.
  destruct (World.First this alloc_ok first w) as [[[hr outs'] w'']|] eqn:E;
    [|done].
  cbn in Hcall. injection Hcall as ->.
  apply First_Some in E as (v & Hv & [E|E]); cbn in E; subst w';
    (split; [reflexivity|]); intros h it Hit; cbn; [done|].
  rewrite lookup_insert_ne; [done|].
  intros <-. rewrite fresh_handle_unused in Hit. done.
Qed.

Lemma on_iterator_others {O} (this : handle) method (outs : O) w w' :
  world_of (World.on_iterator this method outs w) = Some w' ->
  World.views w' = World.views w /\
  forall h it, h <> this ->
    World.iterators w !! h = Some it -> World.iterators w' !! h = Some it.
Proof.
  intros Hcall.
  destruct (World.on_iterator this method outs w) as [[[hr outs'] w'']|] eqn:E;
    [|done].
  cbn in Hcall. injection Hcall as ->.
  apply on_iterator_Some in E as (it & v & Hit & Hv & [= _ _ ->]).
  split; [reflexivity|]. intros h it0 Hne Hit0. cbn.
  rewrite lookup_insert_ne; done.
Qed.

(** X14: A call changes nothing but what it is made on. The getters of the
    three classes leave the whole store as it was. Any call leaves every
    view as it was, every vector other than the one it works on, and every
    iterator, except that [MoveNext] may move the iterator it is called on.
    No object ever leaves the store. *)
Theorem calls_touch_only_their_receiver c w w' :
  invoke c w = Some w' ->
  (is_reader c = true -> w' = w) /\
  (forall h view, World.views w !! h = Some view -> World.views w' !! h = Some view) /\
  (forall h v,
      World.vectors w !! h = Some v -> receiver c w <> Some h ->
      World.vectors w' !! h = Some v) /\
  (forall h it,
      World.iterators w !! h = Some it -> moves_iterator h c = false ->
      World.iterators w' !! h = Some it) /\
  (forall h, is_Some (World.vectors w !! h) -> is_Some (World.vectors w' !! h)).
Proof.
  intros Hcall.
  split; [intros Hreader; apply (readers_keep_store c); done|].
  destruct (invoke_step c w w' Hcall) as [Hvec _].
  assert (Hvectors : forall h v,
             World.vectors w !! h = Some v -> receiver c w <> Some h ->
             World.vectors w' !! h = Some v).
  { intros h v Hv Hrecv. destruct (Hvec h v Hv) as (v' & Hv' & _ & Hsame & _).
    rewrite Hv', (Hsame Hrecv). reflexivity. }
  assert (Hlive : forall h, is_Some (World.vectors w !! h) ->
                            is_Some (World.vectors w' !! h)).
  { intros h [v Hv]. destruct (Hvec h v Hv) as (v' & Hv' & _). eauto. }
  assert (Hrest :
    (forall h view, World.views w !! h = Some view ->
                    World.views w' !! h = Some view) /\
    (forall h it, World.iterators w !! h = Some it -> moves_iterator h c = false ->
                  World.iterators w' !! h = Some it)); [|tauto].
  clear Hvec Hvectors Hlive.
  assert (Hsame : World.views w' = World.views w /\
                  World.iterators w' = World.iterators w ->
                  (forall h view, World.views w !! h = Some view ->
                                  World.views w' !! h = Some view) /\
                  (forall h it, World.iterators w !! h = Some it ->
                                moves_iterator h c = false ->
                                World.iterators w' !! h = Some it)).
  { intros [-> ->]. auto. }
  destruct c; cbn [invoke moves_iterator] in *;
    try (apply Hsame; first [ apply (on_vector_others _ _ _ _ _ Hcall)
                            | apply (on_view_others _ _ _ _ _ Hcall) ]).
  - (* New_Vector *) injection Hcall as <-. auto.
  - (* GetView *)
    unfold World.GetView in Hcall.
    destruct (World.vectors w !! this) as [v|]; [|done].
    rewrite GetView_run in Hcall.
    destruct view, alloc_ok; cbn in Hcall; injection Hcall as <-; cbn; auto.
    split; [|auto]. intros h vw Hvw.
    rewrite lookup_insert_ne; [done|].
    intros <-. rewrite fresh_handle_unused in Hvw. done.
  - (* First *)
    destruct (First_others _ _ _ _ _ Hcall) as [-> Hits]. auto.
  - (* View_First *)
    destruct (World.View_First this alloc_ok first w) as [r|] eqn:E; [|done].
    apply View_First_Some in E as (view & Hview & E).
    rewrite <- E in Hcall.
    destruct (First_others _ _ _ _ _ Hcall) as [-> Hits]. auto.
  - (* get_Current *)
    rewrite (on_iterator_reader _ _ _ _ _ Hcall); [auto|].
    intros. apply get_Current_same.
  - (* get_HasCurrent *)
    rewrite (on_iterator_reader _ _ _ _ _ Hcall); [auto|].
    intros. apply get_HasCurrent_same.
  - (* MoveNext *)
    destruct (on_iterator_others _ _ _ _ _ Hcall) as [-> Hits].
    split; [auto|]. intros h it Hit Hmoves. apply Hits; [|done].
    intros ->. rewrite bool_decide_eq_true_2 in Hmoves; done.
Qed.
End StoreFrame.

(** ** Making iterators and views *)

Section Factories.
Context {T ElementType : Type} `{!AbiType T} `{!ElementTraits T ElementType}.

Implicit Types (w : World.t ElementType) (v : Vector.t ElementType).

Lemma on_view_run {O} (h : handle) (vector : handle) method (outs : O) w :
  World.views w !! h = Some (VectorView.new vector) ->
  World.on_view h method outs w = World.on_vector vector method outs w.
Proof. intros Hview. unfold World.on_view. rewrite Hview. reflexivity. Qed.

Lemma on_vector_run {O} (this : handle) v method (outs : O) w :
  World.vectors w !! this = Some v ->
  World.on_vector this method outs w
  = Some (fst (method (v, outs)), snd (snd (method (v, outs))),
          World.set_vector this (fst (snd (method (v, outs)))) w).
Proof.
  intros Hv. unfold World.on_vector. rewrite Hv.
  destruct (method (v, outs)) as [hr [v' outs']]. reflexivity.
Qed.

(** X15: [First] on a vector of the store makes a new iterator at position
    0 on that vector, under a handle no iterator had, hands the handle out,
    and leaves the vector, the views and the other iterators as they were;
    the new iterator has a current element exactly when the vector is not
    empty. When the allocation fails [First] returns [E_OUTOFMEMORY], hands
    out null and makes nothing; with a null output pointer it returns
    [E_INVALIDARG] and makes nothing. [First] through a view does what
    [First] on the wrapped vector does. *)
Theorem First_makes_an_iterator w (this : handle) v
    (cell : option handle) (flag : boolean) :
  World.vectors w !! this = Some v ->
  let h := fresh (dom (World.iterators w)) in
  let w' := World.set_iterators
              (<[h := VectorIterator.new this]> (World.iterators w)) w in
  World.iterators w !! h = None /\
  World.First this true (Some cell) w = Some (S_OK, Some (Some h), w') /\
  World.on_iterator h IIterator.get_HasCurrent (Some flag) w'
  = Some (S_OK, Some (0 <? DefaultVectorTraits.GetSize (Vector.mVector v)), w') /\
  World.First this false (Some cell) w = Some (E_OUTOFMEMORY, Some None, w) /\
  (forall alloc_ok, World.First this alloc_ok None w = Some (E_INVALIDARG, None, w)) /\
  (forall view alloc_ok first,
      World.views w !! view = Some (VectorView.new this) ->
      World.View_First view alloc_ok first w = World.First this alloc_ok first w).
Proof.
  intros Hv h w'.
  assert (Hw : World.set_iterators (World.iterators w) (World.set_vector this v w) = w).
  { rewrite set_vector_same by done. destruct w. reflexivity. }
  split; [apply fresh_handle_unused|]. split; [|split; [|split; [|split]]].
  - unfold World.First. rewrite Hv, First_run. subst w' h.
    rewrite set_vector_same by done. reflexivity.
  - unfold World.on_iterator. subst w'. cbn [World.iterators World.set_iterators].
    rewrite lookup_insert_eq. cbn [VectorIterator.new VectorIterator.mVector
      World.vectors World.set_iterators]. rewrite Hv, get_HasCurrent_run.
    cbn [VectorIterator.mPosition].
    rewrite set_vector_same by done. cbn [World.set_iterators World.iterators].
    rewrite insert_insert_eq. reflexivity.
  - unfold World.First. rewrite Hv, First_run, Hw. reflexivity.
  - intros alloc_ok. unfold World.First. rewrite Hv, First_run, Hw. reflexivity.
  - intros view alloc_ok first Hview.
    unfold World.View_First, World.First, IVectorView.First.
    rewrite Hview. reflexivity.
Qed.

(** X16: [GetView] on a vector of the store makes a new view of that
    vector under a handle no view had, and leaves the vector as it was. The
    view is live: it answers [get_Size] with the size the vector has when
    asked, so after an [Append] on the vector it reports one element more
    and answers [GetAt] at the old size with the appended item. *)
Theorem GetView_makes_a_live_view `{!ElementTraitsLaws T ElementType}
    w (this : handle) v (cell : option handle) (item : T)
    (size_cell : unsigned) (item_cell : T) :
  World.vectors w !! this = Some v ->
  Vector.isFixedSize v = false ->
  DefaultVectorTraits.size (Vector.mVector v) + 1 < UINT_RANGE ->
  let size := DefaultVectorTraits.size (Vector.mVector v) in
  let h := fresh (dom (World.views w)) in
  let w1 := World.set_views (<[h := VectorView.new this]> (World.views w)) w in
  let w2 := World.set_vector this
              (with_contents v (Vector.mVector v ++ [Wrap item])) w1 in
  World.views w !! h = None /\
  World.GetView this true (Some cell) w = Some (S_OK, Some (Some h), w1) /\
  World.on_view h IVectorView.get_Size (Some size_cell) w1
  = Some (S_OK, Some size, w1) /\
  World.on_vector this (Vector.Append item) tt w1 = Some (S_OK, tt, w2) /\
  World.on_view h IVectorView.get_Size (Some size_cell) w2
  = Some (S_OK, Some (size + 1), w2) /\
  World.on_view h (IVectorView.GetAt size) (Some item_cell) w2
  = Some (S_OK, Some item, w2).
Proof.
  intros Hv Hfixed Hfits size h w1 w2.
  assert (Hview1 : World.views w1 !! h = Some (VectorView.new this))
    by (subst w1; cbn; apply lookup_insert_eq).
  assert (Hv1 : World.vectors w1 !! this = Some v) by (subst w1; cbn; done).
  assert (Hview2 : World.views w2 !! h = Some (VectorView.new this))
    by (subst w2; cbn; done).
  assert (Hv2 : World.vectors w2 !! this
                = Some (with_contents v (Vector.mVector v ++ [Wrap item])))
    by (subst w2; cbn; apply lookup_insert_eq).
  assert (Hsize2 : DefaultVectorTraits.size (Vector.mVector v ++ [Wrap item])
                   = size + 1).
  { subst size. unfold DefaultVectorTraits.size. rewrite length_app. cbn. lia. }
  split; [apply fresh_handle_unused|]. split; [|split; [|split; [|split]]].
  - unfold World.GetView. rewrite Hv, GetView_run. subst w1 h.
    rewrite set_vector_same by done. reflexivity.
  - rewrite (on_view_run h this) by done.
    rewrite (on_vector_run this v) by done.
    unfold IVectorView.get_Size. rewrite get_Size_run. cbn [fst snd].
    rewrite set_vector_same by done.
    rewrite GetSize_small by (fold size; lia). reflexivity.
  - rewrite (on_vector_run this v) by done.
    rewrite Append_run, Hfixed. reflexivity.
  - rewrite (on_view_run h this) by done.
    rewrite (on_vector_run this _ _ _ _ Hv2).
    unfold IVectorView.get_Size. rewrite get_Size_run. cbn [fst snd].
    rewrite set_vector_same by done.
    cbn [with_contents Vector.mVector].
    rewrite GetSize_small by (rewrite Hsize2; done). rewrite Hsize2. reflexivity.
  - rewrite (on_view_run h this) by done.
    rewrite (on_vector_run this _ _ _ _ Hv2).
    unfold IVectorView.GetAt.
    assert (Hitem : Vector.mVector
                      (with_contents v (Vector.mVector v ++ [Wrap item]))
                    !! N.to_nat size = Some (Wrap item)).
    { cbn. subst size. unfold DefaultVectorTraits.size. rewrite Nat2N.id.
      apply list_lookup_middle. reflexivity. }
    rewrite (GetAt_stored _ size item item_cell Hitem). cbn [fst snd].
    rewrite set_vector_same by done. reflexivity.
Qed.
End Factories.

(** ** Counting live objects *)

Section Lifespan.
Variable size_bits : N.
Variable name : LifespanInfo.type_index -> list N.

Local Notation "'RANGE'" := (LifespanInfo.SIZE_RANGE size_bits).

Implicit Types (m_state : LifespanInfo.State) (type : LifespanInfo.type_index).

Lemma SIZE_RANGE_pos : 0 < RANGE.
Proof.
  unfold LifespanInfo.SIZE_RANGE.
  assert (2 ^ size_bits <> 0) by (apply N.pow_nonzero; lia). lia.
Qed.

Lemma decrement_increment (n : N) :
  n < RANGE ->
  LifespanInfo.decrement size_bits (LifespanInfo.increment size_bits n) = n.
Proof.
  intros Hn. pose proof SIZE_RANGE_pos as Hpos.
  unfold LifespanInfo.decrement, LifespanInfo.increment.
  destruct (decide (n + 1 = RANGE)) as [Heq|Hne].
  - rewrite Heq, N.Div0.mod_same, N.add_0_l, N.mod_small by lia. lia.
  - rewrite (N.mod_small (n + 1)) by lia.
    replace (n + 1 + RANGE - 1) with (n + 1 * RANGE) by lia.
    rewrite N.Div0.mod_add. apply N.mod_small. lia.
Qed.

Lemma increment_decrement (n : N) :
  n < RANGE ->
  LifespanInfo.increment size_bits (LifespanInfo.decrement size_bits n) = n.
Proof.
  intros Hn. pose proof SIZE_RANGE_pos as Hpos.
  unfold LifespanInfo.decrement, LifespanInfo.increment.
  destruct (decide (n = 0)) as [->|Hne].
  - rewrite N.add_0_l, (N.mod_small (RANGE - 1)) by lia.
    replace (RANGE - 1 + 1) with RANGE by lia. apply N.Div0.mod_same.
  - replace (n + RANGE - 1) with (n - 1 + 1 * RANGE) by lia.
    rewrite N.Div0.mod_add, (N.mod_small (n - 1)) by lia.
    replace (n - 1 + 1) with n by lia. apply N.mod_small. lia.
Qed.

Lemma count_insert m_state type type' (c : N) :
  LifespanInfo.count {| LifespanInfo.objectCounts :=
             <[type := c]> (LifespanInfo.objectCounts m_state) |} type'
  = if decide (type = type') then c else LifespanInfo.count m_state type'.
Proof.
  unfold LifespanInfo.count. cbn. rewrite lookup_insert.
  destruct (decide (type = type')); reflexivity.
Qed.

(** The total of a report does not depend on the order of the list. *)
Lemma total_Permutation (l k : list (LifespanInfo.type_index * N)) :
  l ≡ₚ k ->
  forall a,
    foldl (fun total typeAndCount => LifespanInfo.add size_bits total (snd typeAndCount))
          a l
    = foldl (fun total typeAndCount => LifespanInfo.add size_bits total (snd typeAndCount))
            a k.
Proof.
  induction 1 as [|x l k _ IH|x y l|l k j _ IH1 _ IH2]; intros a; cbn.
  - reflexivity.
  - apply IH.
  - f_equal. unfold LifespanInfo.add.
    rewrite !N.Div0.add_mod_idemp_l. f_equal. lia.
  - rewrite IH1. apply IH2.
Qed.

Lemma report_Permutation m_state m_state' :
  filter (fun p : LifespanInfo.type_index * N => 0 < snd p)
         (map_to_list (LifespanInfo.objectCounts m_state))
  ≡ₚ filter (fun p : LifespanInfo.type_index * N => 0 < snd p)
            (map_to_list (LifespanInfo.objectCounts m_state')) ->
  LifespanInfo.ReportLiveObjectsNoLock size_bits name m_state
  = LifespanInfo.ReportLiveObjectsNoLock size_bits name m_state'.
Proof.
  intros Hperm. unfold LifespanInfo.ReportLiveObjectsNoLock. cbn zeta.
  set (l := merge_sort _ (filter _ (map_to_list (LifespanInfo.objectCounts m_state)))).
  set (k := merge_sort _ (filter _ (map_to_list (LifespanInfo.objectCounts m_state')))).
  assert (Hlk : l ≡ₚ k).
  { subst l k. rewrite !merge_sort_Permutation. exact Hperm. }
  destruct l as [|x l], k as [|y k].
  - reflexivity.
  - apply Permutation_nil_l in Hlk. discriminate.
  - apply Permutation_nil_r in Hlk. discriminate.
  - f_equal. apply total_Permutation. exact Hlk.
Qed.

(** X17: [RemoveObject] undoes [AddObject]: after both, every type has the
    count it had and [ReportLiveObjects] reports what it reported before,
    even though a type seen for the first time now has an entry with count
    0. In between, the type counts one more. *)
Theorem RemoveObject_undoes_AddObject m_state type (t1 b1 t2 b2 : bool) :
  LifespanInfo.count m_state type < RANGE ->
  let added := fst (LifespanInfo.AddObject size_bits type t1 b1 m_state) in
  let removed := fst (LifespanInfo.RemoveObject size_bits type t2 b2 added) in
  LifespanInfo.count added type = LifespanInfo.increment size_bits (LifespanInfo.count m_state type) /\
  (forall type', type' <> type -> LifespanInfo.count added type' = LifespanInfo.count m_state type') /\
  (forall type', LifespanInfo.count removed type' = LifespanInfo.count m_state type') /\
  LifespanInfo.ReportLiveObjects size_bits name removed
  = LifespanInfo.ReportLiveObjects size_bits name m_state.
Proof.
  intros Hcount added removed.
  assert (Hadded : LifespanInfo.count added type
                   = LifespanInfo.increment size_bits (LifespanInfo.count m_state type)).
  { subst added. unfold LifespanInfo.AddObject. cbn [fst].
    rewrite count_insert, decide_True; done. }
  split; [exact Hadded|]. split; [|split].
  - intros type' Hne. subst added. unfold LifespanInfo.AddObject. cbn [fst].
    rewrite count_insert, decide_False; done.
  - intros type'. subst removed. unfold LifespanInfo.RemoveObject. cbn [fst].
    rewrite count_insert, Hadded, decrement_increment by done.
    destruct (decide (type = type')) as [->|Hne]; [reflexivity|].
    subst added. unfold LifespanInfo.AddObject. cbn [fst].
    rewrite count_insert, decide_False; done.
  - unfold LifespanInfo.ReportLiveObjects. apply report_Permutation.
    subst removed. unfold LifespanInfo.RemoveObject. cbn [fst LifespanInfo.objectCounts].
    rewrite Hadded, decrement_increment by done.
    subst added. unfold LifespanInfo.AddObject. cbn [fst LifespanInfo.objectCounts].
    rewrite insert_insert_eq.
    unfold LifespanInfo.count.
    destruct (LifespanInfo.objectCounts m_state !! type) as [c|] eqn:Hc; cbn.
    + rewrite insert_id by done. reflexivity.
    + rewrite map_to_list_insert by done.
      rewrite filter_cons_False by (cbn; lia). reflexivity.
Qed.

Lemma total_is_sum (l : list (LifespanInfo.type_index * N)) :
  forall a,
    foldl (fun total typeAndCount => LifespanInfo.add size_bits total (snd typeAndCount))
          a l
    = match l with
      | [] => a
      | _ :: _ => (a + foldr (fun typeAndCount total => snd typeAndCount + total) 0 l)
                  mod RANGE
      end.
Proof.
  induction l as [|x l IH]; intros a; [reflexivity|].
  cbn [foldl foldr]. rewrite IH. unfold LifespanInfo.add.
  destruct l as [|y l].
  - cbn. f_equal. lia.
  - rewrite N.Div0.add_mod_idemp_l. f_equal. lia.
Qed.

Lemma sum_of_live (l : list (LifespanInfo.type_index * N)) :
  foldr (fun typeAndCount total => snd typeAndCount + total) 0
        (filter (fun p : LifespanInfo.type_index * N => 0 < snd p) l)
  = foldr (fun typeAndCount total => snd typeAndCount + total) 0 l.
Proof.
  induction l as [|x l IH]; [reflexivity|].
  destruct (decide (0 < snd x)) as [Hx|Hx].
  - rewrite filter_cons_True by done. cbn. rewrite IH. reflexivity.
  - rewrite filter_cons_False by done. cbn. rewrite IH. lia.
Qed.

Lemma live_exists m_state :
  filter (fun p : LifespanInfo.type_index * N => 0 < snd p)
         (map_to_list (LifespanInfo.objectCounts m_state)) <> []
  <-> exists type, 0 < LifespanInfo.count m_state type.
Proof.
  unfold LifespanInfo.count. split.
  - intros Hne.
    destruct (filter _ _) as [|[type c] l] eqn:Hl; [done|].
    assert (Hin : (type, c) ∈ filter (fun p : LifespanInfo.type_index * N => 0 < snd p)
                    (map_to_list (LifespanInfo.objectCounts m_state))).
    { rewrite Hl. left. }
    apply list_elem_of_filter in Hin as [Hc Hin].
    apply elem_of_map_to_list in Hin. exists type. rewrite Hin. exact Hc.
  - intros [type Hc] Hnil.
    destruct (LifespanInfo.objectCounts m_state !! type) as [c|] eqn:Hlook;
      cbn in Hc; [|lia].
    assert (Hin : (type, c) ∈ filter (fun p : LifespanInfo.type_index * N => 0 < snd p)
                    (map_to_list (LifespanInfo.objectCounts m_state))).
    { apply list_elem_of_filter. split; [exact Hc|].
      apply elem_of_map_to_list. exact Hlook. }
    rewrite Hnil in Hin. inversion Hin.
Qed.

(** X18: [ReportLiveObjects] writes its header exactly when some type has
    a count above 0, and returns the sum of all the counts, wrapped to the
    width of [size_t]; in whatever order the map and the sort present the
    types. With nothing live it returns 0; after [Reset] nothing is
    live. *)
Theorem ReportLiveObjects_adds_up m_state :
  let report := LifespanInfo.ReportLiveObjects size_bits name m_state in
  (fst report = true <-> exists type, 0 < LifespanInfo.count m_state type) /\
  snd report = LifespanInfo.all_counts m_state mod RANGE /\
  (fst report = false -> snd report = 0) /\
  LifespanInfo.ReportLiveObjects size_bits name (LifespanInfo.Reset m_state) = (false, 0).
Proof.
  cbn zeta. unfold LifespanInfo.ReportLiveObjects, LifespanInfo.ReportLiveObjectsNoLock.
  cbn zeta. rewrite <- live_exists. unfold LifespanInfo.all_counts.
  rewrite <- sum_of_live.
  set (live := filter _ (map_to_list (LifespanInfo.objectCounts m_state))).
  set (sorted := merge_sort _ live).
  assert (Hperm : sorted ≡ₚ live) by apply merge_sort_Permutation.
  split; [|split; [|split]].
  - destruct sorted as [|x l]; cbn.
    + apply Permutation_nil_l in Hperm. rewrite <- Hperm. split; done.
    + split; [|done]. intros _ Hnil. rewrite Hnil in Hperm.
      apply Permutation_nil_r in Hperm. discriminate.
  - destruct sorted as [|x l] eqn:Hsorted.
    + apply Permutation_nil_l in Hperm. rewrite <- Hperm. cbn.
      symmetry. apply N.Div0.mod_0_l.
    + cbn [snd]. rewrite (total_Permutation _ _ Hperm), total_is_sum.
      destruct live as [|y k]; [|reflexivity].
      apply Permutation_nil_r in Hperm. discriminate.
  - destruct sorted; cbn; [reflexivity|discriminate].
  - reflexivity.
Qed.

Lemma count_track m_state (e : LifespanInfo.event) type :
  LifespanInfo.count (LifespanInfo.track size_bits m_state e) type
  = match e with
    | LifespanInfo.Constructed t =>
        if decide (t = type)
        then LifespanInfo.increment size_bits (LifespanInfo.count m_state type)
        else LifespanInfo.count m_state type
    | LifespanInfo.Destroyed t =>
        if decide (t = type)
        then LifespanInfo.decrement size_bits (LifespanInfo.count m_state type)
        else LifespanInfo.count m_state type
    end.
Proof.
  destruct e as [t|t]; cbn;
    unfold LifespanInfo.construct, LifespanInfo.destruct_,
      LifespanInfo.AddObject, LifespanInfo.RemoveObject; cbn [fst];
    rewrite count_insert; destruct (decide (t = type)) as [->|]; reflexivity.
Qed.

(** X19: the count of a type after any sequence of constructions and
    destructions of tracked objects is its count before, plus the objects
    of the type constructed, minus those destroyed, modulo the range of
    [size_t]: the order of the events and the other types do not matter,
    as many destructions as constructions give the count back, and a
    destruction at count 0 wraps to the largest [size_t]. *)
Theorem counts_follow_events m_state (events : list LifespanInfo.event) type :
  LifespanInfo.count m_state type < RANGE ->
  let after := foldl (LifespanInfo.track size_bits) m_state events in
  Z.of_N (LifespanInfo.count after type)
  = ((Z.of_N (LifespanInfo.count m_state type)
      + Z.of_nat (LifespanInfo.constructed type events)
      - Z.of_nat (LifespanInfo.destroyed type events))
     mod Z.of_N RANGE)%Z /\
  (LifespanInfo.constructed type events = LifespanInfo.destroyed type events ->
   LifespanInfo.count after type = LifespanInfo.count m_state type) /\
  (LifespanInfo.count after type = 0 ->
   LifespanInfo.count (LifespanInfo.destruct_ size_bits type after) type = RANGE - 1).
Proof.
  intros Hcount after. pose proof SIZE_RANGE_pos as Hpos.
  assert (Hformula :
    Z.of_N (LifespanInfo.count after type)
    = ((Z.of_N (LifespanInfo.count m_state type)
        + Z.of_nat (LifespanInfo.constructed type events)
        - Z.of_nat (LifespanInfo.destroyed type events))
       mod Z.of_N RANGE)%Z).
  { subst after. revert m_state Hcount.
    induction events as [|e events IH]; intros m_state Hcount.
    - cbn. rewrite Z.add_0_r, Z.sub_0_r, Z.mod_small by lia. reflexivity.
    - cbn [foldl]. rewrite IH.
      2:{ rewrite count_track.
          destruct e as [t|t]; destruct (decide (t = type)); try done;
            unfold LifespanInfo.increment, LifespanInfo.decrement;
            apply N.mod_upper_bound; lia. }
      rewrite count_track.
      unfold LifespanInfo.constructed, LifespanInfo.destroyed.
      destruct e as [t|t]; cbn [List.filter];
        destruct (decide (t = type)) as [->|Hne].
      + rewrite bool_decide_eq_true_2 by done. cbn [length].
        unfold LifespanInfo.increment. rewrite N2Z.inj_mod, N2Z.inj_add.
        rewrite Zminus_mod_idemp_l || idtac.
        rewrite <- Z.add_sub_assoc, Z.add_mod_idemp_l by lia.
        f_equal. lia.
      + rewrite bool_decide_eq_false_2 by done. reflexivity.
      + rewrite bool_decide_eq_true_2 by done. cbn [length].
        unfold LifespanInfo.decrement. rewrite N2Z.inj_mod, N2Z.inj_sub, N2Z.inj_add by lia.
        rewrite <- Z.add_sub_assoc, Z.add_mod_idemp_l by lia.
        replace (Z.of_N (LifespanInfo.count m_state type) + Z.of_N RANGE - Z.of_N 1
                 + (Z.of_nat (length (List.filter _ events))
                    - Z.of_nat (length (List.filter _ events))))%Z
          with (Z.of_N (LifespanInfo.count m_state type)
                + Z.of_nat (length (List.filter
                     (fun e => match e with
                               | LifespanInfo.Constructed t => bool_decide (t = type)
                               | LifespanInfo.Destroyed _ => false
                               end) events))
                - Z.of_nat (S (length (List.filter
                     (fun e => match e with
                               | LifespanInfo.Destroyed t => bool_decide (t = type)
                               | LifespanInfo.Constructed _ => false
                               end) events)))
                + 1 * Z.of_N RANGE)%Z by lia.
        apply Z.mod_add. lia.
      + rewrite bool_decide_eq_false_2 by done. reflexivity. }
  split; [exact Hformula|]. split.
  - intros Hsame. apply N2Z.inj. rewrite Hformula, Hsame.
    rewrite Z.add_simpl_r. apply Z.mod_small. lia.
  - intros Hzero. unfold LifespanInfo.destruct_, LifespanInfo.RemoveObject. cbn [fst].
    rewrite count_insert, decide_True by done. rewrite Hzero.
    unfold LifespanInfo.decrement. rewrite N.add_0_l. apply N.mod_small. lia.
Qed.
End Lifespan.

(** ** Checks inside an exception boundary *)

(** X20: a check that fails ends the body at once: the boundary returns the
    status of the check and the state at the check, and nothing after it
    runs. [ThrowIfFailed] passes a failure code through unchanged and lets
    every other code continue, [CheckInPointer] and
    [CheckAndClearOutPointer] give [E_INVALIDARG] on a null pointer (the
    second clears the target before the body continues), and
    [CheckMakeResult] gives [E_OUTOFMEMORY] on a null result. *)
Theorem checks_stop_the_body {S A : Type} (fn : M S unit) (s : S) (hr : HRESULT)
    (p : Pointer S A) (q : Pointer S (option A)) (result : option A) :
  ExceptionBoundary (ThrowIfFailed hr ;; fn) s
  = (if FAILED hr then (hr, s) else ExceptionBoundary fn s) /\
  (fst (ExceptionBoundary (ThrowIfFailed hr) s) = S_OK <-> FAILED hr = false) /\
  ExceptionBoundary (CheckInPointer p ;; fn) s
  = match load p s with
    | None => (E_INVALIDARG, s)
    | Some _ => ExceptionBoundary fn s
    end /\
  ExceptionBoundary (CheckAndClearOutPointer q ;; fn) s
  = match load q s with
    | None => (E_INVALIDARG, s)
    | Some _ => ExceptionBoundary fn (store q None s)
    end /\
  ExceptionBoundary (CheckMakeResult result ;; fn) s
  = match result with
    | None => (E_OUTOFMEMORY, s)
    | Some _ => ExceptionBoundary fn s
    end.
Proof.
  split; [|split; [|split; [|split]]].
  - unfold_monad. destruct (FAILED hr); reflexivity.
  - unfold_monad. unfold FAILED, S_OK. destruct (hr <? 0)%Z eqn:Hhr; cbn.
    + split; [|discriminate]. intros ->. discriminate.
    + split; reflexivity.
  - unfold_monad. cbn. destruct (load p s); reflexivity.
  - unfold_monad. cbn. destruct (load q s); reflexivity.
  - unfold_monad. destruct result; reflexivity.
Qed.

(** ** The further properties at work on the examples *)

Lemma SetAt_then_GetAt_witness :
  1 < DefaultVectorTraits.size (Vector.mVector Examples.resizable) /\
  exists v',
    Vector.SetAt 1 99 (Examples.resizable, tt) = (S_OK, (v', tt)) /\
    seen (Vector.GetAt 1 (v', Some 0)) = (S_OK, Some 99) /\
    seen (Vector.GetAt 2 (v', Some 0)) = (S_OK, Some 30).
Proof.
  assert (H : 1 < DefaultVectorTraits.size (Vector.mVector Examples.resizable))
    by (vm_compute; reflexivity).
  split; [exact H|].
  destruct (@SetAt_then_GetAt _ _ _ _ ElementTraits_T_laws Examples.resizable 1 99 0 H)
    as (v' & Hrun & _ & Hget & Hothers).
  exists v'. split; [exact Hrun|]. split; [exact Hget|].
  etransitivity; [apply (Hothers 2); discriminate|reflexivity].
Defined.

Lemma Append_then_GetAt_witness :
  Vector.isFixedSize Examples.resizable = false /\
  exists v',
    Vector.Append 40 (Examples.resizable, tt) = (S_OK, (v', tt)) /\
    seen (Vector.GetAt 3 (v', Some 0)) = (S_OK, Some 40) /\
    seen (Vector.GetAt 0 (v', Some 0)) = (S_OK, Some 10) /\
    seen (Vector.get_Size (v', Some 0)) = (S_OK, Some 4).
Proof.
  split; [reflexivity|].
  pose proof (@Append_then_GetAt _ _ _ _ ElementTraits_T_laws
                Examples.resizable 40 0 0 eq_refl) as P.
  cbv zeta in P. destruct P as (v' & Hrun & Hlast & Hkept & Hsize).
  exists v'. split; [exact Hrun|]. split; [exact Hlast|]. split.
  - etransitivity; [apply (Hkept 0); vm_compute; reflexivity|reflexivity].
  - apply Hsize. vm_compute. reflexivity.
Defined.

Lemma InsertAt_shifts_up_witness :
  Vector.isFixedSize Examples.resizable = false /\
  1 <= DefaultVectorTraits.size (Vector.mVector Examples.resizable) /\
  exists v',
    Vector.InsertAt 1 15 (Examples.resizable, tt) = (S_OK, (v', tt)) /\
    seen (Vector.GetAt 0 (v', Some 0)) = (S_OK, Some 10) /\
    seen (Vector.GetAt 1 (v', Some 0)) = (S_OK, Some 15) /\
    seen (Vector.GetAt 2 (v', Some 0)) = (S_OK, Some 20).
Proof.
  assert (H : 1 <= DefaultVectorTraits.size (Vector.mVector Examples.resizable))
    by (vm_compute; discriminate).
  split; [reflexivity|]. split; [exact H|].
  destruct (@InsertAt_shifts_up _ _ _ _ ElementTraits_T_laws
              Examples.resizable 1 15 0 eq_refl H)
    as (v' & Hrun & _ & Hget & Hbelow & Habove).
  exists v'. split; [exact Hrun|]. split; [|split; [exact Hget|]].
  - etransitivity; [apply (Hbelow 0); vm_compute; reflexivity|reflexivity].
  - exact (eq_trans (Habove 1 (N.le_refl 1)) eq_refl).
Defined.

Lemma RemoveAt_shifts_down_witness :
  Vector.isFixedSize Examples.resizable = false /\
  1 < DefaultVectorTraits.size (Vector.mVector Examples.resizable) /\
  (exists v',
      Vector.RemoveAt 1 (Examples.resizable, tt) = (S_OK, (v', tt)) /\
      seen (Vector.GetAt 1 (v', Some 0)) = (S_OK, Some 30)) /\
  (exists v' v'',
      Vector.InsertAt 1 15 (Examples.resizable, tt) = (S_OK, (v', tt)) /\
      Vector.RemoveAt 1 (v', tt) = (S_OK, (v'', tt)) /\
      Vector.mVector v'' = [10; 20; 30]).
Proof.
  assert (H : 1 < DefaultVectorTraits.size (Vector.mVector Examples.resizable))
    by (vm_compute; reflexivity).
  split; [reflexivity|]. split; [exact H|].
  destruct (RemoveAt_shifts_down Examples.resizable 1 15 0 eq_refl) as [Hremove Hback].
  split.
  - destruct (Hremove H) as (v' & Hrun & _ & _ & Habove).
    exists v'. split; [exact Hrun|].
    etransitivity; [apply (Habove 1); vm_compute; discriminate|reflexivity].
  - destruct Hback as (v' & v'' & Hinsert & Hrun & Hsame);
      [vm_compute; discriminate|].
    exists v', v''. split; [exact Hinsert|]. split; [exact Hrun|]. exact Hsame.
Defined.

Lemma RemoveAtEnd_removes_last_witness :
  Vector.isFixedSize Examples.resizable = false /\
  0 < DefaultVectorTraits.size (Vector.mVector Examples.resizable) /\
  DefaultVectorTraits.size (Vector.mVector Examples.resizable) < UINT_RANGE /\
  (exists v',
      Vector.RemoveAtEnd (Examples.resizable, tt) = (S_OK, (v', tt)) /\
      DefaultVectorTraits.size (Vector.mVector v') = 2 /\
      seen (Vector.GetAt 1 (v', Some 0)) = (S_OK, Some 20) /\
      seen (Vector.GetAt 2 (v', Some 7)) = (E_BOUNDS, Some 0)) /\
  (exists v' v'',
      Vector.Append 40 (Examples.resizable, tt) = (S_OK, (v', tt)) /\
      Vector.RemoveAtEnd (v', tt) = (S_OK, (v'', tt)) /\
      Vector.mVector v'' = [10; 20; 30]).
Proof.
  split; [reflexivity|]. split; [reflexivity|]. split; [reflexivity|].
  pose proof (RemoveAtEnd_removes_last Examples.resizable 40 7 eq_refl) as P.
  cbv zeta in P. destruct P as [Hremove Hback]. split.
  - destruct (Hremove eq_refl eq_refl) as (v' & Hrun & Hsize & Hkept & Hlast).
    exists v'. split; [exact Hrun|]. split; [exact Hsize|]. split; [|exact Hlast].
    pose proof (RemoveAtEnd_removes_last Examples.resizable 40 0 eq_refl) as P0.
    cbv zeta in P0. destruct (proj1 P0 eq_refl eq_refl) as (v0 & Hrun0 & _ & Hkept0 & _).
    assert (v0 = v') as -> by congruence.
    etransitivity; [apply (Hkept0 1); vm_compute; reflexivity|reflexivity].
  - destruct Hback as (v' & v'' & Happend & Hrun & Hsame); [vm_compute; reflexivity|].
    exists v', v''. split; [exact Happend|]. split; [exact Hrun|]. exact Hsame.
Defined.

Lemma Clear_empties_witness :
  Vector.isFixedSize Examples.resizable = false /\
  exists v',
    Vector.Clear (Examples.resizable, tt) = (S_OK, (v', tt)) /\
    Vector.mVector v' = [] /\
    seen (Vector.get_Size (v', Some 7)) = (S_OK, Some 0) /\
    seen (Vector.GetAt 0 (v', Some 7)) = (E_BOUNDS, Some 0) /\
    seen (Vector.RemoveAtEnd (v', tt)) = (E_BOUNDS, tt).
Proof.
  split; [reflexivity|].
  destruct (Clear_empties Examples.resizable eq_refl)
    as (v' & Hrun & Hempty & Hsize & Hget & _ & Hend).
  exists v'. split; [exact Hrun|]. split; [exact Hempty|].
  split; [exact (Hsize 7)|]. split; [exact (Hget 0 7)|exact Hend].
Defined.

Lemma IndexOf_is_first_occurrence_witness :
  (forall e y : unsigned, Equals e y = Returned (bool_decide (e = Wrap y))) /\
  DefaultVectorTraits.size (Vector.mVector Samples.repeats) < UINT_RANGE /\
  Vector.IndexOf 20 (Samples.repeats, (Some 7, Some false))
  = (S_OK, (Samples.repeats, (Some 1, Some true))) /\
  Vector.IndexOf 30 (Samples.repeats, (Some 7, Some true))
  = (S_OK, (Samples.repeats, (Some 0, Some false))).
Proof.
  assert (Heq : forall e y : unsigned, Equals e y = Returned (bool_decide (e = Wrap y)))
    by (intros e y; reflexivity).
  split; [exact Heq|]. split; [reflexivity|]. split.
  - exact (proj1 (IndexOf_is_first_occurrence Samples.repeats 20 7 false Heq eq_refl)).
  - exact (proj1 (IndexOf_is_first_occurrence Samples.repeats 30 7 true Heq eq_refl)).
Defined.

Lemma IndexOf_passes_compare_failure_witness :
  Vector.mVector Examples.strings = [[72; 105]] /\
  FAILED E_INVALIDARG = true /\
  Vector.IndexOf
    (ElementTraits0 := ElementTraits_HSTRING.traits Examples.failing_compare)
    [72] (Examples.strings, (Some 7, Some true))
  = (E_INVALIDARG, (Examples.strings, (Some 0, Some false))).
Proof.
  split; [reflexivity|]. split; [reflexivity|].
  exact (proj1 (IndexOf_passes_compare_failure Examples.failing_compare
                  Examples.strings [72] 7 true)
           [72; 105] [] E_INVALIDARG 0%Z eq_refl eq_refl eq_refl eq_refl).
Defined.

Lemma entry_point_statuses_witness :
  In (fst (Vector.GetAt 5 (Examples.resizable, Some 0))) [S_OK; E_INVALIDARG; E_BOUNDS] /\
  fst (Vector.get_Size (Examples.resizable, None)) = E_INVALIDARG /\
  fst (Vector.Append 40 (Examples.fixed, tt)) = E_NOTIMPL.
Proof.
  destruct (@entry_point_statuses _ _ _ _ ElementTraits_T_laws
              Examples.resizable (VectorIterator.new 0%nat))
    as (Hsize & Hget & _).
  destruct (@entry_point_statuses _ _ _ _ ElementTraits_T_laws
              Examples.fixed (VectorIterator.new 0%nat))
    as (_ & _ & _ & _ & _ & _ & _ & Happend & _).
  split; [exact (proj1 (Hget 5 (Some 0)))|].
  split; [exact (proj2 (proj2 (Hsize None)) eq_refl)|].
  exact (proj2 (Happend 40) eq_refl).
Defined.

Lemma get_Current_reads_position_witness :
  seen (IIterator.get_Current
          ((Examples.resizable,
            {| VectorIterator.mVector := 0%nat; VectorIterator.mPosition := 1 |}),
           Some 0))
  = (S_OK, Some 20) /\
  seen (IIterator.get_Current
          ((Examples.resizable,
            {| VectorIterator.mVector := 0%nat; VectorIterator.mPosition := 3 |}),
           Some 7))
  = (E_BOUNDS, Some 0).
Proof.
  split.
  - pose proof (@get_Current_reads_position _ _ _ _ ElementTraits_T_laws
                  Examples.resizable
                  {| VectorIterator.mVector := 0%nat; VectorIterator.mPosition := 1 |}
                  0 false) as P.
    cbv zeta in P. exact (proj1 P 20 eq_refl).
  - pose proof (@get_Current_reads_position _ _ _ _ ElementTraits_T_laws
                  Examples.resizable
                  {| VectorIterator.mVector := 0%nat; VectorIterator.mPosition := 3 |}
                  7 false) as P.
    cbv zeta in P. apply (proj1 (proj2 P)). vm_compute. discriminate.
Defined.

Lemma MoveNext_walks_to_the_end_witness :
  DefaultVectorTraits.size (Vector.mVector Examples.resizable) < UINT_RANGE /\
  fst (MoveNext_times 5 ((Examples.resizable, VectorIterator.new 0%nat), Some false))
  = [S_OK; S_OK; S_OK; E_BOUNDS; E_BOUNDS] /\
  seen (IIterator.get_Current
          (fst (snd (MoveNext_times 2
                       ((Examples.resizable, VectorIterator.new 0%nat), Some false))),
           Some 0))
  = (S_OK, Some 30).
Proof.
  split; [reflexivity|]. split.
  - pose proof (@MoveNext_walks_to_the_end _ _ _ _ ElementTraits_T_laws
                  Examples.resizable 0%nat 5%nat false 0 eq_refl) as P.
    cbv zeta in P. exact (proj1 P).
  - pose proof (@MoveNext_walks_to_the_end _ _ _ _ ElementTraits_T_laws
                  Examples.resizable 0%nat 2%nat false 0 eq_refl) as P.
    cbv zeta in P. destruct P as (_ & _ & Hinside & _).
    destruct Hinside as [_ Hcurrent]; [vm_compute; lia|].
    exact (Hcurrent 30 eq_refl).
Defined.

Lemma calls_touch_only_their_receiver_witness :
  exists w',
    invoke (Vector_Append 0%nat 40) Examples.store = Some w' /\
    World.iterators w' !! 0%nat = Some (VectorIterator.new 0%nat) /\
    invoke (Vector_GetAt 0%nat 1 (Some 0)) w' = Some w'.
Proof.
  destruct (invoke (Vector_Append 0%nat 40) Examples.store) as [w'|] eqn:Hcall;
    [|vm_compute in Hcall; discriminate].
  exists w'. split; [reflexivity|].
  destruct (calls_touch_only_their_receiver _ _ _ Hcall) as (_ & _ & _ & Hits & _).
  split; [exact (Hits 0%nat (VectorIterator.new 0%nat) eq_refl eq_refl)|].
  destruct (invoke (Vector_GetAt 0%nat 1 (Some 0)) w') as [w''|] eqn:Hread.
  - destruct (calls_touch_only_their_receiver _ _ _ Hread) as (Hsame & _).
    rewrite (Hsame eq_refl). reflexivity.
  - injection Hcall as <-. vm_compute in Hread. discriminate.
Defined.

Lemma First_makes_an_iterator_witness :
  World.vectors Examples.store !! 0%nat = Some Examples.resizable /\
  World.First 0%nat false (Some None) Examples.store
  = Some (E_OUTOFMEMORY, Some None, Examples.store) /\
  exists h w',
    World.First 0%nat true (Some None) Examples.store
    = Some (S_OK, Some (Some h), w') /\
    World.iterators Examples.store !! h = None /\
    World.on_iterator h IIterator.get_HasCurrent (Some false) w'
    = Some (S_OK, Some true, w').
Proof.
  pose proof (First_makes_an_iterator Examples.store 0%nat Examples.resizable
                None false eq_refl) as P.
  cbv zeta in P. destruct P as (Hfresh & Hfirst & Hhas & Hfail & _).
  split; [reflexivity|]. split; [exact Hfail|].
  eexists _, _. split; [exact Hfirst|]. split; [exact Hfresh|exact Hhas].
Defined.

Lemma GetView_makes_a_live_view_witness :
  World.vectors Examples.store !! 0%nat = Some Examples.resizable /\
  Vector.isFixedSize Examples.resizable = false /\
  DefaultVectorTraits.size (Vector.mVector Examples.resizable) + 1 < UINT_RANGE /\
  exists h w1 w2,
    World.GetView 0%nat true (Some None) Examples.store
    = Some (S_OK, Some (Some h), w1) /\
    World.on_vector 0%nat (Vector.Append 40) tt w1 = Some (S_OK, tt, w2) /\
    World.on_view h IVectorView.get_Size (Some 0) w2 = Some (S_OK, Some 4, w2) /\
    World.on_view h (IVectorView.GetAt 3) (Some 0) w2 = Some (S_OK, Some 40, w2).
Proof.
  pose proof (@GetView_makes_a_live_view _ _ _ _ ElementTraits_T_laws
                Examples.store 0%nat Examples.resizable None 40 0 0
                eq_refl eq_refl eq_refl) as P.
  cbv zeta in P. destruct P as (_ & Hview & _ & Happend & Hsize & Hget).
  split; [reflexivity|]. split; [reflexivity|]. split; [reflexivity|].
  eexists _, _, _. split; [exact Hview|]. split; [exact Happend|].
  split; [exact Hsize|exact Hget].
Defined.

Lemma RemoveObject_undoes_AddObject_witness :
  LifespanInfo.count Samples.tracked 5%nat < LifespanInfo.SIZE_RANGE 64 /\
  LifespanInfo.count
    (fst (LifespanInfo.AddObject 64 5%nat false false Samples.tracked)) 5%nat = 1 /\
  LifespanInfo.ReportLiveObjects 64 Samples.names
    (fst (LifespanInfo.RemoveObject 64 5%nat false false
            (fst (LifespanInfo.AddObject 64 5%nat false false Samples.tracked))))
  = LifespanInfo.ReportLiveObjects 64 Samples.names Samples.tracked.
Proof.
  assert (H : LifespanInfo.count Samples.tracked 5%nat < LifespanInfo.SIZE_RANGE 64)
    by (vm_compute; reflexivity).
  split; [exact H|].
  pose proof (RemoveObject_undoes_AddObject 64 Samples.names Samples.tracked 5%nat
                false false false false H) as P.
  cbv zeta in P. destruct P as (Hadded & _ & _ & Hreport).
  split; [|exact Hreport].
  rewrite Hadded. vm_compute. reflexivity.
Defined.

Lemma counts_follow_events_witness :
  LifespanInfo.count Samples.tracked 1%nat < LifespanInfo.SIZE_RANGE 64 /\
  LifespanInfo.constructed 1%nat Samples.history
  = LifespanInfo.destroyed 1%nat Samples.history /\
  LifespanInfo.count (foldl (LifespanInfo.track 64) Samples.tracked Samples.history) 1%nat
  = 2.
Proof.
  assert (H : LifespanInfo.count Samples.tracked 1%nat < LifespanInfo.SIZE_RANGE 64)
    by (vm_compute; reflexivity).
  split; [exact H|]. split; [reflexivity|].
  pose proof (counts_follow_events 64 Samples.tracked Samples.history 1%nat H) as P.
  cbv zeta in P. destruct P as (_ & Hsame & _).
  rewrite (Hsame eq_refl). reflexivity.
Defined.
